(** * Execution-history aggregation, reporter store and wait helpers

    A shallow embedding of the parts of the Playwright automation framework
    that turn the execution history into dashboard figures
    ([scripts/generate-report.ts]), name the tests and append to that
    history ([src/utils/CustomReporter.ts]) and poll for a stable element
    count, wait for a condition or retry an action
    ([src/utils/WaitHelpers.ts]), followed by the properties proved of them.

    Conventions.
    - A JavaScript number that the code keeps is integer valued (a count, a
      millisecond duration, a time value, the result of [Math.round]) or one
      of NaN, Infinity, -Infinity: type [number].  The sums of counts and of
      durations are taken as exact, which they are for magnitudes below
      2^53.
    - The wall-clock time of a run is computed as the code computes it, in
      IEEE-754 doubles: the end times, their maximum, the minimum of the
      start times and the difference are the kernel's binary64 operations,
      and the result is read back as a [number].
    - A quotient is an IEEE-754 double, computed with the kernel's binary64
      floats, and is rounded by [Math_round] or printed by [toFixed1] exactly
      as the double it is.
    - A JavaScript object used as a dictionary is a [gmap string _]; what the
      prototype chain adds to a lookup is written out ([inherited]), and so
      is the order in which [Object.values] lists its properties
      ([own_keys]).
    - A statement that can throw returns a [completion]. *)

From Stdlib Require Import ZArith List String Ascii Lia Bool.
From Stdlib Require PrimFloat SpecFloat Uint63 FloatOps FloatAxioms Sorted.
From stdpp Require Import gmap strings list pretty functions.

Import ListNotations.
Local Open Scope string_scope.
Local Open Scope list_scope.
Local Open Scope Z_scope.

(** ** JavaScript values *)

Module Js.

(** An abrupt completion carries the error thrown. *)
Inductive error : Type :=
| TypeError (message : string)
| SyntaxError (message : string)
| SystemError (message : string).

Inductive completion (A : Type) : Type :=
| Normal (value : A)
| Throw (e : error).
Arguments Normal {A} value.
Arguments Throw {A} e.

Definition bind {A B : Type} (c : completion A) (k : A -> completion B)
  : completion B :=
  match c with
  | Normal a => k a
  | Throw e => Throw e
  end.

(** [o || d] for an optional string: [undefined] and [""] are falsy. *)
Definition or_default (o : option string) (d : string) : string :=
  match o with
  | Some s => if String.eqb s "" then d else s
  | None => d
  end.

(** [hay.startsWith(needle)] and [hay.includes(needle)].  The needles used
    below are ASCII, for which matching bytes and matching UTF-16 code
    units agree. *)
Fixpoint startsWith (needle hay : string) : bool :=
  match needle, hay with
  | EmptyString, _ => true
  | String a n', String b h' => Ascii.eqb a b && startsWith n' h'
  | String _ _, EmptyString => false
  end.

Fixpoint includes (needle hay : string) : bool :=
  startsWith needle hay ||
  match hay with
  | EmptyString => false
  | String _ h' => includes needle h'
  end.

(** The names every object literal inherits from [Object.prototype]: for
    these, [obj[name]] is a function (or the prototype itself) even when
    the object has no such property of its own. *)
Definition Object_prototype_keys : list string :=
  [ "constructor"; "__proto__"; "hasOwnProperty"; "isPrototypeOf";
    "propertyIsEnumerable"; "toLocaleString"; "toString"; "valueOf";
    "__defineGetter__"; "__defineSetter__"; "__lookupGetter__";
    "__lookupSetter__" ].

Definition inherited (key : string) : bool :=
  existsb (String.eqb key) Object_prototype_keys.

(** *** Numbers *)

Inductive number : Type :=
| Int (z : Z)
| NaN
| Infinity
| NegInfinity.

Definition of_nat (n : nat) : number := Int (Z.of_nat n).

Definition add (x y : number) : number :=
  match x, y with
  | NaN, _ | _, NaN => NaN
  | Int a, Int b => Int (a + b)
  | Infinity, NegInfinity | NegInfinity, Infinity => NaN
  | Infinity, _ | _, Infinity => Infinity
  | NegInfinity, _ | _, NegInfinity => NegInfinity
  end.

Definition neg (x : number) : number :=
  match x with
  | Int a => Int (- a)
  | NaN => NaN
  | Infinity => NegInfinity
  | NegInfinity => Infinity
  end.

Definition sub (x y : number) : number := add x (neg y).

(** [x < y]; every comparison with NaN is false. *)
Definition lt (x y : number) : bool :=
  match x, y with
  | NaN, _ | _, NaN => false
  | Int a, Int b => a <? b
  | NegInfinity, NegInfinity => false
  | NegInfinity, _ => true
  | _, Infinity => match x with Infinity => false | _ => true end
  | _, _ => false
  end.

Definition gt (x y : number) : bool := lt y x.

(** [x >= y]. *)
Definition ge (x y : number) : bool :=
  match x, y with
  | NaN, _ | _, NaN => false
  | _, _ => negb (lt x y)
  end.

(** *** Doubles *)

Definition double := PrimFloat.float.

(** The double nearest to an integer: the integer itself below 2^53 (and
    the model stays below 2^63). *)
Definition double_of_Z (z : Z) : double :=
  if z <? 0
  then PrimFloat.opp (PrimFloat.of_uint63 (Uint63.of_Z (- z)))
  else PrimFloat.of_uint63 (Uint63.of_Z z).

Definition to_double (x : number) : double :=
  match x with
  | Int z => double_of_Z z
  | NaN => PrimFloat.nan
  | Infinity => PrimFloat.infinity
  | NegInfinity => PrimFloat.neg_infinity
  end.

(** [x / y] on numbers yields a double. *)
Definition div (x y : number) : double :=
  PrimFloat.div (to_double x) (to_double y).

(** [Math.round(x)]: the integer nearest to the exact value of the double,
    a tie going up.  The value of a finite double is [m * 2^e]. *)
Definition Math_round (x : double) : number :=
  match FloatOps.Prim2SF x with
  | SpecFloat.S754_zero _ => Int 0
  | SpecFloat.S754_finite s m e =>
      let n := if s then Z.neg m else Z.pos m in
      if 0 <=? e then Int (n * 2 ^ e)
      else Int ((2 * n + 2 ^ (- e)) / 2 ^ (- e + 1))
  | SpecFloat.S754_infinity false => Infinity
  | SpecFloat.S754_infinity true => NegInfinity
  | SpecFloat.S754_nan => NaN
  end.

(** [x.toFixed(1)]: the decimal with one fractional digit nearest to the
    exact magnitude of the double, a tie going up.
    (From 10^21 on JavaScript prints the exponent form instead, which is
    not modelled: the digits are printed.) *)
Definition tenths (m : positive) (e : Z) : Z :=
  let n := Z.pos m in
  if 0 <=? e then 10 * n * 2 ^ e
  else (20 * n + 2 ^ (- e)) / 2 ^ (- e + 1).

Definition fixed1_digits (n : Z) : string :=
  pretty (n / 10) +:+ "." +:+ pretty (n mod 10).

Definition toFixed1 (x : double) : string :=
  match FloatOps.Prim2SF x with
  | SpecFloat.S754_zero _ => "0.0"
  | SpecFloat.S754_finite s m e =>
      (if s then "-" else "") +:+ fixed1_digits (tenths m e)
  | SpecFloat.S754_infinity false => "Infinity"
  | SpecFloat.S754_infinity true => "-Infinity"
  | SpecFloat.S754_nan => "NaN"
  end.

End Js.

(** ** Doubles, where the code's arithmetic is kept as it is *)
Module Double.

(** The number that a double is, where it is a whole number (of a double
    that is not, the integer part; none arises below from whole numbers). *)
Definition to_number (x : Js.double) : Js.number :=
  match FloatOps.Prim2SF x with
  | SpecFloat.S754_zero _ => Js.Int 0
  | SpecFloat.S754_finite s m e =>
      let n := if 0 <=? e then Z.pos m * 2 ^ e else Z.pos m / 2 ^ (- e) in
      Js.Int (if s then - n else n)
  | SpecFloat.S754_infinity false => Js.Infinity
  | SpecFloat.S754_infinity true => Js.NegInfinity
  | SpecFloat.S754_nan => Js.NaN
  end.

Definition is_neg_zero (x : Js.double) : bool :=
  match FloatOps.Prim2SF x with
  | SpecFloat.S754_zero true => true
  | _ => false
  end.

(** One step of [Math.min] and of [Math.max]: NaN is contagious, and -0 is
    below +0. *)
Definition min2 (lowest x : Js.double) : Js.double :=
  if PrimFloat.is_nan lowest || PrimFloat.is_nan x then PrimFloat.nan
  else if PrimFloat.ltb x lowest then x
  else if PrimFloat.eqb x lowest && is_neg_zero x then x
  else lowest.

Definition max2 (highest x : Js.double) : Js.double :=
  if PrimFloat.is_nan highest || PrimFloat.is_nan x then PrimFloat.nan
  else if PrimFloat.ltb highest x then x
  else if PrimFloat.eqb x highest && is_neg_zero highest then x
  else highest.

Definition Math_min (xs : list Js.double) : Js.double :=
  fold_left min2 xs PrimFloat.infinity.
Definition Math_max (xs : list Js.double) : Js.double :=
  fold_left max2 xs PrimFloat.neg_infinity.

End Double.

(** ** The data model ([src/types]) *)

Module Types.

Inductive TestStatus : Type :=
| passed | failed | timedOut | skipped | interrupted.

Inductive BrowserType : Type :=
| chromium | firefox | webkit.

(** What a stored record holds in its [browser] field: one of the three
    declared names, or one of the falsy values the report guards against
    with [record.browser || 'chromium']. *)
Inductive stored_browser : Type :=
| browser_missing
| browser_empty
| browser_is (b : BrowserType).

(** [TestExecutionRecord], with the fields that the code embedded here
    reads ([description], [steps], [category], [retryCount] and [error] are
    not among them).  The declaration has [runId], [executionMode] and
    [browser] as required fields; the history is read back with
    [JSON.parse], and the report guards the three reads with [||]: a stored
    record may lack them. *)
Record TestExecutionRecord : Type := {
  testId : string;
  runId : option string;
  testName : string;
  status : TestStatus;
  duration : Z;
  timestamp : string;
  executionMode : option string;
  browser : stored_browser;
}.

#[global] Instance TestStatus_eq_dec : EqDecision TestStatus.
Proof. solve_decision. Defined.
#[global] Instance BrowserType_eq_dec : EqDecision BrowserType.
Proof. solve_decision. Defined.

Definition is_passed (s : TestStatus) : bool := bool_decide (s = passed).
Definition is_skipped (s : TestStatus) : bool := bool_decide (s = skipped).

End Types.

Import Types.

(** ** [scripts/generate-report.ts] *)

(** [interface BrowserStats] *)
Module BrowserStats.
Record t : Type := {
  browser : BrowserType;
  passed : nat;
  failed : nat;
  total : nat;
  avgDuration : Js.number;
  stability : Js.number;
}.
End BrowserStats.

(** [interface RunGroup] *)
Module RunGroup.
Inductive mode : Type := parallel | sequential | unknown.

Record t : Type := {
  id : string;
  timestamp : string;
  results : list TestExecutionRecord;
  passed : nat;
  failed : nat;
  duration : Z;
  wallClockTime : Js.number;
  browsers : list BrowserType;
  executionMode : mode;
}.
End RunGroup.

(** [interface ExecutionModeMetrics] *)
Module ExecutionModeMetrics.
Record t : Type := {
  mode : string;
  totalRuns : nat;
  totalTests : nat;
  avgDuration : Js.number;
  avgRunTime : Js.number;
  passRate : Js.number;
  passed : nat;
  failed : nat;
  skipped : nat;
}.
End ExecutionModeMetrics.

(** What [calculateExecutionModeMetrics] returns. *)
Module ExecutionMetrics.
Record t : Type := {
  parallel : ExecutionModeMetrics.t;
  sequential : ExecutionModeMetrics.t;
}.
End ExecutionMetrics.

(** What the template is filled with. *)
Module Dashboard.
Record t : Type := {
  history : list TestExecutionRecord;
  runs : gmap string RunGroup.t;
  recentHistory : list TestExecutionRecord;
  browserStats : list BrowserStats.t;
  executionMetrics : ExecutionMetrics.t;
  performanceGain : string;
}.
End Dashboard.

(** What [JSON.parse] returns for the history file when it does not throw:
    an array, whose elements the code takes to be records as its type
    annotation says, or some other JSON value. *)
Inductive json : Type :=
| History (records : list TestExecutionRecord)
| NotAnArray.

(** What the host supplies.
    - [Date_getTime s] is [new Date(s).getTime()]: a whole number of
      milliseconds, or NaN ([None]).
    - [JSON_parse s] is [None] where [JSON.parse(s)] throws a SyntaxError.
    - [JSON_stringify h] is [JSON.stringify(h, null, 2)].
    - [render d] is the HTML template of [generateReport], filled. *)
Class Host : Type := {
  Date_getTime : string -> option Z;
  JSON_parse : string -> option json;
  JSON_stringify : list TestExecutionRecord -> string;
  render : Dashboard.t -> string;
}.

Definition getTime `{Host} (iso : string) : Js.number :=
  match Date_getTime iso with
  | Some t => Js.Int t
  | None => Js.NaN
  end.

(** *** calculateBrowserStats (lines 100-128) *)

(** One entry of the local [stats] object. *)
Module Bucket.
Record t : Type := {
  passed : nat;
  failed : nat;
  totalDuration : Z;
  count : nat;
}.
Definition zero : t :=
  {| passed := 0; failed := 0; totalDuration := 0; count := 0 |}.
End Bucket.

(** [record.browser || 'chromium'] *)
Definition browser_or_chromium (b : stored_browser) : BrowserType :=
  match b with
  | browser_is b => b
  | browser_missing | browser_empty => chromium
  end.

(** The body of the [for] loop; [stats] has the three fixed keys. *)
Definition tally (stats : BrowserType -> Bucket.t) (record : TestExecutionRecord)
  : BrowserType -> Bucket.t :=
  let browser := browser_or_chromium (Types.browser record) in
  let s := stats browser in
  let s :=
    {| Bucket.count := S (Bucket.count s);
       Bucket.totalDuration := Bucket.totalDuration s + Types.duration record;
       Bucket.passed :=
         if is_passed (Types.status record)
         then S (Bucket.passed s) else Bucket.passed s;
       Bucket.failed :=
         if is_passed (Types.status record)
         then Bucket.failed s else S (Bucket.failed s) |} in
  <[browser := s]> stats.

(** [Object.entries(stats)]: the keys in the order the literal lists them. *)
Definition Object_entries (stats : BrowserType -> Bucket.t)
  : list (BrowserType * Bucket.t) :=
  [ (chromium, stats chromium); (firefox, stats firefox); (webkit, stats webkit) ].

(** [Math.round((part / whole) * 100)] *)
Definition percent (part whole : nat) : Js.number :=
  Js.Math_round
    (PrimFloat.mul (Js.div (Js.of_nat part) (Js.of_nat whole)) (Js.double_of_Z 100)).

Definition browser_entry (e : BrowserType * Bucket.t) : BrowserStats.t :=
  let '(browser, s) := e in
  {| BrowserStats.browser := browser;
     BrowserStats.passed := Bucket.passed s;
     BrowserStats.failed := Bucket.failed s;
     BrowserStats.total := Bucket.count s;
     BrowserStats.avgDuration :=
       Js.Math_round (Js.div (Js.Int (Bucket.totalDuration s)) (Js.of_nat (Bucket.count s)));
     BrowserStats.stability :=
       if (0 <? Bucket.count s)%nat
       then percent (Bucket.passed s) (Bucket.count s)
       else Js.Int 0 |}.

Definition calculateBrowserStats (records : list TestExecutionRecord)
  : list BrowserStats.t :=
  let stats := fold_left tally records (fun _ => Bucket.zero) in
  map browser_entry
    (List.filter (fun e => (0 <? Bucket.count (snd e))%nat) (Object_entries stats)).

(** *** generateReport: grouping by run id (the [reduce], lines 247-270) *)

(** [run.runId || 'LEGACY-RUN'] *)
Definition run_key (run : TestExecutionRecord) : string :=
  Js.or_default (runId run) "LEGACY-RUN".

(** The object stored on the first record of a key. *)
Definition new_group (rId : string) (run : TestExecutionRecord) : RunGroup.t :=
  {| RunGroup.id := rId;
     RunGroup.timestamp := Types.timestamp run;
     RunGroup.results := [];
     RunGroup.passed := 0;
     RunGroup.failed := 0;
     RunGroup.duration := 0;
     RunGroup.wallClockTime := Js.Int 0;
     RunGroup.browsers := [];
     RunGroup.executionMode := RunGroup.unknown |}.

(** [browsers.includes(b)] *)
Definition has_browser (b : BrowserType) (bs : list BrowserType) : bool :=
  existsb (fun b' => bool_decide (b' = b)) bs.

(** The four updates of [acc[rId]] that follow the initialisation. *)
Definition accumulate (g : RunGroup.t) (run : TestExecutionRecord) : RunGroup.t :=
  {| RunGroup.id := RunGroup.id g;
     RunGroup.timestamp := RunGroup.timestamp g;
     RunGroup.results := RunGroup.results g ++ [run];
     RunGroup.passed :=
       if is_passed (Types.status run) then S (RunGroup.passed g) else RunGroup.passed g;
     RunGroup.failed :=
       if is_passed (Types.status run) then RunGroup.failed g else S (RunGroup.failed g);
     RunGroup.duration := RunGroup.duration g + Types.duration run;
     RunGroup.wallClockTime := RunGroup.wallClockTime g;
     RunGroup.browsers :=
       match Types.browser run with
       | browser_is b =>
           if has_browser b (RunGroup.browsers g)
           then RunGroup.browsers g
           else RunGroup.browsers g ++ [b]
       | browser_missing | browser_empty => RunGroup.browsers g
       end;
     RunGroup.executionMode := RunGroup.executionMode g |}.

(** One call of the reducer.  [acc] starts as the literal [{}], an object
    with [Object.prototype] behind it: when [rId] is not a property of [acc]
    itself but a name it inherits ([acc["constructor"]] is the function
    [Object]), [!acc[rId]] is false, the initialisation is skipped,
    [acc[rId].results] is [undefined] and the [push] throws. *)
Definition group_step (acc : gmap string RunGroup.t) (run : TestExecutionRecord)
  : Js.completion (gmap string RunGroup.t) :=
  let rId := run_key run in
  match acc !! rId with
  | Some g => Js.Normal (<[rId := accumulate g run]> acc)
  | None =>
      if Js.inherited rId
      then Js.Throw (Js.TypeError "Cannot read properties of undefined (reading 'push')")
      else Js.Normal (<[rId := accumulate (new_group rId run) run]> acc)
  end.

Definition groupRuns (history : list TestExecutionRecord)
  : Js.completion (gmap string RunGroup.t) :=
  fold_left (fun acc run => Js.bind acc (fun acc => group_step acc run))
    history (Js.Normal ∅).

(** *** generateReport: wall-clock time and execution mode (the [forEach],
    lines 273-292) *)

(** [run.results[0]?.executionMode || 'unknown'] *)
Definition first_mode (run : RunGroup.t) : string :=
  Js.or_default
    (match RunGroup.results run with
     | r :: _ => Types.executionMode r
     | [] => None
     end)
    "unknown".

(** Lines 275-280: the wall-clock time, from the time value and the
    duration of each result, in the doubles of the code. *)
Definition wall_clock (spans : list (Js.double * Js.double)) : Js.double :=
  let timestamps := map fst spans in
  let startTime := Double.Math_min timestamps in
  let endTimes := map (fun s => PrimFloat.add (fst s) (snd s)) spans in
  let endTime := Double.Math_max endTimes in
  PrimFloat.sub endTime startTime.

(** [new Date(r.timestamp).getTime()] and [r.duration], as doubles.  A
    record keeps its duration as a whole number of milliseconds (see the
    conventions); [wall_clock] itself takes any doubles. *)
Definition span `{Host} (r : TestExecutionRecord) : Js.double * Js.double :=
  (Js.to_double (getTime (Types.timestamp r)), Js.double_of_Z (Types.duration r)).

(** The callback of the [forEach]. *)
Definition finish_run `{Host} (run : RunGroup.t) : RunGroup.t :=
  if (0 <? length (RunGroup.results run))%nat then
    let mode := first_mode run in
    {| RunGroup.id := RunGroup.id run;
       RunGroup.timestamp := RunGroup.timestamp run;
       RunGroup.results := RunGroup.results run;
       RunGroup.passed := RunGroup.passed run;
       RunGroup.failed := RunGroup.failed run;
       RunGroup.duration := RunGroup.duration run;
       RunGroup.wallClockTime :=
         Double.to_number (wall_clock (map span (RunGroup.results run)));
       RunGroup.browsers := RunGroup.browsers run;
       RunGroup.executionMode :=
         if Js.includes "parallel" mode || String.eqb mode "test" || String.eqb mode "npx"
         then RunGroup.parallel
         else if Js.includes "sequential" mode
         then RunGroup.sequential
         else RunGroup.parallel |}
  else run.

(** The aggregation pass: the [reduce] followed by the [forEach]. *)
Definition aggregate `{Host} (history : list TestExecutionRecord)
  : Js.completion (gmap string RunGroup.t) :=
  Js.bind (groupRuns history) (fun runs => Js.Normal (finish_run <$> runs)).

(** *** calculateExecutionModeMetrics (lines 160-217) *)

(** [Object.values(runs)].  The order of enumeration is left to the map:
    what is computed from it below are sums and memberships. *)
Definition Object_values (runs : gmap string RunGroup.t) : list RunGroup.t :=
  (map_to_list runs).*2.

(** The callback that fills [parallelRuns] and [sequentialRuns]. *)
Definition partition_step (lists : list RunGroup.t * list RunGroup.t)
  (run : RunGroup.t) : list RunGroup.t * list RunGroup.t :=
  let '(parallelRuns, sequentialRuns) := lists in
  let mode := first_mode run in
  if Js.includes "parallel" mode || String.eqb mode "test" || String.eqb mode "npx"
  then (parallelRuns ++ [run], sequentialRuns)
  else if Js.includes "sequential" mode
  then (parallelRuns, sequentialRuns ++ [run])
  else (parallelRuns ++ [run], sequentialRuns).

(** The local counters of [calcMetrics]. *)
Module Counters.
Record t : Type := {
  totalDuration : Z;
  totalTests : nat;
  passed : nat;
  failed : nat;
  skipped : nat;
  totalWallClockTime : Js.number;
}.
Definition zero : t :=
  {| totalDuration := 0; totalTests := 0; passed := 0; failed := 0;
     skipped := 0; totalWallClockTime := Js.Int 0 |}.
End Counters.

(** The callbacks of the two nested [forEach], on a result and on a run. *)
Definition count_result (c : Counters.t) (r : TestExecutionRecord) : Counters.t :=
  {| Counters.totalDuration := Counters.totalDuration c + Types.duration r;
     Counters.totalTests := S (Counters.totalTests c);
     Counters.passed :=
       if is_passed (Types.status r) then S (Counters.passed c) else Counters.passed c;
     Counters.failed :=
       if is_passed (Types.status r) then Counters.failed c
       else if is_skipped (Types.status r) then Counters.failed c
       else S (Counters.failed c);
     Counters.skipped :=
       if is_passed (Types.status r) then Counters.skipped c
       else if is_skipped (Types.status r) then S (Counters.skipped c)
       else Counters.skipped c;
     Counters.totalWallClockTime := Counters.totalWallClockTime c |}.

Definition count_run (c : Counters.t) (run : RunGroup.t) : Counters.t :=
  let c :=
    {| Counters.totalDuration := Counters.totalDuration c;
       Counters.totalTests := Counters.totalTests c;
       Counters.passed := Counters.passed c;
       Counters.failed := Counters.failed c;
       Counters.skipped := Counters.skipped c;
       Counters.totalWallClockTime :=
         Js.add (Counters.totalWallClockTime c) (RunGroup.wallClockTime run) |} in
  fold_left count_result (RunGroup.results run) c.

Definition calcMetrics (runList : list RunGroup.t) (mode : string)
  : ExecutionModeMetrics.t :=
  if (length runList =? 0)%nat then
    {| ExecutionModeMetrics.mode := mode;
       ExecutionModeMetrics.totalRuns := 0;
       ExecutionModeMetrics.totalTests := 0;
       ExecutionModeMetrics.avgDuration := Js.Int 0;
       ExecutionModeMetrics.avgRunTime := Js.Int 0;
       ExecutionModeMetrics.passRate := Js.Int 0;
       ExecutionModeMetrics.passed := 0;
       ExecutionModeMetrics.failed := 0;
       ExecutionModeMetrics.skipped := 0 |}
  else
    let c := fold_left count_run runList Counters.zero in
    {| ExecutionModeMetrics.mode := mode;
       ExecutionModeMetrics.totalRuns := length runList;
       ExecutionModeMetrics.totalTests := Counters.totalTests c;
       ExecutionModeMetrics.avgDuration :=
         if (0 <? Counters.totalTests c)%nat
         then Js.Math_round
                (Js.div (Js.Int (Counters.totalDuration c)) (Js.of_nat (Counters.totalTests c)))
         else Js.Int 0;
       ExecutionModeMetrics.avgRunTime :=
         if (0 <? length runList)%nat
         then Js.Math_round
                (Js.div (Counters.totalWallClockTime c) (Js.of_nat (length runList)))
         else Js.Int 0;
       ExecutionModeMetrics.passRate :=
         if (0 <? Counters.totalTests c)%nat
         then percent (Counters.passed c) (Counters.totalTests c)
         else Js.Int 0;
       ExecutionModeMetrics.passed := Counters.passed c;
       ExecutionModeMetrics.failed := Counters.failed c;
       ExecutionModeMetrics.skipped := Counters.skipped c |}.

Definition partition_runs (runs : list RunGroup.t)
  : list RunGroup.t * list RunGroup.t :=
  fold_left partition_step runs ([], []).

Definition metrics_of_runs (runs : list RunGroup.t) : ExecutionMetrics.t :=
  let '(parallelRuns, sequentialRuns) := partition_runs runs in
  {| ExecutionMetrics.parallel := calcMetrics parallelRuns "Parallel";
     ExecutionMetrics.sequential := calcMetrics sequentialRuns "Sequential" |}.

Definition calculateExecutionModeMetrics (runs : gmap string RunGroup.t)
  : ExecutionMetrics.t :=
  metrics_of_runs (Object_values runs).

(** *** The "Performance Gain" cell of the template (lines 576-579) *)

Definition speedup_cell (executionMetrics : ExecutionMetrics.t) : string :=
  let p := ExecutionModeMetrics.avgRunTime (ExecutionMetrics.parallel executionMetrics) in
  let s := ExecutionModeMetrics.avgRunTime (ExecutionMetrics.sequential executionMetrics) in
  if Js.gt p (Js.Int 0) && Js.gt s (Js.Int 0)
  then Js.toFixed1 (Js.div s p) +:+ "x"
  else "-".

(** ** The file system and the console *)

Module Io.

Inductive entry : Type :=
| File (content : string)
| Unreadable.          (* exists, but reading it throws *)

Inductive level : Type := log | warn | error.

Record world : Type := {
  disk : gmap string entry;
  locked : gset string;          (* paths that cannot be written *)
  console : list (level * string);
}.

(** A statement: it may throw, and it changes the world. *)
Definition M (A : Type) : Type := world -> Js.completion A * world.

Definition ret {A : Type} (a : A) : M A := fun w => (Js.Normal a, w).

Definition throw {A : Type} (e : Js.error) : M A := fun w => (Js.Throw e, w).

Definition bind {A B : Type} (m : M A) (k : A -> M B) : M B :=
  fun w =>
    match m w with
    | (Js.Normal a, w') => k a w'
    | (Js.Throw e, w') => (Js.Throw e, w')
    end.

(** [try { body } catch { handler }] *)
Definition try_catch {A : Type} (body handler : M A) : M A :=
  fun w =>
    match body w with
    | (Js.Normal a, w') => (Js.Normal a, w')
    | (Js.Throw _, w') => handler w'
    end.

Definition print (l : level) (message : string) : M unit :=
  fun w =>
    (Js.Normal tt,
     {| disk := disk w; locked := locked w;
        console := console w ++ [(l, message)] |}).

Definition existsSync (path : string) : M bool :=
  fun w => (Js.Normal (bool_decide (is_Some (disk w !! path))), w).

Definition readFileSync (path : string) : M string :=
  fun w =>
    match disk w !! path with
    | Some (File content) => (Js.Normal content, w)
    | Some Unreadable => (Js.Throw (Js.SystemError "EACCES"), w)
    | None => (Js.Throw (Js.SystemError "ENOENT"), w)
    end.

Definition writeFileSync (path data : string) : M unit :=
  fun w =>
    if bool_decide (path ∈ locked w)
    then (Js.Throw (Js.SystemError "EACCES"), w)
    else (Js.Normal tt,
          {| disk := <[path := File data]> (disk w); locked := locked w;
             console := console w |}).

(** A completion, as a statement. *)
Definition lift {A : Type} (c : Js.completion A) : M A := fun w => (c, w).

End Io.

#[global] Instance Io_ret : MRet Io.M := @Io.ret.
#[global] Instance Io_bind : MBind Io.M := fun A B k m => Io.bind m k.

(** *** generateReport (lines 231-244 and 1011-1016) *)

Definition HISTORY_FILE : string := "output/execution-history.json".
Definition REPORT_FILE : string := "output/dashboard.html".

(** [history.slice(-100)] *)
Definition slice_last (n : nat) (history : list TestExecutionRecord)
  : list TestExecutionRecord :=
  drop (length history - n) history.

(** [JSON.parse(rawData)], throwing where the host's parser does. *)
Definition parse `{Host} (rawData : string) : Io.M json :=
  match JSON_parse rawData with
  | Some v => Io.ret v
  | None => Io.throw (Js.SyntaxError "Unexpected token in JSON")
  end.

(** What follows the parsing: the figures, the template, the output file. *)
Definition write_report `{Host} (parsed : json) : Io.M unit :=
  match parsed with
  | NotAnArray => Io.throw (Js.TypeError "history.reduce is not a function")
  | History history =>
      runs ← Io.lift (aggregate history);
      let recentHistory := slice_last 100 history in
      let browserStats := calculateBrowserStats recentHistory in
      let executionMetrics := calculateExecutionModeMetrics runs in
      let html :=
        render
          {| Dashboard.history := history;
             Dashboard.runs := runs;
             Dashboard.recentHistory := recentHistory;
             Dashboard.browserStats := browserStats;
             Dashboard.executionMetrics := executionMetrics;
             Dashboard.performanceGain := speedup_cell executionMetrics |} in
      Io.writeFileSync REPORT_FILE html ;;
      Io.print Io.log "✅ Infinity Dashboard 4.0 Generated Successfully!"
  end.

Definition generateReport `{Host} : Io.M unit :=
  found ← Io.existsSync HISTORY_FILE;
  if negb found then
    Io.print Io.warn "⚠️ No history found. Run tests first."
  else
    rawData ← Io.readFileSync HISTORY_FILE;
    parsed ← Io.try_catch
                (history ← parse rawData; Io.ret (Some history))
                (Io.print Io.error "Error parsing history file" ;; Io.ret None);
    match parsed with
    | None => Io.ret tt
    | Some history => write_report history
    end.

(** ** [src/utils/CustomReporter.ts]: appendToHistory (lines 218-237) *)

(** [history.push(record)] *)
Definition push (history : json) (record : TestExecutionRecord)
  : Io.M (list TestExecutionRecord) :=
  match history with
  | History records => Io.ret (records ++ [record])
  | NotAnArray => Io.throw (Js.TypeError "history.push is not a function")
  end.

Definition appendToHistory `{Host} (historyFile : string)
  (record : TestExecutionRecord) : Io.M unit :=
  found ← Io.existsSync historyFile;
  history ←
    (if (found : bool) then
       Io.try_catch
         (data ← Io.readFileSync historyFile; parse data)
         (Io.print Io.error "Error reading history file, starting fresh" ;;
          Io.ret (History []))
     else Io.ret (History []));
  history ← push history record;
  Io.try_catch
    (Io.writeFileSync historyFile (JSON_stringify history))
    (Io.print Io.error "Error writing to history file").

(** ** [src/utils/WaitHelpers.ts] and [src/types/generics.ts] *)

Module WaitOptions.
Record t : Type := {
  timeout : option Z;
  stabilityThreshold : option Z;
  pollInterval : option Z;
}.
End WaitOptions.

Module DEFAULT_WAIT_OPTIONS.
Definition timeout : Z := 5000.
Definition stabilityThreshold : Z := 100.
Definition pollInterval : Z := 50.
End DEFAULT_WAIT_OPTIONS.

(** *** waitForStableCount (lines 88-117)

    What the page does while [waitForStableCount] awaits it.  Between two
    awaits the code runs without the clock moving; [extra] is what an await
    takes beyond the time asked for (the lateness of the timer and the
    duration of [locator.count()]), and [count] what [locator.count()] then
    resolves with. *)
Module Poll.
Record t : Type := {
  extra : Z;
  count : Z;
}.
End Poll.

Module Page.
Record t : Type := {
  now : Z;                  (* [Date.now()] at the call *)
  first : Poll.t;           (* the count taken before the loop *)
  polls : list Poll.t;      (* one entry for each turn of the loop *)
}.
End Page.

(** The [return] statement reached. *)
Inductive exit : Type :=
| Stable        (* [return currentCount] inside the loop *)
| Deadline.     (* [return lastCount] after the loop *)

(** The [while] loop.  [None]: the page's script ends before the loop does. *)
Fixpoint poll_loop (timeout stabilityThreshold pollInterval startTime : Z)
  (now lastCount stableStart : Z) (polls : list Poll.t) : option (exit * Z) :=
  if now - startTime <? timeout then
    match polls with
    | [] => None
    | p :: polls =>
        let now := now + pollInterval + Poll.extra p in
        let currentCount := Poll.count p in
        if negb (currentCount =? lastCount) then
          poll_loop timeout stabilityThreshold pollInterval startTime
            now currentCount now polls
        else if stabilityThreshold <=? now - stableStart then
          Some (Stable, currentCount)
        else
          poll_loop timeout stabilityThreshold pollInterval startTime
            now lastCount stableStart polls
    end
  else Some (Deadline, lastCount).

Definition run_waitForStableCount (page : Page.t) (options : WaitOptions.t)
  : option (exit * Z) :=
  let timeout := default DEFAULT_WAIT_OPTIONS.timeout (WaitOptions.timeout options) in
  let stabilityThreshold :=
    default DEFAULT_WAIT_OPTIONS.stabilityThreshold
      (WaitOptions.stabilityThreshold options) in
  let pollInterval :=
    default DEFAULT_WAIT_OPTIONS.pollInterval (WaitOptions.pollInterval options) in
  let startTime := Page.now page in
  let lastCount := Poll.count (Page.first page) in
  let stableStart := Page.now page + Poll.extra (Page.first page) in
  poll_loop timeout stabilityThreshold pollInterval startTime
    stableStart lastCount stableStart (Page.polls page).

(** How the promise settles: [Js.Normal] is a resolution, [Js.Throw] a
    rejection. *)
Definition waitForStableCount (page : Page.t) (options : WaitOptions.t)
  : option (Js.completion Z) :=
  match run_waitForStableCount page options with
  | Some (_, n) => Some (Js.Normal n)
  | None => None
  end.

(** ** A host for the examples

    The theorems below hold for every [Host]; the examples need one.  This
    one reads time stamps in the format [Date.prototype.toISOString] writes
    ([YYYY-MM-DDTHH:mm:ss.sssZ]) and takes everything else for an invalid
    date; of JSON it knows the three texts the examples use. *)

Module Sample.

Definition digit (c : ascii) : option Z :=
  let n := Z.of_N (N_of_ascii c) - 48 in
  if (0 <=? n) && (n <=? 9) then Some n else None.

Fixpoint digits (acc : Z) (s : string) : option Z :=
  match s with
  | EmptyString => Some acc
  | String c s' =>
      match digit c with
      | Some d => digits (10 * acc + d) s'
      | None => None
      end
  end.

Definition field (start len : nat) (s : string) : option Z :=
  digits 0 (String.substring start len s).

Definition leap (y : Z) : bool :=
  ((y mod 4 =? 0) && negb (y mod 100 =? 0)) || (y mod 400 =? 0).

Definition days_in_month (y m : Z) : Z :=
  if m =? 2 then (if leap y then 29 else 28)
  else if (m =? 4) || (m =? 6) || (m =? 9) || (m =? 11) then 30
  else 31.

(** Days from 1970-01-01 to the given civil date. *)
Definition days_from_civil (y m d : Z) : Z :=
  let y := if m <=? 2 then y - 1 else y in
  let era := y / 400 in
  let yoe := y - era * 400 in
  let doy := (153 * (if 2 <? m then m - 3 else m + 9) + 2) / 5 + d - 1 in
  let doe := yoe * 365 + yoe / 4 - yoe / 100 + doy in
  era * 146097 + doe - 719468.

Definition separators (s : string) : bool :=
  String.eqb (String.substring 4 1 s) "-" &&
  String.eqb (String.substring 7 1 s) "-" &&
  String.eqb (String.substring 10 1 s) "T" &&
  String.eqb (String.substring 13 1 s) ":" &&
  String.eqb (String.substring 16 1 s) ":" &&
  String.eqb (String.substring 19 1 s) "." &&
  String.eqb (String.substring 23 1 s) "Z".

Definition Date_getTime (s : string) : option Z :=
  if (String.length s =? 24)%nat && separators s then
    y ← field 0 4 s; m ← field 5 2 s; d ← field 8 2 s;
    h ← field 11 2 s; mi ← field 14 2 s; sec ← field 17 2 s;
    ms ← field 20 3 s;
    if (1 <=? m) && (m <=? 12) && (1 <=? d) && (d <=? days_in_month y m)
       && (h <? 24) && (mi <? 60) && (sec <? 60)
    then Some ((((days_from_civil y m d * 24 + h) * 60 + mi) * 60 + sec) * 1000 + ms)
    else None
  else None.

Definition JSON_parse (s : string) : option json :=
  if String.eqb s "[]" then Some (History [])
  else if String.eqb s "{}" then Some NotAnArray
  else None.

Definition JSON_stringify (h : list TestExecutionRecord) : string :=
  "[" +:+ String.concat "," (map testId h) +:+ "]".

Definition render (d : Dashboard.t) : string :=
  "<html>" +:+ Dashboard.performanceGain d +:+ "</html>".

#[global] Instance host : Host :=
  Build_Host Date_getTime JSON_parse JSON_stringify render.

(** Records for the examples. *)
Definition record (id : string) (run : option string) (s : TestStatus)
  (d : Z) (at_ : string) (mode : option string) (b : stored_browser)
  : TestExecutionRecord :=
  {| testId := id; runId := run; testName := id; status := s; duration := d;
     timestamp := at_; executionMode := mode; browser := b |}.

(** Scenario A of the specification: three records of one run. *)
Definition scenario_A : list TestExecutionRecord :=
  [ record "TC1" (Some "RUN-1") passed 100 "1970-01-01T00:00:00.000Z"
      (Some "test") (browser_is chromium);
    record "TC2" (Some "RUN-1") passed 150 "1970-01-01T00:00:01.000Z"
      (Some "test") (browser_is firefox);
    record "TC3" (Some "RUN-1") failed 200 "1970-01-01T00:00:02.000Z"
      (Some "test") (browser_is chromium) ].

(** A window of ten firefox records, eight passed and two not, and one
    chromium record. *)
Definition on_firefox (s : TestStatus) (d : Z) : TestExecutionRecord :=
  record "TC1" (Some "RUN-2") s d "2024-01-19T08:22:46.000Z" (Some "test")
    (browser_is firefox).

Definition window_8_2 : list TestExecutionRecord :=
  [ on_firefox passed 120; on_firefox passed 95; on_firefox failed 310;
    on_firefox passed 101; on_firefox passed 87; on_firefox passed 143;
    record "TC9" (Some "RUN-2") passed 50 "2024-01-19T08:22:47.000Z" (Some "test")
      (browser_is chromium);
    on_firefox timedOut 5000; on_firefox passed 99; on_firefox passed 110;
    on_firefox passed 132 ].

(** A legacy record: no run id, no browser, no execution mode. *)
Definition legacy (id : string) (s : TestStatus) (d : Z) : TestExecutionRecord :=
  record id None s d "2023-11-02T10:00:00.000Z" None browser_missing.

Definition window_legacy : list TestExecutionRecord :=
  [ legacy "TC1" passed 40; on_firefox passed 70; legacy "TC2" failed 61;
    record "TC3" (Some "RUN-3") skipped 0 "2024-01-19T08:22:46.000Z" (Some "test")
      browser_empty ].

(** Worlds: a history file that is not JSON; one that cannot be read nor
    written. *)
Definition world_corrupt : Io.world :=
  {| Io.disk := {[ HISTORY_FILE := Io.File "[{ truncated" ]};
     Io.locked := ∅;
     Io.console := [] |}.

Definition world_sealed : Io.world :=
  {| Io.disk := {[ HISTORY_FILE := Io.Unreadable ]};
     Io.locked := {[ HISTORY_FILE ]};
     Io.console := [] |}.

(** A page whose count changes at every poll, and one that settles. *)
Definition restless_page : Page.t :=
  {| Page.now := 1000;
     Page.first := {| Poll.extra := 2; Poll.count := 1 |};
     Page.polls :=
       [ {| Poll.extra := 5; Poll.count := 2 |};
         {| Poll.extra := 5; Poll.count := 3 |};
         {| Poll.extra := 5; Poll.count := 4 |} ] |}.

Definition settling_page : Page.t :=
  {| Page.now := 1000;
     Page.first := {| Poll.extra := 2; Poll.count := 7 |};
     Page.polls :=
       [ {| Poll.extra := 1; Poll.count := 9 |};
         {| Poll.extra := 0; Poll.count := 9 |};
         {| Poll.extra := 3; Poll.count := 9 |};
         {| Poll.extra := 0; Poll.count := 9 |} ] |}.

Definition quick_options : WaitOptions.t :=
  {| WaitOptions.timeout := Some 150;
     WaitOptions.stabilityThreshold := Some 100;
     WaitOptions.pollInterval := None |}.

End Sample.

(** * More of the report, the reporter and the wait helpers *)

(** ** [scripts/generate-report.ts]: the global figures (lines 296-309) *)

(** [x.toFixed(0)]: the integer nearest to the exact magnitude of the
    double, a tie going up, with the sign of [x] in front. *)
Definition units (m : positive) (e : Z) : Z :=
  let n := Z.pos m in
  if 0 <=? e then n * 2 ^ e
  else (2 * n + 2 ^ (- e)) / 2 ^ (- e + 1).

Definition toFixed0 (x : Js.double) : string :=
  match FloatOps.Prim2SF x with
  | SpecFloat.S754_zero _ => "0"
  | SpecFloat.S754_finite s m e => (if s then "-" else "") +:+ pretty (units m e)
  | SpecFloat.S754_infinity false => "Infinity"
  | SpecFloat.S754_infinity true => "-Infinity"
  | SpecFloat.S754_nan => "NaN"
  end.

(** The constants [total], [passed], [failed], [passRate], [avgDuration]
    and [skipped] of [generateReport]. *)
Module GlobalStats.
Record t : Type := {
  total : nat;
  passed : nat;
  failed : nat;
  passRate : string;
  avgDuration : string;
  skipped : nat;
}.
End GlobalStats.

Definition global_stats (history : list TestExecutionRecord) : GlobalStats.t :=
  let recentHistory := slice_last 100 history in
  let total := length recentHistory in
  let passed := length (List.filter (fun r => is_passed (status r)) recentHistory) in
  let failed :=
    length (List.filter (fun r => negb (is_passed (status r))) recentHistory) in
  let passRate :=
    if (0 <? total)%nat
    then Js.toFixed1
           (PrimFloat.mul (Js.div (Js.of_nat passed) (Js.of_nat total))
              (Js.double_of_Z 100))
    else "0" in
  let avgDuration :=
    toFixed0
      (Js.div (Js.Int (fold_left (fun a b => a + duration b) recentHistory 0))
         (Js.of_nat (if (total =? 0)%nat then 1%nat else total))) in
  let skipped := length (List.filter (fun r => is_skipped (status r)) recentHistory) in
  {| GlobalStats.total := total;
     GlobalStats.passed := passed;
     GlobalStats.failed := failed;
     GlobalStats.passRate := passRate;
     GlobalStats.avgDuration := avgDuration;
     GlobalStats.skipped := skipped |}.

(** ** [src/utils/CustomReporter.ts]: the run id (line 30) *)

Fixpoint map_string (f : ascii -> ascii) (s : string) : string :=
  match s with
  | EmptyString => EmptyString
  | String c s' => String (f c) (map_string f s')
  end.

(** [RUN-${iso.replace(/[:.]/g, '-').slice(0, 19)}], for the text [iso] that
    [toISOString] gave (ASCII, so that bytes and code units agree). *)
Definition make_runId (iso : string) : string :=
  "RUN-" +:+
  String.substring 0 19
    (map_string (fun c => if Ascii.eqb c ":" || Ascii.eqb c "." then "-"%char else c) iso).

(** ** [src/utils/CustomReporter.ts]: titles (lines 36-44, 81-83, 151-160)

    Strings are UTF-8 here.  The white space of ECMAScript ([\s], [trim],
    [parseInt]) is TAB, LF, VT, FF, CR, SP, U+00A0, U+1680, U+2000 to
    U+200A, U+2028, U+2029, U+202F, U+205F, U+3000 and U+FEFF: one, two or
    three bytes. *)

Definition code (c : ascii) : N := N_of_ascii c.

Definition space1 (c : ascii) : bool :=
  ((9 <=? code c) && (code c <=? 13) || (code c =? 32))%N.

Definition space2 (c1 c2 : ascii) : bool :=
  ((code c1 =? 194) && (code c2 =? 160))%N.

Definition space3 (c1 c2 c3 : ascii) : bool :=
  ((code c1 =? 225) && (code c2 =? 154) && (code c3 =? 128)
   || (code c1 =? 226) && (code c2 =? 128)
      && ((128 <=? code c3) && (code c3 <=? 138)
          || (code c3 =? 168) || (code c3 =? 169) || (code c3 =? 175))
   || (code c1 =? 226) && (code c2 =? 129) && (code c3 =? 159)
   || (code c1 =? 227) && (code c2 =? 128) && (code c3 =? 128)
   || (code c1 =? 239) && (code c2 =? 187) && (code c3 =? 191))%N.

(** [s.trimStart()] *)
Fixpoint trimStart (s : string) : string :=
  match s with
  | EmptyString => EmptyString
  | String c1 s1 =>
      if space1 c1 then trimStart s1
      else
        match s1 with
        | EmptyString => s
        | String c2 s2 =>
            if space2 c1 c2 then trimStart s2
            else
              match s2 with
              | EmptyString => s
              | String c3 s3 => if space3 c1 c2 c3 then trimStart s3 else s
              end
        end
  end.

(** [s.trimEnd()]: what is white space to the end is dropped. *)
Fixpoint trimEnd (s : string) : string :=
  match s with
  | EmptyString => EmptyString
  | String c s' =>
      if String.eqb (trimStart s) "" then EmptyString else String c (trimEnd s')
  end.

(** [s.trim()] *)
Definition trim (s : string) : string := trimEnd (trimStart s).

Definition is_digit (c : ascii) : bool := ((48 <=? code c) && (code c <=? 57))%N.

(** The longest prefix of decimal digits, and what follows it. *)
Fixpoint take_digits (s : string) : string * string :=
  match s with
  | EmptyString => (EmptyString, EmptyString)
  | String c s' =>
      if is_digit c
      then let '(ds, rest) := take_digits s' in (String c ds, rest)
      else (EmptyString, s)
  end.

(** The number a string of decimal digits denotes. *)
Fixpoint decimal (acc : Z) (ds : string) : Z :=
  match ds with
  | EmptyString => acc
  | String c ds' => decimal (10 * acc + (Z.of_N (code c) - 48)) ds'
  end.

(** [parseInt(s, 10)]; [None] is NaN.  (The number is compared with small
    integers only, for which the exact value and its double agree.) *)
Definition parseInt10 (s : string) : option Z :=
  let s := trimStart s in
  let '(negative, s) :=
    match s with
    | String "-" s' => (true, s')
    | String "+" s' => (false, s')
    | _ => (false, s)
    end in
  let '(ds, _) := take_digits s in
  if String.eqb ds "" then None
  else Some (if negative : bool then - decimal 0 ds else decimal 0 ds).

Fixpoint drop_string (n : nat) (s : string) : string :=
  match n, s with
  | O, _ => s
  | S n', String _ s' => drop_string n' s'
  | S _, EmptyString => EmptyString
  end.

(** [s.replace(needle, '')]: the first occurrence of [needle] goes. *)
Fixpoint remove_first (needle s : string) : string :=
  if Js.startsWith needle s then drop_string (String.length needle) s
  else
    match s with
    | EmptyString => EmptyString
    | String c s' => String c (remove_first needle s')
    end.

Inductive TestCategory : Type :=
| Filter_Tests | UI_State_Tests | Sorting_Tests | Data_Integrity_Tests | Other.

(** [getTestCategory] *)
Definition getTestCategory (testId : string) : TestCategory :=
  match parseInt10 (remove_first "TC" testId) with
  | None => Other
  | Some id =>
      if (1 <=? id) && (id <=? 4) then Filter_Tests
      else if (5 <=? id) && (id <=? 6) then UI_State_Tests
      else if (7 <=? id) && (id <=? 8) then Sorting_Tests
      else if (9 <=? id) && (id <=? 10) then Data_Integrity_Tests
      else Other
  end.

(** [.] of a regular expression matches all but LF, CR, U+2028, U+2029. *)
Definition has_line_terminator (s : string) : bool :=
  Js.includes (String (ascii_of_nat 10) "") s
  || Js.includes (String (ascii_of_nat 13) "") s
  || Js.includes
       (String (ascii_of_nat 226) (String (ascii_of_nat 128) (String (ascii_of_nat 168) ""))) s
  || Js.includes
       (String (ascii_of_nat 226) (String (ascii_of_nat 128) (String (ascii_of_nat 169) ""))) s.

(** The match of the title against the pattern of line 81: [TC], one or
    more digits (group 1 with [TC]), a colon, any white space, and the rest
    of the title (group 2).  The digits and the white space are taken
    greedily; the rest has to reach the end without a line terminator, and
    giving white space back cannot help it to. *)
Definition match_title (title : string) : option (string * string) :=
  if Js.startsWith "TC" title then
    let '(ds, rest) := take_digits (drop_string 2 title) in
    if String.eqb ds "" then None
    else
      match rest with
      | String ":" rest' =>
          let name := trimStart rest' in
          if has_line_terminator name then None else Some ("TC" +:+ ds, name)
      | _ => None
      end
  else None.

(** [testId], [testName] and [category] of [onTestEnd]. *)
Definition title_fields (title : string) : string * string * TestCategory :=
  let '(testId, testName) :=
    match match_title title with
    | Some (testId, testName) => (testId, testName)
    | None => ("TC-?", title)
    end in
  (testId, testName, getTestCategory testId).

(** [s.split(sep)] for a separator of one character. *)
Fixpoint split_on (sep : ascii) (s : string) : list string :=
  match s with
  | EmptyString => [EmptyString]
  | String c s' =>
      if Ascii.eqb c sep then EmptyString :: split_on sep s'
      else
        match split_on sep s' with
        | part :: parts => String c part :: parts
        | [] => [String c EmptyString]
        end
  end.

(** [parts.find((p) => p.startsWith(label))?.replace(label, '').trim()] *)
Definition labelled (label : string) (parts : list string) : option string :=
  option_map (fun p => trim (remove_first label p))
    (List.find (Js.startsWith label) parts).

(** [stepName], [expected] and [actual] of a step, from its title. *)
Definition step_fields (title : string) : string * option string * option string :=
  if Js.includes "|" title then
    let parts := split_on "|" title in
    let first := trim (hd EmptyString parts) in
    let stepName :=
      match labelled "Action:" parts with
      | Some name => if String.eqb name "" then first else name
      | None => first
      end in
    (stepName, labelled "Expected:" parts, labelled "Actual:" parts)
  else (title, None, None).

(** ** [src/utils/WaitHelpers.ts]: waitForCondition and withRetry

    A function passed in ([condition], [predicate], [action]) returns a
    value or throws; what it throws is an [Error], as the casts of the code
    say, of which the code reads the message only.  A promise resolves
    with a value or is rejected with [new Error(message)]. *)

Inductive outcome (A : Type) : Type :=
| Returned (value : A)
| Threw (message : string).
Arguments Returned {A} value.
Arguments Threw {A} message.

Inductive settled (A : Type) : Type :=
| Resolved (value : A)
| Rejected (message : string).
Arguments Resolved {A} value.
Arguments Rejected {A} message.

(** *** waitForCondition (lines 138-174)

    One turn of the loop: [condition()] settles after [took] milliseconds
    with [result], and [page.waitForTimeout(pollInterval)] resolves [late]
    milliseconds after the interval. *)
Module Attempt.
Record t (A : Type) : Type := {
  took : Z;
  result : outcome A;
  late : Z;
}.
Arguments took {A} _.
Arguments result {A} _.
Arguments late {A} _.
End Attempt.

(** The two messages of the rejection.  [stringify] is [JSON.stringify],
    where it returns a string. *)
Definition not_met {A : Type} (stringify : A -> string) (timeout : Z)
  (lastValue : option A) (lastError : option string) : string :=
  match lastError with
  | Some message =>
      "Condition not met within " +:+ pretty timeout +:+ "ms. Last error: " +:+ message
  | None =>
      "Condition not met within " +:+ pretty timeout +:+ "ms. Last value: " +:+
      match lastValue with
      | Some value => stringify value
      | None => "undefined"
      end
  end.

(** The [while] loop and what follows it.  [None]: the script of the
    attempts ends before the loop does. *)
Fixpoint condition_loop {A : Type} (predicate : A -> outcome bool)
  (stringify : A -> string) (timeout pollInterval startTime : Z)
  (now : Z) (lastValue : option A) (lastError : option string)
  (attempts : list (Attempt.t A)) : option (settled A) :=
  if now - startTime <? timeout then
    match attempts with
    | [] => None
    | a :: attempts =>
        let now := now + Attempt.took a in
        let next := now + pollInterval + Attempt.late a in
        match Attempt.result a with
        | Returned value =>
            match predicate value with
            | Returned true => Some (Resolved value)
            | Returned false =>
                condition_loop predicate stringify timeout pollInterval startTime
                  next (Some value) lastError attempts
            | Threw message =>
                condition_loop predicate stringify timeout pollInterval startTime
                  next (Some value) (Some message) attempts
            end
        | Threw message =>
            condition_loop predicate stringify timeout pollInterval startTime
              next lastValue (Some message) attempts
        end
    end
  else Some (Rejected (not_met stringify timeout lastValue lastError)).

(** [startTime] is [Date.now()] at the call. *)
Definition waitForCondition {A : Type} (startTime : Z)
  (condition : list (Attempt.t A)) (predicate : A -> outcome bool)
  (stringify : A -> string) (options : WaitOptions.t) : option (settled A) :=
  let timeout := default DEFAULT_WAIT_OPTIONS.timeout (WaitOptions.timeout options) in
  let pollInterval :=
    default DEFAULT_WAIT_OPTIONS.pollInterval (WaitOptions.pollInterval options) in
  condition_loop predicate stringify timeout pollInterval startTime
    startTime None None condition.

(** *** withRetry (lines 265-286)

    [action k] is what the call of the action does that [k] calls
    precede.  A run: how the promise settles, the calls made, and the
    delays slept, in order. *)
Module Retry.
Record t (A : Type) : Type := {
  result : settled A;
  calls : nat;
  sleeps : list Z;
}.
Arguments result {A} _.
Arguments calls {A} _.
Arguments sleeps {A} _.
End Retry.

(** The [for] loop and what follows it.  [None]: out of fuel. *)
Fixpoint retry_loop {A : Type} (action : nat -> outcome A) (maxRetries delay : Z)
  (fuel : nat) (attempt : Z) (lastError : option string)
  (calls : nat) (sleeps : list Z) : option (Retry.t A) :=
  if attempt <=? maxRetries then
    match fuel with
    | O => None
    | S fuel =>
        match action calls with
        | Returned value =>
            Some {| Retry.result := Resolved value;
                    Retry.calls := S calls;
                    Retry.sleeps := sleeps |}
        | Threw message =>
            let sleeps := if attempt <? maxRetries then sleeps ++ [delay] else sleeps in
            retry_loop action maxRetries delay fuel (attempt + 1) (Some message)
              (S calls) sleeps
        end
    end
  else
    Some {| Retry.result :=
              Rejected ("Action failed after " +:+ pretty maxRetries +:+
                        " attempts. Last error: " +:+ default "undefined" lastError);
            Retry.calls := calls;
            Retry.sleeps := sleeps |}.

Definition withRetry {A : Type} (action : nat -> outcome A)
  (maxRetries delay : option Z) : option (Retry.t A) :=
  let maxRetries := default 3 maxRetries in
  let delay := default 1000 delay in
  retry_loop action maxRetries delay (Z.to_nat maxRetries) 1 None 0%nat [].

(** ** [scripts/generate-report.ts]: the runs in display order (line 294)

    [Object.values(runs)] lists the values of the own properties of [runs]
    in the order of their keys: first the keys that are array indices, in
    ascending order, then the other keys in the order in which the
    properties were created. *)














(** ** [scripts/generate-report.ts]: the data of the run time chart
    (lines 881-891) *)

Module RunTime.
Record t : Type := {
  label : string;
  runId : string;
  runTime : string;
  mode : RunGroup.mode;
  passed : nat;
  failed : nat;
  total : nat;
}.
End RunTime.



(** * The vocabulary of the properties *)

(** [needle] occurs in [hay]. *)
Definition occurs_in (needle hay : string) : Prop :=
  exists pre post, hay = pre +:+ needle +:+ post.

(** The tags that count as parallel. *)
Definition parallel_tag (tag : string) : Prop :=
  occurs_in "parallel" tag \/ tag = "test" \/ tag = "npx".

(** The records with a given status, and the sum of the durations. *)
Definition count_passed (l : list TestExecutionRecord) : nat :=
  length (List.filter (fun r => is_passed (status r)) l).

Definition count_skipped (l : list TestExecutionRecord) : nat :=
  length (List.filter (fun r => is_skipped (status r)) l).

Definition count_not_passed (l : list TestExecutionRecord) : nat :=
  length (List.filter (fun r => negb (is_passed (status r))) l).

Definition count_other (l : list TestExecutionRecord) : nat :=
  length (List.filter
            (fun r => negb (is_passed (status r)) && negb (is_skipped (status r))) l).

Definition sum_durations (l : list TestExecutionRecord) : Z :=
  fold_right Z.add 0 (map duration l).

(** The records [calculateBrowserStats] counts under browser [b]. *)
Definition counted_as (b : BrowserType) (r : TestExecutionRecord) : bool :=
  bool_decide (browser_or_chromium (browser r) = b).

Definition records_of (b : BrowserType) (records : list TestExecutionRecord)
  : list TestExecutionRecord :=
  List.filter (counted_as b) records.

(** The record whose [browser] is what [record.browser || 'chromium'] reads. *)
Definition with_browser_read (r : TestExecutionRecord) : TestExecutionRecord :=
  {| testId := testId r; runId := runId r; testName := testName r;
     status := status r; duration := duration r; timestamp := timestamp r;
     executionMode := executionMode r;
     browser := browser_is (browser_or_chromium (browser r)) |}.

(** The records of the history that the reducer files under key [k]. *)
Definition keyed (k : string) (history : list TestExecutionRecord)
  : list TestExecutionRecord :=
  List.filter (fun r => String.eqb (run_key r) k) history.

(** What the reducer has stored under [k] after [history]. *)
Definition group_of (history : list TestExecutionRecord) (k : string)
  (g : RunGroup.t) : Prop :=
  RunGroup.id g = k /\
  RunGroup.results g = keyed k history /\
  RunGroup.results g <> [] /\
  RunGroup.passed g = count_passed (RunGroup.results g) /\
  RunGroup.failed g = count_not_passed (RunGroup.results g) /\
  RunGroup.duration g = sum_durations (RunGroup.results g).

(** No record of the history is filed under a name that object literals
    inherit. *)
Definition plain_keys (history : list TestExecutionRecord) : Prop :=
  forall r, In r history -> Js.inherited (run_key r) = false.

(** The least and the greatest element of a list of integers. *)
Definition is_least (x : Z) (l : list Z) : Prop :=
  In x l /\ forall y, In y l -> x <= y.

Definition is_greatest (x : Z) (l : list Z) : Prop :=
  In x l /\ forall y, In y l -> y <= x.

(** The time value of a record whose time stamp parses. *)
Definition time_of `{Host} (r : TestExecutionRecord) : Z :=
  default 0 (Date_getTime (timestamp r)).

(** The number of binary digits of a positive number. *)
Definition binary_digits (p : positive) : Z := Z.pos (Pos.size p).

(** The mantissa and the exponent of the double that a positive whole
    number below 2^53 is, and the double of a whole number. *)
Definition mant (c : positive) : positive := Z.to_pos (Z.pos c * 2 ^ (53 - binary_digits c)).
Definition expo (c : positive) : Z := binary_digits c - 53.

Definition canon (z : Z) : SpecFloat.spec_float :=
  match z with
  | Z0 => SpecFloat.S754_zero false
  | Z.pos c => SpecFloat.S754_finite false (mant c) (expo c)
  | Z.neg c => SpecFloat.S754_finite true (mant c) (expo c)
  end.

(** Below 2^53 in magnitude. *)
Definition small (z : Z) : Prop := Z.abs z < 2 ^ 53.

(** The arithmetic of the wall-clock time is exact on these results: every
    time stamp parses, and the time values, the durations, the end times
    and the differences of an end time and a time value are below 2^53. *)
Definition exact_times `{Host} (results : list TestExecutionRecord) : Prop :=
  (forall r, In r results ->
     is_Some (Date_getTime (timestamp r)) /\
     small (time_of r) /\ small (duration r) /\ small (time_of r + duration r)) /\
  (forall r r', In r results -> In r' results ->
     small (time_of r + duration r - time_of r')).

(** All the records of a run, and of a list of runs. *)
Definition all_results (runList : list RunGroup.t) : list TestExecutionRecord :=
  concat (map RunGroup.results runList).

(** The metrics of an empty partition. *)
Definition zero_metrics (mode : string) : ExecutionModeMetrics.t :=
  {| ExecutionModeMetrics.mode := mode;
     ExecutionModeMetrics.totalRuns := 0;
     ExecutionModeMetrics.totalTests := 0;
     ExecutionModeMetrics.avgDuration := Js.Int 0;
     ExecutionModeMetrics.avgRunTime := Js.Int 0;
     ExecutionModeMetrics.passRate := Js.Int 0;
     ExecutionModeMetrics.passed := 0;
     ExecutionModeMetrics.failed := 0;
     ExecutionModeMetrics.skipped := 0 |}.

(** The world after one more line on the console. *)
Definition printed (w : Io.world) (lines : list (Io.level * string)) : Io.world :=
  {| Io.disk := Io.disk w; Io.locked := Io.locked w;
     Io.console := Io.console w ++ lines |}.

(** The history file is missing, or is there and is not JSON. *)
Definition no_usable_history `{Host} (w : Io.world) : Prop :=
  Io.disk w !! HISTORY_FILE = None \/
  exists rawData,
    Io.disk w !! HISTORY_FILE = Some (Io.File rawData) /\ JSON_parse rawData = None.

(** The file is there, and reading it throws or its content is not JSON. *)
Definition unreadable_history `{Host} (historyFile : string) (w : Io.world) : Prop :=
  Io.disk w !! historyFile = Some Io.Unreadable \/
  exists data,
    Io.disk w !! historyFile = Some (Io.File data) /\ JSON_parse data = None.

(** The options in force. *)
Definition timeout_of (options : WaitOptions.t) : Z :=
  default DEFAULT_WAIT_OPTIONS.timeout (WaitOptions.timeout options).

Definition threshold_of (options : WaitOptions.t) : Z :=
  default DEFAULT_WAIT_OPTIONS.stabilityThreshold (WaitOptions.stabilityThreshold options).

Definition interval_of (options : WaitOptions.t) : Z :=
  default DEFAULT_WAIT_OPTIONS.pollInterval (WaitOptions.pollInterval options).

(** The counts observed by the polls [polls] made from time [now] on, each
    with the time at which it was observed, oldest first. *)
Fixpoint observe (pollInterval now : Z) (polls : list Poll.t) : list (Z * Z) :=
  match polls with
  | [] => []
  | p :: polls =>
      let now := now + pollInterval + Poll.extra p in
      (now, Poll.count p) :: observe pollInterval now polls
  end.

(** All the observations of a call that made the polls [used]: the count
    taken before the loop, then those of the polls. *)
Definition observations (pollInterval : Z) (page : Page.t) (used : list Poll.t)
  : list (Z * Z) :=
  let t0 := Page.now page + Poll.extra (Page.first page) in
  (t0, Poll.count (Page.first page)) :: observe pollInterval t0 used.

(** The observations end with a quiet period of at least [threshold]
    milliseconds at count [n]: two observations of [n] that far apart, the
    second being the last, with only [n] observed in between. *)
Definition ends_quiet (threshold n : Z) (obs : list (Z * Z)) : Prop :=
  exists older t_j between t_k,
    obs = older ++ (t_j, n) :: between ++ [(t_k, n)] /\
    (forall o, In o between -> snd o = n) /\
    threshold <= t_k - t_j.

(** The page answers for long enough: its last answer comes when the time
    since the call has reached [timeout]. *)
Definition answers_until (timeout pollInterval : Z) (page : Page.t) : Prop :=
  timeout
    <= fst (List.last (observations pollInterval page (Page.polls page)) (0, 0))
       - Page.now page.

(** No poll goes back in time. *)
Definition clock_monotone (pollInterval : Z) (polls : list Poll.t) : Prop :=
  forall p, In p polls -> 0 <= pollInterval + Poll.extra p.

(** What the loop keeps of the observations made so far,
    [older ++ (stableStart, lastCount) :: between]: the count has been
    [lastCount] since [stableStart], and was another one before. *)
Definition tracked (older : list (Z * Z)) (stableStart lastCount : Z)
  (between : list (Z * Z)) (now : Z) : Prop :=
  (forall o, In o between -> snd o = lastCount /\ stableStart <= fst o) /\
  (forall older' o', older = older' ++ [o'] -> snd o' <> lastCount) /\
  stableStart <= now.







(** ** More vocabulary: classification, titles, the store, waiting *)

(** The run is classified as [mode]. *)
Definition classified (mode : RunGroup.mode) (run : RunGroup.t) : bool :=
  match RunGroup.executionMode run, mode with
  | RunGroup.parallel, RunGroup.parallel
  | RunGroup.sequential, RunGroup.sequential
  | RunGroup.unknown, RunGroup.unknown => true
  | _, _ => false
  end.

(** The mode stored is the one the tag read from the first result gives. *)
Definition mode_follows_tag (run : RunGroup.t) : Prop :=
  let mode := first_mode run in
  RunGroup.executionMode run =
    if Js.includes "parallel" mode || String.eqb mode "test" || String.eqb mode "npx"
    then RunGroup.parallel
    else if Js.includes "sequential" mode then RunGroup.sequential
    else RunGroup.parallel.

(** The UTF-8 text of the given bytes. *)
Definition utf8 (bytes : list Z) : string :=
  string_of_list_ascii (map (fun b => ascii_of_N (Z.to_N b)) bytes).

(** The white space of ECMAScript: TAB, LF, VT, FF, CR, SP, U+00A0, U+1680,
    U+2000 to U+200A, U+2028, U+2029, U+202F, U+205F, U+3000, U+FEFF. *)
Definition white_space : list string :=
  map utf8
    [ [9]; [10]; [11]; [12]; [13]; [32]; [194; 160]; [225; 154; 128];
      [226; 128; 128]; [226; 128; 129]; [226; 128; 130]; [226; 128; 131];
      [226; 128; 132]; [226; 128; 133]; [226; 128; 134]; [226; 128; 135];
      [226; 128; 136]; [226; 128; 137]; [226; 128; 138];
      [226; 128; 168]; [226; 128; 169]; [226; 128; 175]; [226; 129; 159];
      [227; 128; 128]; [239; 187; 191] ].

(** A string of white space only. *)
Inductive blank : string -> Prop :=
| blank_empty : blank ""
| blank_more w s : In w white_space -> blank s -> blank (w +:+ s).

(** The text does not begin with white space. *)
Definition starts_black (s : string) : Prop :=
  forall w, In w white_space -> Js.startsWith w s = false.

(** The line terminators: LF, CR, U+2028, U+2029. *)
Definition line_terminators : list string :=
  map utf8 [ [10]; [13]; [226; 128; 168]; [226; 128; 169] ].

Definition one_line (s : string) : Prop :=
  forall t, In t line_terminators -> ~ occurs_in t s.

(** A string of decimal digits. *)
Fixpoint all_digits (ds : string) : bool :=
  match ds with
  | EmptyString => true
  | String c ds' =>
      existsb (Ascii.eqb c) ["0"; "1"; "2"; "3"; "4"; "5"; "6"; "7"; "8"; "9"]%char
      && all_digits ds'
  end.

(** The category of a test number (lines 39-43). *)
Definition category_of_number (n : Z) : TestCategory :=
  if decide (1 <= n <= 4) then Filter_Tests
  else if decide (5 <= n <= 6) then UI_State_Tests
  else if decide (7 <= n <= 8) then Sorting_Tests
  else if decide (9 <= n <= 10) then Data_Integrity_Tests
  else Other.

(** The text has no vertical bar. *)
Definition bar_free (s : string) : Prop := ~ occurs_in "|" s.

(** Where [trimStart] stops. *)
Definition stopped (s : string) : Prop :=
  match s with
  | String c1 s1 =>
      space1 c1 = false /\
      match s1 with
      | String c2 s2 =>
          space2 c1 c2 = false /\
          match s2 with
          | String c3 s3 => space3 c1 c2 c3 = false
          | EmptyString => True
          end
      | EmptyString => True
      end
  | EmptyString => True
  end.

(** The history that [appendToHistory] finds: none where there is no
    file, else what the file parses to. *)
Definition stored_history `{Host} (historyFile : string) (w : Io.world)
  (old : list TestExecutionRecord) : Prop :=
  (Io.disk w !! historyFile = None /\ old = []) \/
  exists data,
    Io.disk w !! historyFile = Some (Io.File data) /\
    JSON_parse data = Some (History old).

(** The world once [data] is written to [path]. *)
Definition written (path data : string) (w : Io.world) : Io.world :=
  {| Io.disk := <[path := Io.File data]> (Io.disk w);
     Io.locked := Io.locked w;
     Io.console := Io.console w |}.

(** [JSON.parse] gives back what [JSON.stringify] was given. *)
Definition reads_back `{Host} (history : list TestExecutionRecord) : Prop :=
  JSON_parse (JSON_stringify history) = Some (History history).

(** The reporter called at the end of each test of [records] in turn. *)
Fixpoint append_each `{Host} (historyFile : string)
  (records : list TestExecutionRecord) : Io.M unit :=
  match records with
  | [] => Io.ret tt
  | record :: records =>
      appendToHistory historyFile record ;; append_each historyFile records
  end.

(** What [generateReport] hands to the template. *)
Definition dashboard_of (history : list TestExecutionRecord)
  (runs : gmap string RunGroup.t) : Dashboard.t :=
  let recentHistory := slice_last 100 history in
  let executionMetrics := calculateExecutionModeMetrics runs in
  {| Dashboard.history := history;
     Dashboard.runs := runs;
     Dashboard.recentHistory := recentHistory;
     Dashboard.browserStats := calculateBrowserStats recentHistory;
     Dashboard.executionMetrics := executionMetrics;
     Dashboard.performanceGain := speedup_cell executionMetrics |}.

(** The attempt gives [value], and the predicate accepts it. *)
Definition accepted {A : Type} (predicate : A -> outcome bool)
  (a : Attempt.t A) (value : A) : Prop :=
  Attempt.result a = Returned value /\ predicate value = Returned true.

Definition refused {A : Type} (predicate : A -> outcome bool)
  (a : Attempt.t A) : Prop :=
  forall value, ~ accepted predicate a value.

(** The clock after the turns [used] of the loop, entered at [now]. *)
Definition clock_after {A : Type} (pollInterval now : Z)
  (used : list (Attempt.t A)) : Z :=
  fold_left (fun t a => t + Attempt.took a + pollInterval + Attempt.late a) used now.

(** The last value that [condition] returned in the turns [used], if any,
    else [earlier]. *)
Definition last_value {A : Type} (earlier : option A)
  (used : list (Attempt.t A)) : option A :=
  fold_left
    (fun last a =>
       match Attempt.result a with
       | Returned value => Some value
       | Threw _ => last
       end)
    used earlier.

(** The message that [condition] or [predicate] threw in a turn. *)
Definition thrown {A : Type} (predicate : A -> outcome bool)
  (a : Attempt.t A) : option string :=
  match Attempt.result a with
  | Threw message => Some message
  | Returned value =>
      match predicate value with
      | Threw message => Some message
      | Returned _ => None
      end
  end.

(** The last message thrown in the turns [used], if any, else [earlier]. *)
Definition last_error {A : Type} (predicate : A -> outcome bool)
  (earlier : option string) (used : list (Attempt.t A)) : option string :=
  fold_left
    (fun last a =>
       match thrown predicate a with
       | Some message => Some message
       | None => last
       end)
    used earlier.

(** The loop condition holds when each turn of [used] begins. *)
Definition in_time {A : Type} (timeout pollInterval startTime now : Z)
  (used : list (Attempt.t A)) : Prop :=
  forall before after,
    used = before ++ after -> after <> [] ->
    clock_after pollInterval now before - startTime < timeout.

(** The first [n] calls of the action all throw. *)
Definition all_throw {A : Type} (action : nat -> outcome A) (n : nat) : Prop :=
  forall k, (k < n)%nat -> exists message, action k = Threw message.

(** The message of the last of [n] throwing calls, as the rejection prints
    it. *)
Definition last_message {A : Type} (action : nat -> outcome A) (n : nat) : string :=
  match n with
  | O => "undefined"
  | S k => match action k with Threw message => message | Returned _ => "undefined" end
  end.

(** ** A reporter session for the examples: two tests of reporters
    constructed in the same second, and a host that reads back the
    histories they make. *)
Module Session.

Definition first_test : TestExecutionRecord :=
  Sample.record "TC1" (Some (make_runId "2024-01-19T08:22:46.123Z")) passed 1200
    "2024-01-19T08:22:47.000Z" (Some "test") (browser_is chromium).

Definition second_test : TestExecutionRecord :=
  Sample.record "TC2" (Some (make_runId "2024-01-19T08:22:46.980Z")) failed 800
    "2024-01-19T08:22:48.000Z" (Some "test") (browser_is firefox).

Definition JSON_parse (s : string) : option json :=
  if String.eqb s (Sample.JSON_stringify [first_test]) then Some (History [first_test])
  else if String.eqb s (Sample.JSON_stringify [first_test; second_test])
  then Some (History [first_test; second_test])
  else Sample.JSON_parse s.

Definition host : Host :=
  Build_Host Sample.Date_getTime JSON_parse Sample.JSON_stringify Sample.render.

Definition fresh : Io.world :=
  {| Io.disk := ∅; Io.locked := ∅; Io.console := [] |}.

(** A condition that throws, then returns 3, then 7, each call taking 10
    ms; a predicate that wants more than 5; 100 ms to get there. *)
Definition flaky : list (Attempt.t Z) :=
  [ {| Attempt.took := 10; Attempt.result := Threw "boom"; Attempt.late := 0 |};
    {| Attempt.took := 10; Attempt.result := Returned 3; Attempt.late := 0 |} ].

Definition good : Attempt.t Z :=
  {| Attempt.took := 10; Attempt.result := Returned 7; Attempt.late := 0 |}.

Definition more_than_5 (n : Z) : outcome bool := Returned (5 <? n).

Definition hasty : WaitOptions.t :=
  {| WaitOptions.timeout := Some 100;
     WaitOptions.stabilityThreshold := None;
     WaitOptions.pollInterval := Some 50 |}.

End Session.




(** * Properties *)

(** Split a conjunction into its parts. *)
Ltac conjuncts := repeat match goal with |- _ /\ _ => split end.

(** ** Strings *)

Section Strings.

Lemma startsWith_spec needle hay :
  Js.startsWith needle hay = true <-> exists post, hay = needle +:+ post.
Proof.
  revert hay; induction needle as [|a n IH]; intros hay; simpl.
  - split; [intros _; exists hay; reflexivity | reflexivity].
  - destruct hay as [|b h].
    + split; [discriminate | intros [post E]; discriminate].
    + rewrite andb_true_iff, Ascii.eqb_eq, IH. split.
      * intros [-> [post ->]]. exists post. reflexivity.
      * intros [post E]. injection E as -> ->. split; [reflexivity | eauto].
Qed.

Lemma includes_spec needle hay :
  Js.includes needle hay = true <-> occurs_in needle hay.
Proof.
  unfold occurs_in. induction hay as [|b h IH].
  - simpl. rewrite orb_false_r, startsWith_spec. split.
    + intros [post E]. exists "", post. exact E.
    + intros [pre [post E]]. destruct pre; [exists post; exact E | discriminate].
  - cbn [Js.includes]. rewrite orb_true_iff, startsWith_spec, IH. split.
    + intros [[post E] | [pre [post E]]].
      * exists "", post. exact E.
      * exists (String b pre), post. simpl. rewrite E. reflexivity.
    + intros [pre [post E]]. destruct pre as [|c pre].
      * left. exists post. exact E.
      * right. simpl in E. injection E as -> E. eauto.
Qed.

Lemma includes_false needle hay :
  Js.includes needle hay = false <-> ~ occurs_in needle hay.
Proof.
  rewrite <- includes_spec. destruct (Js.includes needle hay); split; intros; congruence.
Qed.

End Strings.

(** ** Execution-mode classification *)

Section Classification.

Context `{Host}.

Lemma parallel_test tag :
  Js.includes "parallel" tag || String.eqb tag "test" || String.eqb tag "npx" = true
  <-> parallel_tag tag.
Proof.
  unfold parallel_tag.
  rewrite !orb_true_iff, includes_spec, !String.eqb_eq. tauto.
Qed.

Lemma finish_run_results (run : RunGroup.t) :
  RunGroup.results (finish_run run) = RunGroup.results run.
Proof. unfold finish_run. destruct (_ <? _)%nat; reflexivity. Qed.

Lemma first_mode_finish_run (run : RunGroup.t) :
  first_mode (finish_run run) = first_mode run.
Proof. unfold first_mode. rewrite finish_run_results. reflexivity. Qed.

(** The mode [finish_run] stores, as a function of the tag read. *)
Lemma finish_run_mode (run : RunGroup.t) r rest :
  RunGroup.results run = r :: rest ->
  RunGroup.executionMode (finish_run run) =
    let mode := Js.or_default (executionMode r) "unknown" in
    if Js.includes "parallel" mode || String.eqb mode "test" || String.eqb mode "npx"
    then RunGroup.parallel
    else if Js.includes "sequential" mode then RunGroup.sequential
    else RunGroup.parallel.
Proof.
  intros E. unfold finish_run, first_mode. rewrite E. reflexivity.
Qed.

(** C4.  The execution mode of a group is a function of the
    [executionMode] tag of its first record.  The tags "parallel-tests",
    "npx", "test", "" and "unknown" give parallel and "sequential-run"
    gives sequential; in general, with the tag read as "unknown" when it is
    missing or empty, a tag in which "parallel" occurs or that is "test"
    or "npx" gives parallel, any other tag in which "sequential" occurs
    gives sequential, and every remaining tag gives parallel.  The
    partition made by [calculateExecutionModeMetrics] puts the group on
    the list of the same mode. *)
Theorem execution_mode_classification (run : RunGroup.t) r rest :
  RunGroup.results run = r :: rest ->
  let tag := Js.or_default (executionMode r) "unknown" in
  let mode := RunGroup.executionMode (finish_run run) in
  (In (executionMode r)
      [Some "parallel-tests"; Some "npx"; Some "test"; Some ""; Some "unknown"] ->
   mode = RunGroup.parallel) /\
  (executionMode r = Some "sequential-run" -> mode = RunGroup.sequential) /\
  (parallel_tag tag -> mode = RunGroup.parallel) /\
  (~ parallel_tag tag -> occurs_in "sequential" tag -> mode = RunGroup.sequential) /\
  (~ parallel_tag tag -> ~ occurs_in "sequential" tag -> mode = RunGroup.parallel) /\
  (forall (run' : RunGroup.t) r' rest',
      RunGroup.results run' = r' :: rest' ->
      executionMode r' = executionMode r ->
      RunGroup.executionMode (finish_run run') = mode) /\
  (forall ps ss,
      partition_step (ps, ss) (finish_run run) =
        match mode with
        | RunGroup.sequential => (ps, ss ++ [finish_run run])
        | _ => (ps ++ [finish_run run], ss)
        end).
Proof.
  intros E tag mode.
  assert (Hmode : mode =
    if Js.includes "parallel" tag || String.eqb tag "test" || String.eqb tag "npx"
    then RunGroup.parallel
    else if Js.includes "sequential" tag then RunGroup.sequential
    else RunGroup.parallel)
    by (subst mode tag; apply finish_run_mode with (rest := rest); exact E).
  repeat split.
  - intros Hin. rewrite Hmode. subst tag.
    simpl in Hin.
    destruct Hin as [<-|[<-|[<-|[<-|[<-|[]]]]]]; reflexivity.
  - intros Er. rewrite Hmode. subst tag. rewrite Er. reflexivity.
  - intros Hp. rewrite Hmode. apply parallel_test in Hp. rewrite Hp. reflexivity.
  - intros Hp Hs. rewrite Hmode.
    destruct (Js.includes "parallel" tag || _ || _) eqn:Ep.
    + apply parallel_test in Ep. contradiction.
    + apply includes_spec in Hs. rewrite Hs. reflexivity.
  - intros Hp Hs. rewrite Hmode.
    destruct (Js.includes "parallel" tag || _ || _) eqn:Ep; [reflexivity|].
    apply includes_false in Hs. rewrite Hs. reflexivity.
  - intros run' r' rest' E' Er. subst mode.
    rewrite (finish_run_mode run' r' rest' E'), (finish_run_mode run r rest E), Er.
    reflexivity.
  - intros ps ss. unfold partition_step.
    rewrite first_mode_finish_run. unfold first_mode. rewrite E. fold tag.
    rewrite Hmode.
    destruct (Js.includes "parallel" tag || _ || _); [reflexivity|].
    destruct (Js.includes "sequential" tag); reflexivity.
Qed.

End Classification.

(** The classification at a group whose first record is tagged
    "sequential-run". *)
Lemma execution_mode_classification_witness :
  let r := Sample.record "TC1" (Some "RUN-1") passed 100 "1970-01-01T00:00:00.000Z"
             (Some "sequential-run") (browser_is chromium) in
  let run := accumulate (new_group "RUN-1" r) r in
  RunGroup.executionMode (finish_run run) = RunGroup.sequential.
Proof.
  intros r run.
  destruct (execution_mode_classification run r [] eq_refl) as (_ & Hseq & _).
  exact (Hseq eq_refl).
Defined.

(** ** Counting records *)

Section Counting.

Lemma count_passed_snoc l r :
  count_passed (l ++ [r]) =
    if is_passed (status r) then S (count_passed l) else count_passed l.
Proof.
  unfold count_passed. rewrite List.filter_app, length_app. simpl.
  destruct (is_passed (status r)); simpl; lia.
Qed.

Lemma count_not_passed_snoc l r :
  count_not_passed (l ++ [r]) =
    if is_passed (status r) then count_not_passed l else S (count_not_passed l).
Proof.
  unfold count_not_passed. rewrite List.filter_app, length_app. simpl.
  destruct (is_passed (status r)); simpl; lia.
Qed.

Lemma sum_durations_snoc l r :
  sum_durations (l ++ [r]) = sum_durations l + duration r.
Proof.
  unfold sum_durations. induction l as [|x l IH]; simpl; [lia|].
  rewrite IH. lia.
Qed.

Lemma count_split l : (count_passed l + count_not_passed l = length l)%nat.
Proof.
  unfold count_passed, count_not_passed.
  induction l as [|r l IH]; simpl; [reflexivity|].
  destruct (is_passed (status r)); simpl; lia.
Qed.

Lemma count_split3 l :
  (count_passed l + count_other l + count_skipped l = length l)%nat.
Proof.
  unfold count_passed, count_other, count_skipped.
  induction l as [|r l IH]; simpl; [reflexivity|].
  unfold is_passed, is_skipped in *.
  destruct (status r); simpl; lia.
Qed.

End Counting.

(** ** Browser statistics *)

Section BrowserStatistics.

(** The bucket of [b] after the loop, from the bucket before it. *)
Lemma tally_fold records : forall stats b,
  let s := fold_left tally records stats b in
  let mine := records_of b records in
  Bucket.count s = (Bucket.count (stats b) + length mine)%nat /\
  Bucket.totalDuration s = Bucket.totalDuration (stats b) + sum_durations mine /\
  Bucket.passed s = (Bucket.passed (stats b) + count_passed mine)%nat /\
  Bucket.failed s = (Bucket.failed (stats b) + count_not_passed mine)%nat.
Proof.
  induction records as [|r records IH]; intros stats b; simpl.
  - unfold sum_durations, count_passed, count_not_passed. simpl.
    conjuncts; lia.
  - specialize (IH (tally stats r) b). simpl in IH.
    destruct IH as (Hc & Hd & Hp & Hf).
    rewrite Hc, Hd, Hp, Hf. clear Hc Hd Hp Hf.
    unfold records_of. simpl.
    destruct (counted_as b r) eqn:Eb; unfold counted_as in Eb.
    + apply bool_decide_eq_true in Eb. unfold tally.
      rewrite Eb, fn_lookup_insert. simpl.
      unfold sum_durations, count_passed, count_not_passed. simpl.
      destruct (is_passed (status r)); simpl; conjuncts; lia.
    + apply bool_decide_eq_false in Eb. unfold tally.
      rewrite fn_lookup_insert_ne by exact Eb.
      conjuncts; reflexivity.
Qed.

Lemma tally_all records b :
  let s := fold_left tally records (fun _ => Bucket.zero) b in
  let mine := records_of b records in
  Bucket.count s = length mine /\
  Bucket.totalDuration s = sum_durations mine /\
  Bucket.passed s = count_passed mine /\
  Bucket.failed s = count_not_passed mine.
Proof.
  destruct (tally_fold records (fun _ => Bucket.zero) b) as (Hc & Hd & Hp & Hf).
  simpl in *. conjuncts; lia.
Qed.

(** The entries are those of the browsers with a record, in the order of
    the [stats] literal. *)
Lemma calculateBrowserStats_entries records (e : BrowserStats.t) :
  In e (calculateBrowserStats records) <->
  exists b,
    (0 < length (records_of b records))%nat /\
    e = browser_entry (b, fold_left tally records (fun _ => Bucket.zero) b).
Proof.
  unfold calculateBrowserStats, Object_entries.
  set (stats := fold_left tally records (fun _ => Bucket.zero)).
  rewrite in_map_iff. split.
  - intros [[b s] [<- Hin]]. apply List.filter_In in Hin as [Hin Hpos].
    simpl in Hpos. apply Nat.ltb_lt in Hpos.
    assert (s = stats b) as ->
      by (simpl in Hin; destruct Hin as [E|[E|[E|[]]]]; inversion E; reflexivity).
    exists b. split; [|reflexivity].
    destruct (tally_all records b) as (Hc & _). fold stats in Hc. simpl in Hc. lia.
  - intros [b [Hpos ->]]. exists (b, stats b). split; [reflexivity|].
    apply List.filter_In. split.
    + simpl. destruct b; auto.
    + simpl. apply Nat.ltb_lt.
      destruct (tally_all records b) as (Hc & _). fold stats in Hc. simpl in Hc. lia.
Qed.

End BrowserStatistics.

Section BrowserStatisticsClaims.

Lemma browser_entry_fields records b :
  let e := browser_entry (b, fold_left tally records (fun _ => Bucket.zero) b) in
  let mine := records_of b records in
  BrowserStats.browser e = b /\
  BrowserStats.total e = length mine /\
  BrowserStats.passed e = count_passed mine /\
  BrowserStats.failed e = count_not_passed mine /\
  BrowserStats.avgDuration e =
    Js.Math_round (Js.div (Js.Int (sum_durations mine)) (Js.of_nat (length mine))) /\
  ((0 < length mine)%nat ->
   BrowserStats.stability e =
     Js.Math_round
       (PrimFloat.mul (Js.div (Js.of_nat (count_passed mine)) (Js.of_nat (length mine)))
          (Js.double_of_Z 100))).
Proof.
  destruct (tally_all records b) as (Hc & Hd & Hp & Hf). simpl in *.
  rewrite Hc, Hd, Hp, Hf. conjuncts; try reflexivity.
  intros Hpos. apply Nat.ltb_lt in Hpos. rewrite Hpos. reflexivity.
Qed.

(** Every browser with a record in the window has its entry. *)
Lemma browser_with_records_is_listed records b :
  (0 < length (records_of b records))%nat ->
  exists e, In e (calculateBrowserStats records) /\ BrowserStats.browser e = b.
Proof.
  intros Hpos.
  exists (browser_entry (b, fold_left tally records (fun _ => Bucket.zero) b)).
  split.
  - apply calculateBrowserStats_entries. exists b. split; [exact Hpos | reflexivity].
  - apply browser_entry_fields.
Qed.

(** C6.  Every entry that [calculateBrowserStats] emits belongs to a browser
    with at least one record in the window; its [total] is the number of
    these records, its [passed] and [failed] are the numbers of them that
    passed and that did not, [stability] is [Math.round((passed / total) *
    100)] and [avgDuration] is [Math.round(sum of their durations / total)],
    both computed in double precision.  With 8 records passed and 2 not,
    [stability] is 80 and [avgDuration] is [Math.round(sum / 10)]. *)
Theorem browser_stats_entry records (e : BrowserStats.t) :
  In e (calculateBrowserStats records) ->
  let mine := records_of (BrowserStats.browser e) records in
  (0 < length mine)%nat /\
  BrowserStats.total e = length mine /\
  BrowserStats.passed e = count_passed mine /\
  BrowserStats.failed e = count_not_passed mine /\
  BrowserStats.stability e =
    Js.Math_round
      (PrimFloat.mul (Js.div (Js.of_nat (count_passed mine)) (Js.of_nat (length mine)))
         (Js.double_of_Z 100)) /\
  BrowserStats.avgDuration e =
    Js.Math_round (Js.div (Js.Int (sum_durations mine)) (Js.of_nat (length mine))) /\
  (count_passed mine = 8%nat -> count_not_passed mine = 2%nat ->
   BrowserStats.stability e = Js.Int 80 /\
   BrowserStats.avgDuration e =
     Js.Math_round (Js.div (Js.Int (sum_durations mine)) (Js.Int 10))).
Proof.
  intros Hin. apply calculateBrowserStats_entries in Hin as [b [Hpos ->]].
  destruct (browser_entry_fields records b) as (Hb & Ht & Hp & Hf & Ha & Hs).
  cbv zeta in *. rewrite Hb.
  specialize (Hs Hpos).
  conjuncts; try assumption.
  intros H8 H2.
  assert (Hlen : length (records_of b records) = 10%nat)
    by (pose proof (count_split (records_of b records)); lia).
  rewrite Hs, Ha, H8, Hlen. split; [vm_compute|]; reflexivity.
Qed.

Lemma tally_with_browser_read stats r :
  tally stats (with_browser_read r) = tally stats r.
Proof. reflexivity. Qed.

Lemma calculateBrowserStats_with_browser_read records :
  calculateBrowserStats (map with_browser_read records) = calculateBrowserStats records.
Proof.
  unfold calculateBrowserStats. f_equal. f_equal. f_equal.
  generalize (fun _ : BrowserType => Bucket.zero).
  induction records as [|r records IH]; intros stats; simpl; [reflexivity|].
  rewrite tally_with_browser_read. apply IH.
Qed.

Lemma records_by_browser records :
  (length (records_of chromium records) + length (records_of firefox records)
   + length (records_of webkit records) = length records)%nat.
Proof.
  unfold records_of, counted_as.
  induction records as [|r records IH]; simpl; [reflexivity|].
  destruct (browser_or_chromium (browser r)); simpl; lia.
Qed.

(** No record of the window is left out of the totals. *)
Lemma browser_totals_cover records :
  list_sum (map BrowserStats.total (calculateBrowserStats records)) = length records.
Proof.
  rewrite <- (records_by_browser records).
  unfold calculateBrowserStats, Object_entries. simpl.
  destruct (tally_all records chromium) as (Hc & _).
  destruct (tally_all records firefox) as (Hf & _).
  destruct (tally_all records webkit) as (Hw & _).
  simpl in Hc, Hf, Hw. rewrite <- Hc, <- Hf, <- Hw.
  repeat match goal with
         | |- context [(0 <? ?n)%nat] =>
             let E := fresh in destruct (0 <? n)%nat eqn:E;
             [|apply Nat.ltb_ge in E]
         end; simpl; lia.
Qed.

(** C10.  A record whose [browser] field is missing or empty is counted
    under chromium: [calculateBrowserStats] emits a chromium entry, whose
    [total], [passed], [failed] and [avgDuration] are taken over the records
    that name chromium or name no browser, the record at hand among them;
    the statistics are those of the window in which every such record names
    chromium, and the totals of the entries add up to the size of the
    window. *)
Theorem missing_browser_counts_as_chromium records r :
  In r records ->
  browser r = browser_missing \/ browser r = browser_empty ->
  let mine := records_of chromium records in
  In r mine /\
  (exists e, In e (calculateBrowserStats records) /\
     BrowserStats.browser e = chromium /\
     BrowserStats.total e = length mine /\
     BrowserStats.passed e = count_passed mine /\
     BrowserStats.failed e = count_not_passed mine /\
     BrowserStats.avgDuration e =
       Js.Math_round (Js.div (Js.Int (sum_durations mine)) (Js.of_nat (length mine)))) /\
  calculateBrowserStats (map with_browser_read records) = calculateBrowserStats records /\
  list_sum (map BrowserStats.total (calculateBrowserStats records)) = length records.
Proof.
  intros Hin Hfalsy mine.
  assert (Hmine : In r mine).
  { apply List.filter_In. split; [exact Hin|].
    unfold counted_as. apply bool_decide_eq_true.
    destruct Hfalsy as [-> | ->]; reflexivity. }
  conjuncts.
  - exact Hmine.
  - exists (browser_entry (chromium, fold_left tally records (fun _ => Bucket.zero) chromium)).
    destruct (browser_entry_fields records chromium) as (Hb & Ht & Hp & Hf & Ha & _).
    conjuncts; try assumption.
    apply calculateBrowserStats_entries. exists chromium. split; [|reflexivity].
    fold mine. destruct mine; [destruct Hmine | simpl; lia].
  - apply calculateBrowserStats_with_browser_read.
  - apply browser_totals_cover.
Qed.

End BrowserStatisticsClaims.

(** The firefox entry of a window with eight passed and two failed firefox
    records. *)
Lemma browser_stats_entry_witness :
  let e := {| BrowserStats.browser := firefox; BrowserStats.passed := 8;
              BrowserStats.failed := 2; BrowserStats.total := 10;
              BrowserStats.avgDuration := Js.Int 620;
              BrowserStats.stability := Js.Int 80 |} in
  In e (calculateBrowserStats Sample.window_8_2) /\
  BrowserStats.stability e = Js.Int 80 /\
  BrowserStats.avgDuration e =
    Js.Math_round
      (Js.div (Js.Int (sum_durations (records_of firefox Sample.window_8_2))) (Js.Int 10)).
Proof.
  intros e.
  assert (Hin : In e (calculateBrowserStats Sample.window_8_2))
    by (vm_compute; right; left; reflexivity).
  split; [exact Hin|].
  destruct (browser_stats_entry Sample.window_8_2 e Hin) as (_ & _ & _ & _ & _ & _ & H).
  apply H; reflexivity.
Defined.

(** A legacy record without a browser, counted under chromium. *)
Lemma missing_browser_counts_as_chromium_witness :
  exists e, In e (calculateBrowserStats Sample.window_legacy) /\
    BrowserStats.browser e = chromium /\
    BrowserStats.total e = 3%nat.
Proof.
  destruct (missing_browser_counts_as_chromium Sample.window_legacy
              (Sample.legacy "TC1" passed 40))
    as (_ & (e & Hin & Hb & Ht & _) & _).
  - left. reflexivity.
  - left. reflexivity.
  - exists e. split; [exact Hin|]. split; [exact Hb|]. rewrite Ht. reflexivity.
Defined.

(** ** Grouping by run id *)

Section Grouping.

Lemma groupRuns_snoc history r :
  groupRuns (history ++ [r]) =
    Js.bind (groupRuns history) (fun acc => group_step acc r).
Proof. unfold groupRuns. rewrite fold_left_app. reflexivity. Qed.

Lemma keyed_snoc k history r :
  keyed k (history ++ [r]) =
    if String.eqb (run_key r) k then keyed k history ++ [r] else keyed k history.
Proof.
  unfold keyed. rewrite List.filter_app. simpl.
  destruct (String.eqb (run_key r) k); [reflexivity | apply app_nil_r].
Qed.

Lemma keyed_In k history r : In r (keyed k history) <-> In r history /\ run_key r = k.
Proof. unfold keyed. rewrite List.filter_In, String.eqb_eq. reflexivity. Qed.

Lemma group_of_accumulate history k g r :
  run_key r = k ->
  group_of history k g ->
  group_of (history ++ [r]) k (accumulate g r).
Proof.
  intros Hk (Hid & Hres & Hne & Hp & Hf & Hd).
  unfold group_of. simpl.
  rewrite keyed_snoc, Hk, String.eqb_refl, <- Hres.
  rewrite count_passed_snoc, count_not_passed_snoc, sum_durations_snoc, Hp, Hf, Hd.
  conjuncts; try reflexivity; try assumption.
  destruct (RunGroup.results g); discriminate.
Qed.

Lemma group_of_new history r :
  keyed (run_key r) history = [] ->
  group_of (history ++ [r]) (run_key r) (accumulate (new_group (run_key r) r) r).
Proof.
  intros Hnone. unfold group_of. simpl.
  rewrite keyed_snoc, String.eqb_refl, Hnone. simpl.
  unfold count_passed, count_not_passed, sum_durations. simpl.
  destruct (is_passed (status r)); simpl; conjuncts; try reflexivity; try discriminate; lia.
Qed.

Lemma group_of_other history k g r :
  run_key r <> k ->
  group_of history k g ->
  group_of (history ++ [r]) k g.
Proof.
  intros Hk (Hid & Hres & Hne & Hp & Hf & Hd). unfold group_of.
  rewrite keyed_snoc. apply String.eqb_neq in Hk. rewrite Hk.
  conjuncts; assumption.
Qed.

(** What the reducer returns, when it returns: a group for each key of the
    history and for no other, holding the records of that key in order. *)
Lemma groupRuns_normal history : forall m,
  groupRuns history = Js.Normal m ->
  plain_keys history /\
  (forall k, m !! k = None <-> keyed k history = []) /\
  (forall k g, m !! k = Some g -> group_of history k g).
Proof.
  induction history as [|r history IH] using rev_ind; intros m Hm.
  - injection Hm as <-. conjuncts.
    + intros r [].
    + intros k. rewrite lookup_empty. split; reflexivity.
    + intros k g Hg. rewrite lookup_empty in Hg. discriminate.
  - rewrite groupRuns_snoc in Hm.
    destruct (groupRuns history) as [m0|e]; [|discriminate].
    destruct (IH m0 eq_refl) as (Hplain & Hnone & Hsome). clear IH.
    simpl in Hm. unfold group_step in Hm.
    destruct (m0 !! run_key r) as [g|] eqn:Eg.
    + injection Hm as <-. conjuncts.
      * intros r' Hin. apply in_app_or in Hin as [Hin | [<- | []]]; [auto|].
        apply Hsome in Eg as (_ & Hres & Hne & _).
        destruct (keyed (run_key r) history) as [|r0 l] eqn:Ek; [congruence|].
        assert (Hr0 : In r0 (keyed (run_key r) history)) by (rewrite Ek; left; reflexivity).
        apply keyed_In in Hr0 as [Hr0 Hk0]. rewrite <- Hk0. auto.
      * intros k. rewrite keyed_snoc.
        destruct (String.eqb_spec (run_key r) k) as [<- | Hk].
        -- rewrite lookup_insert_eq. split; [discriminate|].
           destruct (keyed (run_key r) history); discriminate.
        -- rewrite lookup_insert_ne by exact Hk. apply Hnone.
      * intros k g' Hg'.
        destruct (decide (run_key r = k)) as [<- | Hk].
        -- rewrite lookup_insert_eq in Hg'. injection Hg' as <-.
           apply group_of_accumulate; [reflexivity | auto].
        -- rewrite lookup_insert_ne in Hg' by exact Hk.
           apply group_of_other; auto.
    + destruct (Js.inherited (run_key r)) eqn:Einh; [discriminate|].
      injection Hm as <-. conjuncts.
      * intros r' Hin. apply in_app_or in Hin as [Hin | [<- | []]]; auto.
      * intros k. rewrite keyed_snoc.
        destruct (String.eqb_spec (run_key r) k) as [<- | Hk].
        -- rewrite lookup_insert_eq. split; [discriminate|].
           destruct (keyed (run_key r) history); discriminate.
        -- rewrite lookup_insert_ne by exact Hk. apply Hnone.
      * intros k g' Hg'.
        destruct (decide (run_key r = k)) as [<- | Hk].
        -- rewrite lookup_insert_eq in Hg'. injection Hg' as <-.
           apply group_of_new. apply Hnone. exact Eg.
        -- rewrite lookup_insert_ne in Hg' by exact Hk.
           apply group_of_other; auto.
Qed.

(** The reducer returns when no key is an inherited name... *)
Lemma groupRuns_returns history :
  plain_keys history -> exists m, groupRuns history = Js.Normal m.
Proof.
  induction history as [|r history IH] using rev_ind; intros Hplain.
  - exists ∅. reflexivity.
  - destruct IH as [m0 Hm0].
    { intros r' Hin. apply Hplain, in_or_app. left. exact Hin. }
    rewrite groupRuns_snoc, Hm0. simpl. unfold group_step.
    destruct (m0 !! run_key r); [eauto|].
    rewrite (Hplain r) by (apply in_or_app; right; left; reflexivity). eauto.
Qed.

(** ... and throws otherwise. *)
Lemma groupRuns_throws history :
  ~ plain_keys history -> exists e, groupRuns history = Js.Throw e.
Proof.
  intros Hnot. destruct (groupRuns history) as [m|e] eqn:E; [|eauto].
  apply groupRuns_normal in E as (Hplain & _). contradiction.
Qed.

End Grouping.

(** ** Whole numbers below 2^53 as doubles *)

Section Exact.

Import SpecFloat.

Lemma iter_pos_nat {A : Type} (f : A -> A) p : forall x,
  iter_pos f p x = Nat.iter (Pos.to_nat p) f x.
Proof.
  induction p as [p IH | p IH |]; intros x; cbn [iter_pos].
  - rewrite !IH, Pos2Nat.inj_xI, <- Nat.iter_add.
    replace (S (2 * Pos.to_nat p)) with (S (Pos.to_nat p + Pos.to_nat p)) by lia.
    rewrite Nat.iter_succ_r. reflexivity.
  - rewrite !IH, Pos2Nat.inj_xO, <- Nat.iter_add. f_equal. lia.
  - reflexivity.
Qed.

Lemma shr_exact n : forall m q,
  m = Z.pos q * 2 ^ Z.of_nat n ->
  Nat.iter n shr_1 {| shr_m := m; shr_r := false; shr_s := false |}
  = {| shr_m := Z.pos q; shr_r := false; shr_s := false |}.
Proof.
  induction n as [|n IH]; intros m q ->.
  - change (2 ^ Z.of_nat 0) with 1. rewrite Z.mul_1_r. reflexivity.
  - rewrite Nat.iter_succ_r.
    assert (Hpos : 0 < Z.pos q * 2 ^ Z.of_nat n) by (apply Z.mul_pos_pos; lia).
    destruct (Z.pos q * 2 ^ Z.of_nat n) as [|q'|q'] eqn:E; try lia.
    replace (Z.pos q * 2 ^ Z.of_nat (S n)) with (Z.pos (q'~0)).
    + cbn [shr_1 orb]. apply IH. symmetry. exact E.
    + rewrite Nat2Z.inj_succ, Z.pow_succ_r by lia. lia.
Qed.

Lemma shr_down p q :
  forall m, m = Z.pos q * 2 ^ Z.pos p ->
  iter_pos shr_1 p {| shr_m := m; shr_r := false; shr_s := false |}
  = {| shr_m := Z.pos q; shr_r := false; shr_s := false |}.
Proof.
  intros m ->. rewrite iter_pos_nat. apply shr_exact.
  rewrite positive_nat_Z. reflexivity.
Qed.

Lemma digits2_size p : digits2_pos p = Pos.size p.
Proof. induction p as [p IH | p IH |]; simpl; rewrite ?IH; reflexivity. Qed.

Lemma digits_bounds p : 2 ^ (binary_digits p - 1) <= Z.pos p < 2 ^ binary_digits p.
Proof.
  unfold binary_digits. split.
  - pose proof (Pos.size_le p) as H.
    assert (Hz : (2 ^ Z.pos (Pos.size p) <= 2 * Z.pos p)).
    { change (2 * Z.pos p) with (Z.pos p~0). rewrite <- Pos2Z.inj_pow. exact H. }
    replace (Z.pos (Pos.size p)) with (Z.succ (Z.pos (Pos.size p) - 1)) in Hz by lia.
    rewrite Z.pow_succ_r in Hz by lia. lia.
  - pose proof (Pos.size_gt p) as H. rewrite <- Pos2Z.inj_pow. exact H.
Qed.

Lemma digits_pos p : 1 <= binary_digits p.
Proof. unfold binary_digits. lia. Qed.

Lemma digits_unique p d :
  2 ^ (d - 1) <= Z.pos p < 2 ^ d -> binary_digits p = d.
Proof.
  intros [Hlo Hhi]. pose proof (digits_bounds p) as [Hlo' Hhi'].
  pose proof (digits_pos p).
  assert (0 < d).
  { destruct (Z.le_gt_cases d 0) as [Hd|]; [|assumption].
    exfalso. assert (2 ^ d <= 2 ^ 0) by (apply Z.pow_le_mono_r; lia). simpl in *. lia. }
  destruct (Z.lt_trichotomy (binary_digits p) d) as [Hlt | [-> | Hgt]]; [| reflexivity |].
  - assert (2 ^ binary_digits p <= 2 ^ (d - 1)) by (apply Z.pow_le_mono_r; lia). lia.
  - assert (2 ^ d <= 2 ^ (binary_digits p - 1)) by (apply Z.pow_le_mono_r; lia). lia.
Qed.

Lemma digits_shift p k q :
  0 <= k -> Z.pos q = Z.pos p * 2 ^ k -> binary_digits q = binary_digits p + k.
Proof.
  intros Hk E. apply digits_unique. rewrite E.
  pose proof (digits_bounds p) as [Hlo Hhi]. pose proof (digits_pos p).
  replace (binary_digits p + k - 1) with ((binary_digits p - 1) + k) by lia.
  rewrite !Z.pow_add_r by lia.
  assert (0 < 2 ^ k) by (apply Z.pow_pos_nonneg; lia). split; nia.
Qed.

Lemma digits_below p : Z.pos p < 2 ^ 53 -> binary_digits p <= 53.
Proof.
  intros Hp. pose proof (digits_bounds p) as [Hlo _].
  destruct (Z.le_gt_cases (binary_digits p) 53) as [|Hgt]; [assumption|].
  assert (2 ^ 53 <= 2 ^ (binary_digits p - 1)) by (apply Z.pow_le_mono_r; lia). lia.
Qed.

Lemma mant_spec c :
  Z.pos c < 2 ^ 53 ->
  Z.pos (mant c) = Z.pos c * 2 ^ (53 - binary_digits c) /\ binary_digits (mant c) = 53.
Proof.
  intros Hc. pose proof (digits_below c Hc) as Hd. pose proof (digits_pos c).
  assert (Hpos : 0 < Z.pos c * 2 ^ (53 - binary_digits c)).
  { apply Z.mul_pos_pos; [lia|]. apply Z.pow_pos_nonneg; lia. }
  assert (E : Z.pos (mant c) = Z.pos c * 2 ^ (53 - binary_digits c)).
  { unfold mant. rewrite Z2Pos.id by exact Hpos. reflexivity. }
  split; [exact E|].
  rewrite (digits_shift c (53 - binary_digits c) (mant c)) by (lia || exact E). lia.
Qed.

Lemma Zdigits2_digits m : Zdigits2 (Z.pos m) = binary_digits m.
Proof. unfold binary_digits. cbn [Zdigits2]. rewrite digits2_size. reflexivity. Qed.

Lemma fexp_normal x : -1021 <= x -> fexp 53 1024 x = x - 53.
Proof. intros Hx. unfold fexp, emin. lia. Qed.

Lemma shr_fexp_none m e :
  binary_digits m = 53 -> -1074 <= e ->
  shr_fexp 53 1024 (Z.pos m) e loc_Exact
  = ({| shr_m := Z.pos m; shr_r := false; shr_s := false |}, e).
Proof.
  intros Hd He. unfold shr_fexp. rewrite Zdigits2_digits, Hd.
  replace (fexp 53 1024 (53 + e) - e) with 0 by (unfold fexp, emin; lia).
  reflexivity.
Qed.

Lemma binary_round_aux_exact s mx ex q e' :
  shr_fexp 53 1024 mx ex loc_Exact
  = ({| shr_m := Z.pos q; shr_r := false; shr_s := false |}, e') ->
  binary_digits q = 53 -> -1074 <= e' <= 971 ->
  binary_round_aux 53 1024 s mx ex loc_Exact = S754_finite s q e'.
Proof.
  intros Hshr Hd He. unfold binary_round_aux. rewrite Hshr.
  cbn [shr_m loc_of_shr_record round_nearest_even].
  rewrite (shr_fexp_none q e' Hd) by lia. cbn [shr_m].
  replace (e' <=? 1024 - 53) with true by (symmetry; apply Z.leb_le; lia).
  reflexivity.
Qed.

Lemma Pos_iter_xO m d : Z.pos (Pos.iter xO m d) = Z.pos m * 2 ^ Z.pos d.
Proof.
  induction d as [|d IH] using Pos.peano_ind.
  - change (Z.pos (Pos.iter xO m 1)) with (2 * Z.pos m). change (2 ^ 1) with 2. lia.
  - rewrite Pos.iter_succ, Pos2Z.inj_succ, Z.pow_succ_r by lia.
    change (Z.pos (Pos.iter xO m d)~0) with (2 * Z.pos (Pos.iter xO m d)).
    rewrite IH. lia.
Qed.

Lemma shl_align_spec m e e' :
  e' <= e ->
  Z.pos (fst (shl_align m e e')) = Z.pos m * 2 ^ (e - e') /\
  snd (shl_align m e e') = e'.
Proof.
  intros Hle. unfold shl_align.
  destruct (e' - e) as [|d|d] eqn:E; try lia.
  - cbn [fst snd]. replace (e - e') with 0 by lia. split; lia.
  - cbn [fst snd]. rewrite Pos_iter_xO. replace (e - e') with (Z.pos d) by lia.
    split; reflexivity.
Qed.

(** Rounding a whole number below 2^53, given at a scale of at most 52
    binary places, gives the double of that number. *)
Lemma binary_round_canon s M e c :
  Z.pos M = Z.pos c * 2 ^ (- e) -> -1000 <= e <= 0 -> Z.pos c < 2 ^ 53 ->
  binary_round 53 1024 s M e = S754_finite s (mant c) (expo c).
Proof.
  intros EM He Hc.
  pose proof (digits_below c Hc) as Hd. pose proof (digits_pos c) as Hd1.
  destruct (mant_spec c Hc) as (Emant & Dmant).
  assert (DM : binary_digits M = binary_digits c + - e) by (apply (digits_shift c); [lia | exact EM]).
  unfold binary_round.
  change (Z.pos (digits2_pos M)) with (Zdigits2 (Z.pos M)).
  rewrite Zdigits2_digits, DM.
  rewrite fexp_normal by lia.
  replace (binary_digits c + - e + e - 53) with (expo c) by (unfold expo; lia).
  destruct (Z.le_gt_cases (expo c) e) as [Hshl | Hshr].
  - (* the mantissa is shifted left, or kept *)
    destruct (shl_align_spec M e (expo c) Hshl) as (Efst & Esnd).
    destruct (shl_align M e (expo c)) as [mz ez]. cbn [fst snd] in Efst, Esnd. subst ez.
    assert (Emz : mz = mant c).
    { apply Pos2Z.inj. rewrite Efst, Emant, EM. unfold expo in *.
      rewrite <- Z.mul_assoc, <- Z.pow_add_r by lia.
      replace (- e + (e - (binary_digits c - 53))) with (53 - binary_digits c) by lia. reflexivity. }
    subst mz.
    apply binary_round_aux_exact; [|exact Dmant | unfold expo; lia].
    apply shr_fexp_none; [exact Dmant | unfold expo; lia].
  - (* the mantissa is shifted right *)
    assert (Ealign : shl_align M e (expo c) = (M, e)).
    { unfold shl_align. destruct (expo c - e) eqn:E; try lia; reflexivity. }
    rewrite Ealign.
    apply binary_round_aux_exact; [|exact Dmant | unfold expo; lia].
    unfold shr_fexp. rewrite Zdigits2_digits, DM, fexp_normal by lia.
    replace (binary_digits c + - e + e - 53 - e) with (expo c - e) by (unfold expo; lia).
    destruct (expo c - e) as [|n|n] eqn:En; try lia.
    cbn [shr shr_record_of_loc]. f_equal; [|lia].
    apply shr_down. rewrite EM, Emant. unfold expo in *.
    rewrite <- Z.mul_assoc, <- Z.pow_add_r by lia.
    replace (53 - binary_digits c + Z.pos n) with (- e) by lia. reflexivity.
Qed.

Lemma normalize_canon S e c :
  S = c * 2 ^ (- e) -> -1000 <= e <= 0 -> small c ->
  binary_normalize 53 1024 S e false = canon c.
Proof.
  unfold small. intros -> He Hc.
  assert (Hpow : 0 < 2 ^ (- e)) by (apply Z.pow_pos_nonneg; lia).
  destruct c as [|c|c]; cbn [canon].
  - reflexivity.
  - destruct (Z.pos c * 2 ^ (- e)) as [|M|M] eqn:E; try lia.
    cbn [binary_normalize]. apply binary_round_canon; [symmetry; exact E | exact He | lia].
  - destruct (Z.neg c * 2 ^ (- e)) as [|M|M] eqn:E; try lia.
    cbn [binary_normalize]. apply binary_round_canon; [|exact He | lia].
    change (Z.neg c) with (- Z.pos c) in E. lia.
Qed.

Lemma Prim2SF_of_Z z :
  small z -> FloatOps.Prim2SF (Js.double_of_Z z) = canon z.
Proof.
  unfold small. intros Hz.
  assert (Hrange : forall p, Z.pos p < 2 ^ 53 ->
            FloatOps.Prim2SF (PrimFloat.of_uint63 (Uint63.of_Z (Z.pos p)))
            = canon (Z.pos p)).
  { intros p Hp. rewrite FloatAxioms.of_uint63_spec.
    change Uint63Axioms.to_Z with Uint63.to_Z. rewrite Uint63.of_Z_spec.
    rewrite Z.mod_small
      by (split; [lia | apply Z.lt_trans with (2 ^ 53); [exact Hp | reflexivity]]).
    apply (normalize_canon (Z.pos p) 0 (Z.pos p)); [simpl; lia | lia | unfold small; lia]. }
  unfold Js.double_of_Z. destruct z as [|p|p].
  - reflexivity.
  - cbn [Z.ltb Z.compare]. apply Hrange. lia.
  - cbn [Z.ltb Z.compare]. change (- Z.neg p) with (Z.pos p).
    rewrite FloatAxioms.opp_spec, Hrange by (simpl in Hz; lia).
    reflexivity.
Qed.

Lemma canon_aligned c e :
  Z.pos c < 2 ^ 53 -> e <= expo c ->
  Z.pos (fst (shl_align (mant c) (expo c) e)) = Z.pos c * 2 ^ (- e).
Proof.
  intros Hc He. pose proof (digits_below c Hc). pose proof (digits_pos c).
  destruct (shl_align_spec (mant c) (expo c) e He) as (-> & _).
  destruct (mant_spec c Hc) as (-> & _). unfold expo in *.
  rewrite <- Z.mul_assoc, <- Z.pow_add_r by lia.
  replace (53 - binary_digits c + (binary_digits c - 53 - e)) with (- e) by lia. reflexivity.
Qed.

Lemma expo_range c : Z.pos c < 2 ^ 53 -> -52 <= expo c <= 0.
Proof.
  intros Hc. pose proof (digits_below c Hc). pose proof (digits_pos c).
  unfold expo. lia.
Qed.

(** The sum and the difference of two doubles that are whole numbers,
    where the result is below 2^53. *)
Lemma SFadd_canon a b :
  small a -> small b -> small (a + b) ->
  SFadd 53 1024 (canon a) (canon b) = canon (a + b).
Proof.
  unfold small. intros Ha Hb Hab.
  destruct a as [|a|a], b as [|b|b]; try reflexivity;
    cbn [canon SFadd cond_Zopp];
    pose proof (expo_range a ltac:(lia)); pose proof (expo_range b ltac:(lia));
    rewrite !canon_aligned by lia;
    apply normalize_canon; unfold small; try lia.
Qed.

Lemma SFsub_canon a b :
  small a -> small b -> small (a - b) ->
  SFsub 53 1024 (canon a) (canon b) = canon (a - b).
Proof.
  unfold small. intros Ha Hb Hab.
  destruct a as [|a|a], b as [|b|b]; try reflexivity;
    cbn [canon SFsub cond_Zopp];
    pose proof (expo_range a ltac:(lia)); pose proof (expo_range b ltac:(lia));
    rewrite !canon_aligned by lia;
    apply normalize_canon; unfold small; try lia.
Qed.

Lemma add_of_Z a b :
  small a -> small b -> small (a + b) ->
  PrimFloat.add (Js.double_of_Z a) (Js.double_of_Z b) = Js.double_of_Z (a + b).
Proof.
  intros Ha Hb Hab. apply FloatAxioms.Prim2SF_inj.
  rewrite FloatAxioms.add_spec, !Prim2SF_of_Z by assumption.
  apply SFadd_canon; assumption.
Qed.

Lemma sub_of_Z a b :
  small a -> small b -> small (a - b) ->
  PrimFloat.sub (Js.double_of_Z a) (Js.double_of_Z b) = Js.double_of_Z (a - b).
Proof.
  intros Ha Hb Hab. apply FloatAxioms.Prim2SF_inj.
  rewrite FloatAxioms.sub_spec, !Prim2SF_of_Z by assumption.
  apply SFsub_canon; assumption.
Qed.

Lemma to_number_of_Z z : small z -> Double.to_number (Js.double_of_Z z) = Js.Int z.
Proof.
  intros Hz. unfold Double.to_number. rewrite (Prim2SF_of_Z z Hz).
  assert (Hpos : forall c, Z.pos c < 2 ^ 53 ->
            (if 0 <=? expo c then Z.pos (mant c) * 2 ^ expo c
             else Z.pos (mant c) / 2 ^ (- expo c)) = Z.pos c).
  { intros c Hc. pose proof (expo_range c Hc) as He.
    destruct (mant_spec c Hc) as (-> & _).
    replace (53 - binary_digits c) with (- expo c) by (unfold expo; lia).
    destruct (Z.leb_spec 0 (expo c)) as [H0 | Hneg].
    - replace (expo c) with 0 by lia. simpl. lia.
    - apply Z.div_mul. apply Z.pow_nonzero; lia. }
  unfold small in Hz. destruct z as [|c|c]; cbn [canon].
  - reflexivity.
  - rewrite Hpos by lia. reflexivity.
  - rewrite Hpos by (simpl in Hz; lia). reflexivity.
Qed.

(** The order of two positive doubles is that of their exponents, then of
    their mantissas. *)
Lemma compare_canon a b :
  Z.pos a < 2 ^ 53 -> Z.pos b < 2 ^ 53 ->
  match expo a ?= expo b with
  | Lt => Lt
  | Gt => Gt
  | Eq => Pos.compare_cont Eq (mant a) (mant b)
  end = (Z.pos a ?= Z.pos b).
Proof.
  intros Ha Hb.
  pose proof (digits_bounds a) as [Hla Hha]. pose proof (digits_bounds b) as [Hlb Hhb].
  pose proof (digits_pos a). pose proof (digits_pos b).
  destruct (mant_spec a Ha) as (Ema & _). destruct (mant_spec b Hb) as (Emb & _).
  unfold expo. destruct (Z.compare_spec (binary_digits a - 53) (binary_digits b - 53)) as [E | Hlt | Hgt].
  - assert (Ed : binary_digits a = binary_digits b) by lia.
    change (Pos.compare_cont Eq (mant a) (mant b)) with (Z.pos (mant a) ?= Z.pos (mant b)).
    rewrite Ema, Emb, Ed.
    pose proof (digits_below b Hb).
    assert (0 < 2 ^ (53 - binary_digits b)) by (apply Z.pow_pos_nonneg; lia).
    destruct (Z.compare_spec (Z.pos a) (Z.pos b)) as [E' | Hlt' | Hgt'].
    + rewrite E'. apply Z.compare_refl.
    + apply Z.compare_lt_iff. nia.
    + apply Z.compare_gt_iff. nia.
  - symmetry. apply Z.compare_lt_iff.
    assert (2 ^ binary_digits a <= 2 ^ (binary_digits b - 1)) by (apply Z.pow_le_mono_r; lia). lia.
  - symmetry. apply Z.compare_gt_iff.
    assert (2 ^ binary_digits b <= 2 ^ (binary_digits a - 1)) by (apply Z.pow_le_mono_r; lia). lia.
Qed.

Lemma SFcompare_canon a b :
  small a -> small b -> SFcompare (canon a) (canon b) = Some (a ?= b).
Proof.
  unfold small. intros Ha Hb.
  destruct a as [|a|a], b as [|b|b]; try reflexivity; cbn [canon SFcompare]; f_equal.
  - apply compare_canon; lia.
  - change (Z.neg a ?= Z.neg b) with (CompOpp (Z.pos a ?= Z.pos b)).
    rewrite <- (compare_canon a b) by (simpl in *; lia).
    destruct (expo a ?= expo b); reflexivity.
Qed.

Lemma ltb_of_Z a b :
  small a -> small b ->
  PrimFloat.ltb (Js.double_of_Z a) (Js.double_of_Z b) = (a <? b).
Proof.
  intros Ha Hb. rewrite FloatAxioms.ltb_spec, !Prim2SF_of_Z by assumption.
  unfold SFltb. rewrite SFcompare_canon by assumption.
  unfold Z.ltb. destruct (a ?= b); reflexivity.
Qed.

Lemma is_nan_of_Z a : small a -> PrimFloat.is_nan (Js.double_of_Z a) = false.
Proof.
  intros Ha. unfold PrimFloat.is_nan.
  rewrite FloatAxioms.eqb_spec, Prim2SF_of_Z by assumption.
  unfold SFeqb. rewrite SFcompare_canon by assumption.
  rewrite Z.compare_refl. reflexivity.
Qed.

Lemma is_neg_zero_of_Z a : small a -> Double.is_neg_zero (Js.double_of_Z a) = false.
Proof.
  intros Ha. unfold Double.is_neg_zero. rewrite Prim2SF_of_Z by assumption.
  destruct a; reflexivity.
Qed.

Lemma min2_of_Z a b :
  small a -> small b ->
  Double.min2 (Js.double_of_Z a) (Js.double_of_Z b) = Js.double_of_Z (Z.min a b).
Proof.
  intros Ha Hb. unfold Double.min2.
  rewrite !is_nan_of_Z, ltb_of_Z, is_neg_zero_of_Z, andb_false_r by assumption.
  cbn [orb]. destruct (Z.ltb_spec b a); f_equal; lia.
Qed.

Lemma max2_of_Z a b :
  small a -> small b ->
  Double.max2 (Js.double_of_Z a) (Js.double_of_Z b) = Js.double_of_Z (Z.max a b).
Proof.
  intros Ha Hb. unfold Double.max2.
  rewrite !is_nan_of_Z, ltb_of_Z, is_neg_zero_of_Z, andb_false_r by assumption.
  cbn [orb]. destruct (Z.ltb_spec a b); f_equal; lia.
Qed.

Lemma min2_infinity a :
  small a -> Double.min2 PrimFloat.infinity (Js.double_of_Z a) = Js.double_of_Z a.
Proof.
  intros Ha. unfold Double.min2.
  rewrite is_nan_of_Z by assumption.
  replace (PrimFloat.ltb (Js.double_of_Z a) PrimFloat.infinity) with true; [reflexivity|].
  rewrite FloatAxioms.ltb_spec, Prim2SF_of_Z by assumption.
  destruct a; reflexivity.
Qed.

Lemma max2_neg_infinity a :
  small a -> Double.max2 PrimFloat.neg_infinity (Js.double_of_Z a) = Js.double_of_Z a.
Proof.
  intros Ha. unfold Double.max2.
  rewrite is_nan_of_Z by assumption.
  replace (PrimFloat.ltb PrimFloat.neg_infinity (Js.double_of_Z a)) with true; [reflexivity|].
  rewrite FloatAxioms.ltb_spec, Prim2SF_of_Z by assumption.
  destruct a; reflexivity.
Qed.

End Exact.

(** ** Minimum and maximum of doubles *)

Section MinMax.

Lemma fold_Zmin_least l : forall a, is_least (fold_left Z.min l a) (a :: l).
Proof.
  induction l as [|x l IH]; intros a; simpl.
  - split; [left; reflexivity | intros y [<- | []]; lia].
  - destruct (IH (Z.min a x)) as [Hin Hle]. split.
    + destruct Hin as [E | Hin]; [|right; right; exact Hin].
      rewrite <- E.
      destruct (Z.min_spec a x) as [[_ ->] | [_ ->]]; [left | right; left]; reflexivity.
    + intros y [<- | [<- | Hy]].
      * specialize (Hle (Z.min a x) (or_introl eq_refl)). lia.
      * specialize (Hle (Z.min a x) (or_introl eq_refl)). lia.
      * apply Hle. right. exact Hy.
Qed.

Lemma fold_Zmax_greatest l : forall a, is_greatest (fold_left Z.max l a) (a :: l).
Proof.
  induction l as [|x l IH]; intros a; simpl.
  - split; [left; reflexivity | intros y [<- | []]; lia].
  - destruct (IH (Z.max a x)) as [Hin Hle]. split.
    + destruct Hin as [E | Hin]; [|right; right; exact Hin].
      rewrite <- E.
      destruct (Z.max_spec a x) as [[_ ->] | [_ ->]]; [right; left | left]; reflexivity.
    + intros y [<- | [<- | Hy]].
      * specialize (Hle (Z.max a x) (or_introl eq_refl)). lia.
      * specialize (Hle (Z.max a x) (or_introl eq_refl)). lia.
      * apply Hle. right. exact Hy.
Qed.

Lemma min2_nan_r x : Double.min2 x PrimFloat.nan = PrimFloat.nan.
Proof.
  unfold Double.min2. change (PrimFloat.is_nan PrimFloat.nan) with true.
  rewrite orb_true_r. reflexivity.
Qed.

Lemma max2_nan_r x : Double.max2 x PrimFloat.nan = PrimFloat.nan.
Proof.
  unfold Double.max2. change (PrimFloat.is_nan PrimFloat.nan) with true.
  rewrite orb_true_r. reflexivity.
Qed.

Lemma fold_min2_nan l : fold_left Double.min2 l PrimFloat.nan = PrimFloat.nan.
Proof. induction l as [|x l IH]; cbn [fold_left]; [reflexivity | exact IH]. Qed.

Lemma fold_max2_nan l : fold_left Double.max2 l PrimFloat.nan = PrimFloat.nan.
Proof. induction l as [|x l IH]; cbn [fold_left]; [reflexivity | exact IH]. Qed.

(** NaN among the arguments makes the result NaN. *)
Lemma fold_min2_In_nan l : forall a,
  In PrimFloat.nan l -> fold_left Double.min2 l a = PrimFloat.nan.
Proof.
  induction l as [|x l IH]; intros a Hin; [destruct Hin|].
  cbn [fold_left]. destruct Hin as [-> | Hin]; [|auto].
  rewrite min2_nan_r. apply fold_min2_nan.
Qed.

Lemma fold_max2_In_nan l : forall a,
  In PrimFloat.nan l -> fold_left Double.max2 l a = PrimFloat.nan.
Proof.
  induction l as [|x l IH]; intros a Hin; [destruct Hin|].
  cbn [fold_left]. destruct Hin as [-> | Hin]; [|auto].
  rewrite max2_nan_r. apply fold_max2_nan.
Qed.

Lemma small_min a b : small a -> small b -> small (Z.min a b).
Proof. unfold small. lia. Qed.

Lemma small_max a b : small a -> small b -> small (Z.max a b).
Proof. unfold small. lia. Qed.

Lemma fold_min2_of_Z l : forall a,
  small a -> Forall small l ->
  fold_left Double.min2 (map Js.double_of_Z l) (Js.double_of_Z a)
  = Js.double_of_Z (fold_left Z.min l a).
Proof.
  induction l as [|x l IH]; intros a Ha Hl; cbn [fold_left map]; [reflexivity|].
  apply Forall_cons_1 in Hl as [Hx Hl].
  rewrite min2_of_Z by assumption. apply IH; [apply small_min; assumption | exact Hl].
Qed.

Lemma fold_max2_of_Z l : forall a,
  small a -> Forall small l ->
  fold_left Double.max2 (map Js.double_of_Z l) (Js.double_of_Z a)
  = Js.double_of_Z (fold_left Z.max l a).
Proof.
  induction l as [|x l IH]; intros a Ha Hl; cbn [fold_left map]; [reflexivity|].
  apply Forall_cons_1 in Hl as [Hx Hl].
  rewrite max2_of_Z by assumption. apply IH; [apply small_max; assumption | exact Hl].
Qed.

(** [Math.min] and [Math.max] of whole numbers below 2^53, at least one. *)
Lemma Math_min_of_Z l :
  l <> [] -> Forall small l ->
  exists x, is_least x l /\ Double.Math_min (map Js.double_of_Z l) = Js.double_of_Z x.
Proof.
  destruct l as [|a l]; [congruence|]. intros _ Hl.
  apply Forall_cons_1 in Hl as [Ha Hl].
  exists (fold_left Z.min l a). split; [apply fold_Zmin_least|].
  unfold Double.Math_min. cbn [fold_left map].
  rewrite min2_infinity by exact Ha. apply fold_min2_of_Z; assumption.
Qed.

Lemma Math_max_of_Z l :
  l <> [] -> Forall small l ->
  exists x, is_greatest x l /\ Double.Math_max (map Js.double_of_Z l) = Js.double_of_Z x.
Proof.
  destruct l as [|a l]; [congruence|]. intros _ Hl.
  apply Forall_cons_1 in Hl as [Ha Hl].
  exists (fold_left Z.max l a). split; [apply fold_Zmax_greatest|].
  unfold Double.Math_max. cbn [fold_left map].
  rewrite max2_neg_infinity by exact Ha. apply fold_max2_of_Z; assumption.
Qed.

Lemma add_nan_l x : PrimFloat.add PrimFloat.nan x = PrimFloat.nan.
Proof. apply FloatAxioms.Prim2SF_inj. rewrite FloatAxioms.add_spec. reflexivity. Qed.

Lemma sub_nan_l x : PrimFloat.sub PrimFloat.nan x = PrimFloat.nan.
Proof. apply FloatAxioms.Prim2SF_inj. rewrite FloatAxioms.sub_spec. reflexivity. Qed.

End MinMax.

(** ** The aggregation pass *)

Section Aggregation.

Context `{Host}.

Lemma aggregate_normal history m :
  aggregate history = Js.Normal m ->
  exists m0, groupRuns history = Js.Normal m0 /\ m = finish_run <$> m0.
Proof.
  unfold aggregate. destruct (groupRuns history) as [m0|e]; simpl; [|discriminate].
  intros E. injection E as <-. eauto.
Qed.

Lemma aggregate_lookup history m k g :
  aggregate history = Js.Normal m ->
  m !! k = Some g ->
  exists g0, g = finish_run g0 /\ group_of history k g0.
Proof.
  intros Hm Hg. apply aggregate_normal in Hm as (m0 & Hm0 & ->).
  rewrite lookup_fmap in Hg.
  destruct (m0 !! k) as [g0|] eqn:Eg0; [|discriminate].
  injection Hg as <-. exists g0. split; [reflexivity|].
  apply groupRuns_normal in Hm0 as (_ & _ & Hsome). auto.
Qed.

(** The pass returns exactly when the reducer does. *)
Lemma aggregate_returns history :
  plain_keys history -> exists m, aggregate history = Js.Normal m.
Proof.
  intros Hplain. destruct (groupRuns_returns history Hplain) as [m0 Hm0].
  unfold aggregate. rewrite Hm0. simpl. eauto.
Qed.

Lemma finish_run_wallClockTime (run : RunGroup.t) :
  RunGroup.results run <> [] ->
  RunGroup.wallClockTime (finish_run run) =
    Double.to_number (wall_clock (map span (RunGroup.results run))).
Proof.
  intros Hne. unfold finish_run.
  destruct (RunGroup.results run) as [|r rest]; [congruence|]. reflexivity.
Qed.

Lemma finish_run_counts (run : RunGroup.t) :
  RunGroup.id (finish_run run) = RunGroup.id run /\
  RunGroup.passed (finish_run run) = RunGroup.passed run /\
  RunGroup.failed (finish_run run) = RunGroup.failed run /\
  RunGroup.duration (finish_run run) = RunGroup.duration run.
Proof. unfold finish_run. destruct (_ <? _)%nat; conjuncts; reflexivity. Qed.

Lemma span_parsed r :
  is_Some (Date_getTime (timestamp r)) ->
  span r = (Js.double_of_Z (time_of r), Js.double_of_Z (duration r)).
Proof.
  intros [t Ht]. unfold span, getTime, time_of. rewrite Ht. reflexivity.
Qed.

Lemma spans_exact l :
  (forall r, In r l ->
     is_Some (Date_getTime (timestamp r)) /\
     small (time_of r) /\ small (duration r) /\ small (time_of r + duration r)) ->
  map fst (map span l) = map Js.double_of_Z (map time_of l) /\
  map (fun s => PrimFloat.add (fst s) (snd s)) (map span l)
  = map Js.double_of_Z (map (fun r => time_of r + duration r) l).
Proof.
  induction l as [|r l IH]; intros Hall; cbn [map]; [split; reflexivity|].
  destruct IH as [IH1 IH2]; [intros; apply Hall; right; assumption|].
  destruct (Hall r (or_introl eq_refl)) as (Hp & Ht & Hd & He).
  rewrite IH1, IH2, (span_parsed r Hp). cbn [fst snd].
  rewrite add_of_Z by assumption. split; reflexivity.
Qed.

Lemma spans_not_parsed l r :
  In r l -> Date_getTime (timestamp r) = None ->
  In PrimFloat.nan (map fst (map span l)) /\
  In PrimFloat.nan (map (fun s => PrimFloat.add (fst s) (snd s)) (map span l)).
Proof.
  intros Hin Hnone.
  assert (E : Js.to_double (getTime (timestamp r)) = PrimFloat.nan).
  { unfold getTime. rewrite Hnone. reflexivity. }
  split; apply in_map_iff; exists (span r); (split; [|apply in_map; exact Hin]);
    unfold span; cbn [fst snd]; rewrite E.
  - reflexivity.
  - apply add_nan_l.
Qed.

(** C1.  For every group the aggregation pass produces, [wallClockTime] is
    the maximum of [timestamp + duration] over the records of the group minus
    the minimum of [timestamp], as the doubles of the code compute them.
    Where every time stamp of the group parses and the time values, the
    durations, the end times and the differences of an end time and a time
    value are whole numbers below 2^53, the arithmetic is exact:
    [wallClockTime] is the greatest end minus the least start, and it is at
    least the duration of each record of the group.  Where a time stamp does
    not parse, it is NaN. *)
Theorem wall_clock_time history m k g :
  aggregate history = Js.Normal m ->
  m !! k = Some g ->
  let results := RunGroup.results g in
  results <> [] /\
  RunGroup.wallClockTime g =
    Double.to_number
      (PrimFloat.sub
         (Double.Math_max
            (map (fun r => PrimFloat.add (fst (span r)) (snd (span r))) results))
         (Double.Math_min (map (fun r => fst (span r)) results))) /\
  (exact_times results ->
   exists first last,
     is_least first (map time_of results) /\
     is_greatest last (map (fun r => time_of r + duration r) results) /\
     RunGroup.wallClockTime g = Js.Int (last - first) /\
     forall r, In r results ->
       duration r <= last - first /\
       Js.ge (RunGroup.wallClockTime g) (Js.Int (duration r)) = true) /\
  ((exists r, In r results /\ Date_getTime (timestamp r) = None) ->
   RunGroup.wallClockTime g = Js.NaN).
Proof.
  intros Hm Hg results.
  destruct (aggregate_lookup history m k g Hm Hg) as (g0 & -> & (_ & _ & Hne & _)).
  subst results. rewrite finish_run_results.
  rewrite (finish_run_wallClockTime g0 Hne). unfold wall_clock.
  conjuncts; [exact Hne | rewrite !map_map; reflexivity | |].
  - intros (Hall & Hdiff). destruct (spans_exact _ Hall) as [-> ->].
    assert (Hne1 : map time_of (RunGroup.results g0) <> []).
    { destruct (RunGroup.results g0); [congruence | discriminate]. }
    assert (Hne2 : map (fun r => time_of r + duration r) (RunGroup.results g0) <> []).
    { destruct (RunGroup.results g0); [congruence | discriminate]. }
    destruct (Math_min_of_Z _ Hne1) as (first & Hfirst & ->).
    { apply List.Forall_forall. intros t Ht. apply in_map_iff in Ht as (r & <- & Hr).
      apply (Hall r Hr). }
    destruct (Math_max_of_Z _ Hne2) as (last & Hlast & ->).
    { apply List.Forall_forall. intros t Ht. apply in_map_iff in Ht as (r & <- & Hr).
      apply (Hall r Hr). }
    pose proof (proj1 Hfirst) as Hf. apply in_map_iff in Hf as (rf & Ef & Hrf).
    pose proof (proj1 Hlast) as Hl. apply in_map_iff in Hl as (rl & El & Hrl).
    assert (Hsmall : small (last - first)).
    { rewrite <- Ef, <- El. apply Hdiff; assumption. }
    rewrite sub_of_Z, to_number_of_Z; [| exact Hsmall | | | exact Hsmall].
    2:{ rewrite <- El. apply (Hall rl Hrl). }
    2:{ rewrite <- Ef. apply (Hall rf Hrf). }
    exists first, last. conjuncts; [exact Hfirst | exact Hlast | reflexivity |].
    intros r Hr.
    assert (Hle : duration r <= last - first).
    { destruct Hfirst as [_ Hfirst]. destruct Hlast as [_ Hlast].
      specialize (Hfirst (time_of r) (in_map _ _ _ Hr)).
      specialize (Hlast (time_of r + duration r)
                    (in_map (fun r => time_of r + duration r) _ _ Hr)).
      simpl in Hlast. lia. }
    split; [exact Hle|].
    unfold Js.ge, Js.lt. apply negb_true_iff, Z.ltb_ge. lia.
  - intros (r & Hr & Hnone).
    destruct (spans_not_parsed _ r Hr Hnone) as [Hmin Hmax].
    unfold Double.Math_min, Double.Math_max.
    rewrite (fold_min2_In_nan _ _ Hmin), (fold_max2_In_nan _ _ Hmax).
    reflexivity.
Qed.

Lemma accumulate_counts g r :
  (status r = passed ->
   RunGroup.passed (accumulate g r) = S (RunGroup.passed g) /\
   RunGroup.failed (accumulate g r) = RunGroup.failed g) /\
  (status r <> passed ->
   RunGroup.passed (accumulate g r) = RunGroup.passed g /\
   RunGroup.failed (accumulate g r) = S (RunGroup.failed g)).
Proof.
  simpl. unfold is_passed. split; intros Hs.
  - rewrite bool_decide_eq_true_2 by exact Hs. split; reflexivity.
  - rewrite bool_decide_eq_false_2 by exact Hs. split; reflexivity.
Qed.

End Aggregation.

(** ** Execution-mode metrics *)

Section ModeMetrics.

Lemma count_result_fold l : forall c,
  let c' := fold_left count_result l c in
  Counters.totalTests c' = (Counters.totalTests c + length l)%nat /\
  Counters.passed c' = (Counters.passed c + count_passed l)%nat /\
  Counters.failed c' = (Counters.failed c + count_other l)%nat /\
  Counters.skipped c' = (Counters.skipped c + count_skipped l)%nat /\
  Counters.totalDuration c' = Counters.totalDuration c + sum_durations l /\
  Counters.totalWallClockTime c' = Counters.totalWallClockTime c.
Proof.
  induction l as [|r l IH]; intros c; simpl.
  - unfold count_passed, count_other, count_skipped, sum_durations. simpl.
    conjuncts; try reflexivity; lia.
  - destruct (IH (count_result c r)) as (Ht & Hp & Hf & Hs & Hd & Hw).
    rewrite Ht, Hp, Hf, Hs, Hd, Hw.
    unfold count_passed, count_other, count_skipped, sum_durations. simpl.
    unfold is_passed, is_skipped.
    destruct (status r); simpl; conjuncts; try reflexivity; lia.
Qed.

Lemma all_results_cons run runList :
  all_results (run :: runList) = RunGroup.results run ++ all_results runList.
Proof. reflexivity. Qed.

Lemma count_run_fold runList : forall c,
  let c' := fold_left count_run runList c in
  let tests := all_results runList in
  Counters.totalTests c' = (Counters.totalTests c + length tests)%nat /\
  Counters.passed c' = (Counters.passed c + count_passed tests)%nat /\
  Counters.failed c' = (Counters.failed c + count_other tests)%nat /\
  Counters.skipped c' = (Counters.skipped c + count_skipped tests)%nat /\
  Counters.totalDuration c' = Counters.totalDuration c + sum_durations tests /\
  Counters.totalWallClockTime c' =
    fold_left Js.add (map RunGroup.wallClockTime runList) (Counters.totalWallClockTime c).
Proof.
  induction runList as [|run runList IH]; intros c; simpl.
  - unfold count_passed, count_other, count_skipped, sum_durations. simpl.
    conjuncts; try reflexivity; lia.
  - destruct (IH (count_run c run)) as (Ht & Hp & Hf & Hs & Hd & Hw).
    rewrite Ht, Hp, Hf, Hs, Hd, Hw. clear IH Ht Hp Hf Hs Hd Hw.
    unfold count_run.
    match goal with
    | |- context [fold_left count_result ?l ?c0] =>
        destruct (count_result_fold l c0) as (Ht & Hp & Hf & Hs & Hd & Hw)
    end.
    rewrite Ht, Hp, Hf, Hs, Hd, Hw. simpl.
    rewrite all_results_cons.
    unfold count_passed, count_other, count_skipped, sum_durations.
    rewrite !List.filter_app, !length_app, map_app, foldr_app.
    fold (sum_durations (all_results runList)).
    assert (Hsum : forall (l : list TestExecutionRecord) z,
               foldr Z.add z (map duration l) = sum_durations l + z).
    { clear. unfold sum_durations. induction l as [|x l IH]; intros z; simpl; [lia|].
      rewrite IH. lia. }
    conjuncts; try reflexivity; try lia.
    rewrite !Hsum. lia.
Qed.

(** The counts [calcMetrics] reports for a list of runs. *)
Lemma calcMetrics_counts runList mode :
  let metrics := calcMetrics runList mode in
  let tests := all_results runList in
  ExecutionModeMetrics.totalRuns metrics = length runList /\
  ExecutionModeMetrics.totalTests metrics = length tests /\
  ExecutionModeMetrics.passed metrics = count_passed tests /\
  ExecutionModeMetrics.failed metrics = count_other tests /\
  ExecutionModeMetrics.skipped metrics = count_skipped tests.
Proof.
  unfold calcMetrics. destruct runList as [|run runList].
  - simpl. conjuncts; reflexivity.
  - cbn [length Nat.eqb].
    destruct (count_run_fold (run :: runList) Counters.zero) as (Ht & Hp & Hf & Hs & _).
    cbv zeta in *. cbn [ExecutionModeMetrics.totalRuns ExecutionModeMetrics.totalTests
      ExecutionModeMetrics.passed ExecutionModeMetrics.failed ExecutionModeMetrics.skipped].
    rewrite Ht, Hp, Hf, Hs. conjuncts; reflexivity.
Qed.

Lemma calcMetrics_empty mode : calcMetrics [] mode = zero_metrics mode.
Proof. reflexivity. Qed.

End ModeMetrics.

Section StatusCounts.

(** C3.  While grouping, a record whose status is passed adds one to the
    [passed] count of its group and a record of any other status, skipped
    included, adds one to its [failed] count: in every group the reducer
    returns, [passed] is the number of passed records, [failed] the number of
    the others, and the two add up to the number of results.  The metrics of
    an execution mode count the same records three ways: passed, skipped,
    and failed for every other status, which add up to [totalTests]. *)
Theorem status_counts history m k g runList mode :
  groupRuns history = Js.Normal m ->
  m !! k = Some g ->
  let metrics := calcMetrics runList mode in
  let tests := all_results runList in
  (forall g' r,
      (status r = passed ->
       RunGroup.passed (accumulate g' r) = S (RunGroup.passed g') /\
       RunGroup.failed (accumulate g' r) = RunGroup.failed g') /\
      (status r <> passed ->
       RunGroup.passed (accumulate g' r) = RunGroup.passed g' /\
       RunGroup.failed (accumulate g' r) = S (RunGroup.failed g'))) /\
  RunGroup.passed g = count_passed (RunGroup.results g) /\
  RunGroup.failed g = count_not_passed (RunGroup.results g) /\
  (RunGroup.passed g + RunGroup.failed g = length (RunGroup.results g))%nat /\
  ExecutionModeMetrics.totalTests metrics = length tests /\
  ExecutionModeMetrics.passed metrics = count_passed tests /\
  ExecutionModeMetrics.skipped metrics = count_skipped tests /\
  ExecutionModeMetrics.failed metrics = count_other tests /\
  (ExecutionModeMetrics.passed metrics + ExecutionModeMetrics.failed metrics
   + ExecutionModeMetrics.skipped metrics
   = ExecutionModeMetrics.totalTests metrics)%nat.
Proof.
  intros Hm Hg metrics tests.
  apply groupRuns_normal in Hm as (_ & _ & Hsome).
  destruct (Hsome k g Hg) as (_ & _ & _ & Hp & Hf & _).
  destruct (calcMetrics_counts runList mode) as (_ & Ht & Hmp & Hmf & Hms).
  fold metrics tests in Ht, Hmp, Hmf, Hms.
  conjuncts; try assumption.
  - apply accumulate_counts.
  - rewrite Hp, Hf. apply count_split.
  - rewrite Ht, Hmp, Hmf, Hms. apply count_split3.
Qed.

End StatusCounts.

(** ** Every record in one group *)

Section Placement.

Lemma plain_keys_forallb history :
  forallb (fun r => negb (Js.inherited (run_key r))) history = true ->
  plain_keys history.
Proof.
  intros Hall r Hin. rewrite forallb_forall in Hall.
  apply negb_true_iff. apply Hall. exact Hin.
Qed.

(** After a reducer that returned, each record is among the results of the
    group of its key. *)
Lemma groupRuns_places history m r :
  groupRuns history = Js.Normal m ->
  In r history ->
  exists g, m !! run_key r = Some g /\ In r (RunGroup.results g).
Proof.
  intros Hm Hin. apply groupRuns_normal in Hm as (_ & Hnone & Hsome).
  destruct (m !! run_key r) as [g|] eqn:Eg.
  - exists g. split; [reflexivity|].
    destruct (Hsome _ _ Eg) as (_ & -> & _). apply keyed_In. auto.
  - apply Hnone in Eg.
    assert (Hr : In r (keyed (run_key r) history)) by (apply keyed_In; auto).
    rewrite Eg in Hr. destruct Hr.
Qed.

Lemma aggregate_places `{Host} history r :
  plain_keys history ->
  In r history ->
  exists m g, aggregate history = Js.Normal m /\
    m !! run_key r = Some g /\ In r (RunGroup.results g).
Proof.
  intros Hplain Hin. destruct (groupRuns_returns history Hplain) as [m0 Hm0].
  destruct (groupRuns_places history m0 r Hm0 Hin) as (g0 & Hg0 & Hr).
  exists (finish_run <$> m0), (finish_run g0). conjuncts.
  - unfold aggregate. rewrite Hm0. reflexivity.
  - rewrite lookup_fmap, Hg0. reflexivity.
  - rewrite finish_run_results. exact Hr.
Qed.

(** C2, amended.  For every history in which no record is filed under a
    name that object literals inherit from [Object.prototype], the reducer
    returns a mapping in which each record is among the results of exactly
    one group, the one stored under the record's key: its [runId], or
    "LEGACY-RUN" when the [runId] is missing or empty.  The results of the
    group stored under a key are the records of the history with that key,
    in order, so their number is the number of such records; records
    without a [runId] are together under "LEGACY-RUN". *)
Theorem grouping_by_run_id history :
  plain_keys history ->
  exists m, groupRuns history = Js.Normal m /\
    (forall r, In r history ->
       exists g, m !! run_key r = Some g /\ In r (RunGroup.results g)) /\
    (forall k g r, m !! k = Some g -> In r (RunGroup.results g) -> run_key r = k) /\
    (forall k g, m !! k = Some g ->
       RunGroup.id g = k /\
       RunGroup.results g = keyed k history /\
       length (RunGroup.results g) = length (keyed k history) /\
       (0 < length (RunGroup.results g))%nat) /\
    (forall r,
       (runId r = None \/ runId r = Some "" -> run_key r = "LEGACY-RUN") /\
       (forall s, runId r = Some s -> s <> "" -> run_key r = s)).
Proof.
  intros Hplain. destruct (groupRuns_returns history Hplain) as [m Hm].
  exists m. split; [exact Hm|].
  pose proof (groupRuns_normal history m Hm) as (_ & Hnone & Hsome).
  conjuncts.
  - intros r Hin. apply (groupRuns_places history m r Hm Hin).
  - intros k g r Hg Hr. destruct (Hsome k g Hg) as (_ & Hres & _).
    rewrite Hres in Hr. apply keyed_In in Hr. tauto.
  - intros k g Hg. destruct (Hsome k g Hg) as (Hid & Hres & Hne & _).
    conjuncts; [exact Hid | exact Hres | rewrite Hres; reflexivity |].
    destruct (RunGroup.results g); [congruence | simpl; lia].
  - intros r. unfold run_key, Js.or_default. split.
    + intros [-> | ->]; reflexivity.
    + intros s -> Hs. apply String.eqb_neq in Hs. rewrite Hs. reflexivity.
Qed.

End Placement.

(** Two legacy records and two records of other runs, grouped. *)
Lemma grouping_by_run_id_witness :
  exists m, groupRuns Sample.window_legacy = Js.Normal m /\
    (exists g, m !! "LEGACY-RUN" = Some g /\
       RunGroup.results g =
         [Sample.legacy "TC1" passed 40; Sample.legacy "TC2" failed 61]).
Proof.
  destruct (grouping_by_run_id Sample.window_legacy) as (m & Hm & Hplace & _ & Hres & _).
  - apply plain_keys_forallb. reflexivity.
  - exists m. split; [exact Hm|].
    destruct (Hplace (Sample.legacy "TC1" passed 40)) as (g & Hg & _).
    + left. reflexivity.
    + exists g. split; [exact Hg|].
      destruct (Hres _ _ Hg) as (_ & -> & _). reflexivity.
Defined.

(** C2 as stated fails on two kinds of history.  A record whose [runId] is
    the name of a member of [Object.prototype] makes the reducer throw, so
    that no record is placed in any group; and a record whose [runId] is the
    empty string is stored under "LEGACY-RUN", not under its [runId]. *)
Lemma grouping_counterexample :
  let inherited_id :=
    Sample.record "TC1" (Some "constructor") passed 100 "2024-01-19T08:22:46.000Z"
      (Some "test") (browser_is chromium) in
  let empty_id :=
    Sample.record "TC2" (Some "") passed 100 "2024-01-19T08:22:46.000Z"
      (Some "test") (browser_is chromium) in
  groupRuns [inherited_id] =
    Js.Throw (Js.TypeError "Cannot read properties of undefined (reading 'push')") /\
  ~ (exists m g, groupRuns [inherited_id] = Js.Normal m /\
       m !! "constructor" = Some g /\ In inherited_id (RunGroup.results g)) /\
  (exists m g, groupRuns [empty_id] = Js.Normal m /\
     m !! "" = None /\
     m !! "LEGACY-RUN" = Some g /\ RunGroup.results g = [empty_id]).
Proof.
  intros inherited_id empty_id. conjuncts.
  - reflexivity.
  - intros (m & g & Hm & _). discriminate Hm.
  - eexists _, _. conjuncts; [reflexivity | | |]; reflexivity.
Qed.

(** The run of scenario A, three records over two seconds. *)
Lemma wall_clock_time_witness :
  exists m g, aggregate Sample.scenario_A = Js.Normal m /\
    m !! "RUN-1" = Some g /\
    RunGroup.wallClockTime g = Js.Int 2200 /\
    forall r, In r (RunGroup.results g) ->
      Js.ge (RunGroup.wallClockTime g) (Js.Int (duration r)) = true.
Proof.
  destruct (aggregate_places Sample.scenario_A
              (Sample.record "TC1" (Some "RUN-1") passed 100 "1970-01-01T00:00:00.000Z"
                 (Some "test") (browser_is chromium)))
    as (m & g & Hm & Hg & _).
  - apply plain_keys_forallb. reflexivity.
  - left. reflexivity.
  - exists m, g. split; [exact Hm|]. split; [exact Hg|].
    destruct (wall_clock_time Sample.scenario_A m "RUN-1" g Hm Hg)
      as (_ & Hw & Hall & _).
    destruct (aggregate_lookup _ _ _ _ Hm Hg) as (g0 & -> & (_ & Hres & _)).
    rewrite finish_run_results, Hres in Hw, Hall |- *.
    split; [rewrite Hw; vm_compute; reflexivity|].
    destruct Hall as (first & last & _ & _ & _ & Hge).
    + split.
      * intros r Hr. vm_compute in Hr.
        destruct Hr as [<- | [<- | [<- | []]]];
          (split; [eexists; vm_compute; reflexivity|]);
          unfold small; conjuncts; vm_compute; reflexivity.
      * intros r r' Hr Hr'. vm_compute in Hr, Hr'.
        destruct Hr as [<- | [<- | [<- | []]]];
          destruct Hr' as [<- | [<- | [<- | []]]];
          unfold small; vm_compute; reflexivity.
    + intros r Hr. apply Hge. exact Hr.
Defined.

(** The claim fails where the arithmetic rounds.  A record that starts one
    millisecond after the epoch and lasts 2^53 ms: its end time 2^53 + 1 is
    not a double and becomes 2^53, so that the wall-clock time is one less
    than the duration.  And between doubles that are not whole numbers: at
    the time value 1700000000000 a duration of 0.7 ms gives a wall-clock
    time below 0.7. *)
Lemma wall_clock_counterexample :
  let r := Sample.record "TC1" (Some "RUN-1") passed (2 ^ 53) "1970-01-01T00:00:00.001Z"
             (Some "test") (browser_is chromium) in
  (exists m g,
     aggregate [r] = Js.Normal m /\ m !! "RUN-1" = Some g /\
     RunGroup.results g = [r] /\
     Sample.Date_getTime (timestamp r) = Some 1 /\
     RunGroup.wallClockTime g = Js.Int (2 ^ 53 - 1) /\
     Js.ge (RunGroup.wallClockTime g) (Js.Int (duration r)) = false) /\
  let t := Js.double_of_Z 1700000000000 in
  let d := PrimFloat.div (Js.double_of_Z 7) (Js.double_of_Z 10) in
  PrimFloat.ltb (wall_clock [(t, d)]) d = true.
Proof.
  intros r. split; [|vm_compute; reflexivity].
  eexists _, _. conjuncts; [vm_compute; reflexivity | reflexivity | ..];
    vm_compute; reflexivity.
Qed.

(** A history with a skipped record, and the metrics of its runs. *)
Lemma status_counts_witness :
  exists m g, groupRuns Sample.window_legacy = Js.Normal m /\
    m !! "RUN-3" = Some g /\
    RunGroup.passed g = 0%nat /\ RunGroup.failed g = 1%nat /\
    ExecutionModeMetrics.skipped (calcMetrics [g] "Parallel") = 1%nat /\
    ExecutionModeMetrics.failed (calcMetrics [g] "Parallel") = 0%nat.
Proof.
  destruct (groupRuns_returns Sample.window_legacy) as [m Hm].
  { apply plain_keys_forallb. reflexivity. }
  destruct (groupRuns_places Sample.window_legacy m
              (Sample.record "TC3" (Some "RUN-3") skipped 0 "2024-01-19T08:22:46.000Z"
                 (Some "test") browser_empty) Hm)
    as (g & Hg & _).
  { right. right. right. left. reflexivity. }
  exists m, g. split; [exact Hm|]. split; [exact Hg|].
  destruct (status_counts Sample.window_legacy m "RUN-3" g [g] "Parallel" Hm Hg)
    as (_ & Hp & Hf & _ & _ & _ & Hs & Ho & _).
  pose proof (groupRuns_normal _ _ Hm) as (_ & _ & Hsome).
  destruct (Hsome _ _ Hg) as (_ & Hres & _).
  rewrite Hp, Hf, Hs, Ho. unfold all_results. simpl. rewrite app_nil_r, Hres.
  conjuncts; reflexivity.
Defined.

(** ** The speed-up cell *)

Section Speedup.

Lemma suffix_x_not_dash s : s +:+ "x" <> "-".
Proof.
  destruct s as [|a s]; simpl; [discriminate|].
  intros E. injection E as _ E. destruct s; discriminate.
Qed.

(** What the cell shows is the placeholder or the quotient. *)
Lemma speedup_cell_cases (executionMetrics : ExecutionMetrics.t) :
  let p := ExecutionModeMetrics.avgRunTime (ExecutionMetrics.parallel executionMetrics) in
  let s := ExecutionModeMetrics.avgRunTime (ExecutionMetrics.sequential executionMetrics) in
  (speedup_cell executionMetrics = "-" /\
   (Js.gt p (Js.Int 0) = false \/ Js.gt s (Js.Int 0) = false)) \/
  (speedup_cell executionMetrics = Js.toFixed1 (Js.div s p) +:+ "x" /\
   Js.gt p (Js.Int 0) = true /\ Js.gt s (Js.Int 0) = true).
Proof.
  intros p s. unfold speedup_cell. fold p s.
  destruct (Js.gt p (Js.Int 0)); destruct (Js.gt s (Js.Int 0)); simpl; auto.
Qed.

Lemma partition_empty_metrics runs :
  (fst (partition_runs runs) = [] ->
   ExecutionMetrics.parallel (metrics_of_runs runs) = zero_metrics "Parallel") /\
  (snd (partition_runs runs) = [] ->
   ExecutionMetrics.sequential (metrics_of_runs runs) = zero_metrics "Sequential").
Proof.
  unfold metrics_of_runs. destruct (partition_runs runs) as [ps ss]. simpl.
  split; intros ->; reflexivity.
Qed.

(** C7.  The cell shows the quotient [sequential.avgRunTime /
    parallel.avgRunTime] only when both average run times are greater than
    zero, hence nonzero.  Whenever either of them is zero the cell is the
    placeholder "-", and so it is when a partition is empty, whose metrics
    are all zero: no quotient by zero is formed or printed. *)
Theorem speedup_placeholder (executionMetrics : ExecutionMetrics.t) :
  let p := ExecutionModeMetrics.avgRunTime (ExecutionMetrics.parallel executionMetrics) in
  let s := ExecutionModeMetrics.avgRunTime (ExecutionMetrics.sequential executionMetrics) in
  (p = Js.Int 0 \/ s = Js.Int 0 -> speedup_cell executionMetrics = "-") /\
  (speedup_cell executionMetrics <> "-" ->
   p <> Js.Int 0 /\ s <> Js.Int 0 /\
   Js.gt p (Js.Int 0) = true /\ Js.gt s (Js.Int 0) = true /\
   speedup_cell executionMetrics = Js.toFixed1 (Js.div s p) +:+ "x") /\
  (forall mode,
     calcMetrics [] mode = zero_metrics mode /\
     ExecutionModeMetrics.avgRunTime (calcMetrics [] mode) = Js.Int 0) /\
  (forall runs,
     fst (partition_runs runs) = [] \/ snd (partition_runs runs) = [] ->
     speedup_cell (metrics_of_runs runs) = "-").
Proof.
  intros p s.
  assert (Hzero : forall em : ExecutionMetrics.t,
    ExecutionModeMetrics.avgRunTime (ExecutionMetrics.parallel em) = Js.Int 0 \/
    ExecutionModeMetrics.avgRunTime (ExecutionMetrics.sequential em) = Js.Int 0 ->
    speedup_cell em = "-").
  { intros em [E | E]; unfold speedup_cell; rewrite E.
    - reflexivity.
    - replace (Js.gt (Js.Int 0) (Js.Int 0)) with false by reflexivity.
      rewrite andb_false_r. reflexivity. }
  conjuncts.
  - apply Hzero.
  - intros Hshown.
    destruct (speedup_cell_cases executionMetrics) as [[Hdash _] | (Hq & Hp & Hs)];
      [contradiction|].
    fold p s in Hq, Hp, Hs.
    conjuncts; try assumption.
    + intros E. rewrite E in Hp. discriminate.
    + intros E. rewrite E in Hs. discriminate.
  - intros mode. split; reflexivity.
  - intros runs Hempty. apply Hzero.
    destruct (partition_empty_metrics runs) as [Hp Hs].
    destruct Hempty as [E | E]; [left; rewrite (Hp E) | right; rewrite (Hs E)]; reflexivity.
Qed.

End Speedup.

(** The cell of a history with parallel runs only. *)
Lemma speedup_placeholder_witness :
  exists m, aggregate Sample.scenario_A = Js.Normal m /\
    speedup_cell (calculateExecutionModeMetrics m) = "-".
Proof.
  destruct (aggregate_returns Sample.scenario_A) as [m Hm].
  { apply plain_keys_forallb. reflexivity. }
  exists m. split; [exact Hm|].
  destruct (speedup_placeholder (calculateExecutionModeMetrics m)) as (Hzero & _).
  apply Hzero. right.
  vm_compute in Hm. injection Hm as <-. vm_compute. reflexivity.
Defined.

(** ** The history file: reading for the report, appending for the reporter *)

Section HistoryFile.

Context `{Host}.

Ltac run_io :=
  unfold mbind, Io_bind, Io.bind, Io.try_catch, Io.existsSync, Io.readFileSync,
    Io.writeFileSync, Io.print, Io.ret, Io.throw, Io.lift, parse, push in *.

(** C8.  When the history file does not exist, [generateReport] prints a
    warning and returns; when the file is there and its content is not
    JSON, it prints an error and returns.  In both cases it completes
    normally and leaves the disk as it was: no output file is written. *)
Theorem generateReport_without_history (w : Io.world) :
  no_usable_history w ->
  exists line,
    generateReport w = (Js.Normal tt, printed w [line]) /\
    Io.disk (snd (generateReport w)) = Io.disk w /\
    (Io.disk w !! HISTORY_FILE = None ->
     line = (Io.warn, "⚠️ No history found. Run tests first.")) /\
    (is_Some (Io.disk w !! HISTORY_FILE) ->
     line = (Io.error, "Error parsing history file")).
Proof.
  intros [Hnone | (rawData & Hfile & Hparse)].
  - exists (Io.warn, "⚠️ No history found. Run tests first.").
    assert (E : generateReport w =
                (Js.Normal tt,
                 printed w [(Io.warn, "⚠️ No history found. Run tests first.")])).
    { unfold generateReport. run_io. rewrite Hnone.
      rewrite bool_decide_eq_false_2 by (intros [? ?]; discriminate). reflexivity. }
    rewrite E. conjuncts; try reflexivity.
    intros [? Hsome]. congruence.
  - exists (Io.error, "Error parsing history file").
    assert (E : generateReport w =
                (Js.Normal tt, printed w [(Io.error, "Error parsing history file")])).
    { unfold generateReport. run_io. rewrite Hfile.
      rewrite bool_decide_eq_true_2 by eauto. simpl. rewrite Hfile, Hparse.
      reflexivity. }
    rewrite E. conjuncts; try reflexivity.
    intros Hnone. congruence.
Qed.

(** With a history that parses to an array of records with plain keys, and
    an output path that can be written, the report is written. *)
Lemma generateReport_writes (w : Io.world) rawData history :
  Io.disk w !! HISTORY_FILE = Some (Io.File rawData) ->
  JSON_parse rawData = Some (History history) ->
  plain_keys history ->
  REPORT_FILE ∉ Io.locked w ->
  exists html,
    fst (generateReport w) = Js.Normal tt /\
    Io.disk (snd (generateReport w)) = <[REPORT_FILE := Io.File html]> (Io.disk w).
Proof.
  intros Hfile Hparse Hplain Hfree.
  destruct (aggregate_returns history Hplain) as [runs Hruns].
  eexists. unfold generateReport, write_report. run_io. rewrite Hfile.
  rewrite bool_decide_eq_true_2 by eauto. simpl. rewrite Hfile, Hparse. simpl.
  rewrite Hruns. rewrite bool_decide_eq_false_2 by exact Hfree. simpl.
  split; reflexivity.
Qed.

(** C9, amended.  When the history file is there and reading it throws or
    its content is not JSON, [appendToHistory] takes the history to be empty,
    reports the reading error and completes normally.  The store it writes
    holds the new record alone; when the write throws as well, that error is
    reported too and the disk stays as it was. *)
Theorem appendToHistory_unreadable (historyFile : string)
  (record : TestExecutionRecord) (w : Io.world) :
  unreadable_history historyFile w ->
  let reading := (Io.error, "Error reading history file, starting fresh") in
  let writing := (Io.error, "Error writing to history file") in
  (historyFile ∉ Io.locked w ->
   appendToHistory historyFile record w =
     (Js.Normal tt,
      {| Io.disk := <[historyFile := Io.File (JSON_stringify [record])]> (Io.disk w);
         Io.locked := Io.locked w;
         Io.console := Io.console w ++ [reading] |})) /\
  (historyFile ∈ Io.locked w ->
   appendToHistory historyFile record w = (Js.Normal tt, printed w [reading; writing])) /\
  fst (appendToHistory historyFile record w) = Js.Normal tt.
Proof.
  intros Hbad reading writing.
  assert (Hfound : bool_decide (is_Some (Io.disk w !! historyFile)) = true).
  { apply bool_decide_eq_true.
    destruct Hbad as [E | (data & E & _)]; rewrite E; eauto. }
  assert (Hfree : historyFile ∉ Io.locked w ->
    appendToHistory historyFile record w =
      (Js.Normal tt,
       {| Io.disk := <[historyFile := Io.File (JSON_stringify [record])]> (Io.disk w);
          Io.locked := Io.locked w;
          Io.console := Io.console w ++ [reading] |})).
  { intros Hfree. unfold appendToHistory. run_io. rewrite Hfound. simpl.
    destruct Hbad as [E | (data & E & Hparse)]; rewrite E; [|rewrite Hparse]; simpl;
      rewrite bool_decide_eq_false_2 by exact Hfree; reflexivity. }
  assert (Hlocked : historyFile ∈ Io.locked w ->
    appendToHistory historyFile record w = (Js.Normal tt, printed w [reading; writing])).
  { intros Hlocked. unfold appendToHistory. run_io. rewrite Hfound. simpl.
    destruct Hbad as [E | (data & E & Hparse)]; rewrite E; [|rewrite Hparse]; simpl;
      rewrite bool_decide_eq_true_2 by exact Hlocked; unfold printed; simpl;
      rewrite <- app_assoc; reflexivity. }
  conjuncts; [exact Hfree | exact Hlocked |].
  destruct (decide (historyFile ∈ Io.locked w)) as [Hin | Hout].
  - rewrite (Hlocked Hin). reflexivity.
  - rewrite (Hfree Hout). reflexivity.
Qed.

(** A store that parses, but not to an array, is not taken for empty: the
    [push] throws. *)
Lemma appendToHistory_not_an_array (historyFile : string)
  (record : TestExecutionRecord) (w : Io.world) data :
  Io.disk w !! historyFile = Some (Io.File data) ->
  JSON_parse data = Some NotAnArray ->
  appendToHistory historyFile record w =
    (Js.Throw (Js.TypeError "history.push is not a function"), w).
Proof.
  intros Hfile Hparse. unfold appendToHistory. run_io. rewrite Hfile.
  rewrite bool_decide_eq_true_2 by eauto. simpl. rewrite Hfile, Hparse. reflexivity.
Qed.

End HistoryFile.

(** A history file that is not JSON: no report, an error line. *)
Lemma generateReport_without_history_witness :
  no_usable_history Sample.world_corrupt /\
  generateReport Sample.world_corrupt =
    (Js.Normal tt,
     printed Sample.world_corrupt [(Io.error, "Error parsing history file")]) /\
  Io.disk (snd (generateReport Sample.world_corrupt)) !! REPORT_FILE = None.
Proof.
  assert (Hbad : no_usable_history Sample.world_corrupt).
  { right. exists "[{ truncated". split; reflexivity. }
  split; [exact Hbad|].
  destruct (generateReport_without_history Sample.world_corrupt Hbad)
    as (line & E & Hdisk & _ & Herr).
  rewrite Hdisk, E, Herr by (eexists; reflexivity).
  split; reflexivity.
Defined.

(** Appending to a history file that is not JSON. *)
Lemma appendToHistory_unreadable_witness :
  let r := Sample.legacy "TC7" passed 12 in
  unreadable_history HISTORY_FILE Sample.world_corrupt /\
  fst (appendToHistory HISTORY_FILE r Sample.world_corrupt) = Js.Normal tt /\
  Io.disk (snd (appendToHistory HISTORY_FILE r Sample.world_corrupt)) !! HISTORY_FILE
    = Some (Io.File "[TC7]").
Proof.
  intros r.
  assert (Hbad : unreadable_history HISTORY_FILE Sample.world_corrupt).
  { right. exists "[{ truncated". split; reflexivity. }
  split; [exact Hbad|].
  destruct (appendToHistory_unreadable HISTORY_FILE r Sample.world_corrupt Hbad)
    as (Hfree & _ & Hnormal).
  split; [exact Hnormal|].
  rewrite Hfree by (vm_compute; intros Hin; inversion Hin).
  reflexivity.
Defined.

(** C9 as stated fails where the write fails as the read did: the history
    file can be neither read nor written, the append completes normally, and
    no store holding the new record has been written. *)
Lemma appendToHistory_counterexample :
  let r := Sample.legacy "TC7" passed 12 in
  let after := appendToHistory HISTORY_FILE r Sample.world_sealed in
  unreadable_history HISTORY_FILE Sample.world_sealed /\
  fst after = Js.Normal tt /\
  Io.disk (snd after) = Io.disk Sample.world_sealed /\
  Io.disk (snd after) !! HISTORY_FILE = Some Io.Unreadable /\
  Io.console (snd after) =
    [ (Io.error, "Error reading history file, starting fresh");
      (Io.error, "Error writing to history file") ].
Proof.
  intros r after. conjuncts; try reflexivity.
  left. reflexivity.
Qed.

(** ** Waiting for a stable count *)

Section StableCount.

Variables timeout stabilityThreshold pollInterval startTime : Z.

Lemma last_cons {A : Type} (x d : A) l : List.last (x :: l) d = List.last l x.
Proof.
  revert x d. induction l as [|y l IH]; intros x d; [reflexivity|].
  change (List.last (x :: y :: l) d) with (List.last (y :: l) d).
  rewrite !IH. reflexivity.
Qed.

(** An observation that differs from the last one, or comes before the
    threshold, does not close a quiet period. *)
Lemma not_quiet_after older stableStart lastCount between now now' c :
  tracked older stableStart lastCount between now ->
  now <= now' ->
  c <> lastCount \/ now' - stableStart < stabilityThreshold ->
  forall m,
    ~ ends_quiet stabilityThreshold m
        (older ++ (stableStart, lastCount) :: between ++ [(now', c)]).
Proof.
  intros (Hbetween & Hmax & Hss) Hnow Hstep m
    (older2 & t_j & between2 & t_k & E & Hall & Hquiet).
  change (older ++ (stableStart, lastCount) :: between ++ [(now', c)])
    with (older ++ ((stableStart, lastCount) :: between) ++ [(now', c)]) in E.
  change (older2 ++ (t_j, m) :: between2 ++ [(t_k, m)])
    with (older2 ++ ((t_j, m) :: between2) ++ [(t_k, m)]) in E.
  rewrite !app_assoc in E. apply app_inj_tail in E as [E Elast].
  injection Elast as -> ->.
  assert (Hrun : forall o, In o ((stableStart, lastCount) :: between) ->
                   snd o = lastCount /\ stableStart <= fst o).
  { intros o [<- | Ho]; [simpl; split; [reflexivity | lia] | auto]. }
  assert (Hrun2 : forall o, In o ((t_j, m) :: between2) -> snd o = m).
  { intros o [<- | Ho]; [reflexivity | auto]. }
  apply app_eq_app in E as [l [[Eolder El] | [Eolder El]]].
  - assert (Hm : lastCount = m).
    { apply (Hrun2 (stableStart, lastCount)). rewrite El.
      apply in_or_app. right. left. reflexivity. }
    subst m. destruct l as [|x l] using rev_ind.
    + simpl in El. injection El as -> _. lia.
    + rewrite app_assoc in Eolder. apply (Hmax _ _ Eolder).
      apply Hrun2. rewrite El, <- app_assoc. apply in_or_app. right. left. reflexivity.
  - assert (Hj : In (t_j, m) ((stableStart, lastCount) :: between)).
    { rewrite El. apply in_or_app. right. left. reflexivity. }
    apply Hrun in Hj as [Hm Hj]. simpl in Hm, Hj. lia.
Qed.

(** What the loop returns, in terms of what was observed. *)
Lemma poll_loop_sound polls : forall now lastCount stableStart how n,
  clock_monotone pollInterval polls ->
  poll_loop timeout stabilityThreshold pollInterval startTime
    now lastCount stableStart polls = Some (how, n) ->
  exists used rest,
    polls = used ++ rest /\
    n = snd (List.last (observe pollInterval now used) (now, lastCount)) /\
    (how = Deadline ->
     timeout <= fst (List.last (observe pollInterval now used) (now, lastCount)) - startTime) /\
    forall older between,
      tracked older stableStart lastCount between now ->
      (how = Stable ->
       ends_quiet stabilityThreshold n
         (older ++ (stableStart, lastCount) :: between ++ observe pollInterval now used)) /\
      (forall used1 used2,
         used = used1 ++ used2 -> used1 <> [] -> used2 <> [] \/ how = Deadline ->
         forall m,
           ~ ends_quiet stabilityThreshold m
               (older ++ (stableStart, lastCount) :: between
                  ++ observe pollInterval now used1)).
Proof.
  induction polls as [|p polls IH]; intros now lastCount stableStart how n Hclock Hloop;
    cbn [poll_loop] in Hloop;
    destruct (Z.ltb_spec (now - startTime) timeout) as [Hlt | Hge].
  - discriminate.
  - injection Hloop as <- <-. exists [], []. conjuncts; try reflexivity.
    + intros _. simpl. lia.
    + intros older between _. split; [discriminate|].
      intros [|? ?] used2 E Hne; [congruence | discriminate].
  - assert (Hp : now <= now + pollInterval + Poll.extra p)
      by (specialize (Hclock p (or_introl eq_refl)); lia).
    assert (Hrest : clock_monotone pollInterval polls)
      by (intros q Hq; apply Hclock; right; exact Hq).
    destruct (Z.eqb_spec (Poll.count p) lastCount) as [Esame | Echanged];
      cbn [negb] in Hloop.
    + destruct (Z.leb_spec stabilityThreshold
                  (now + pollInterval + Poll.extra p - stableStart)) as [Hquiet | Hnot].
      * injection Hloop as <- <-. exists [p], polls. conjuncts; try reflexivity.
        -- discriminate.
        -- intros older between (Hbetween & _). split.
           ++ intros _. simpl.
              exists older, stableStart, between, (now + pollInterval + Poll.extra p).
              rewrite Esame in *.
              conjuncts; [reflexivity | intros o Ho; apply Hbetween, Ho | exact Hquiet].
           ++ intros used1 used2 E Hne [Hne2 | Hhow]; [|discriminate].
              destruct used1 as [|q [|? ?]]; [congruence | | discriminate].
              destruct used2; [congruence | discriminate].
      * destruct (IH _ _ _ _ _ Hrest Hloop) as (used & rest & -> & Hn & Hdead & Hspec).
        exists (p :: used), rest. cbn [observe]. rewrite last_cons, Esame.
        conjuncts; [reflexivity | exact Hn | exact Hdead |].
        intros older between Htracked.
        assert (Htracked' : tracked older stableStart lastCount
                  (between ++ [(now + pollInterval + Poll.extra p, lastCount)])
                  (now + pollInterval + Poll.extra p)).
        { destruct Htracked as (Hbetween & Hmax & Hss). unfold tracked. conjuncts.
          - intros o Ho. apply in_app_or in Ho as [Ho | [<- | []]]; [auto|].
            simpl. split; [reflexivity | lia].
          - exact Hmax.
          - lia. }
        destruct (Hspec older _ Htracked') as [Hstable Hprompt].
        rewrite <- app_assoc in Hstable. split; [exact Hstable|].
        intros used1 used2 E Hne Hmore m.
        destruct used1 as [|q used1]; [congruence|]. injection E as <- E.
        destruct used1 as [|q' used1].
        -- apply (not_quiet_after older stableStart lastCount between now);
             [exact Htracked | exact Hp | right; lia].
        -- specialize (Hprompt (q' :: used1) used2 E ltac:(discriminate) Hmore m).
           rewrite <- app_assoc in Hprompt. cbn [observe]. rewrite Esame.
           exact Hprompt.
    + destruct (IH _ _ _ _ _ Hrest Hloop) as (used & rest & -> & Hn & Hdead & Hspec).
      exists (p :: used), rest. cbn [observe]. rewrite last_cons.
      conjuncts; [reflexivity | exact Hn | exact Hdead |].
      intros older between Htracked.
      assert (Htracked' : tracked (older ++ (stableStart, lastCount) :: between)
                (now + pollInterval + Poll.extra p) (Poll.count p) []
                (now + pollInterval + Poll.extra p)).
      { destruct Htracked as (Hbetween & Hmax & Hss). unfold tracked. conjuncts.
        - intros o [].
        - intros older' o' E.
          destruct between as [|b between] using rev_ind.
          + apply app_inj_tail in E as [_ <-]. exact (not_eq_sym Echanged).
          + change (older ++ (stableStart, lastCount) :: between ++ [b])
              with (older ++ ((stableStart, lastCount) :: between) ++ [b]) in E.
            rewrite app_assoc in E. apply app_inj_tail in E as [_ <-].
            destruct (Hbetween b) as [-> _];
              [apply in_or_app; right; left; reflexivity | exact (not_eq_sym Echanged)].
        - lia. }
      destruct (Hspec _ _ Htracked') as [Hstable Hprompt].
      rewrite <- app_assoc in Hstable. split; [exact Hstable|].
      intros used1 used2 E Hne Hmore m.
      destruct used1 as [|q used1]; [congruence|]. injection E as <- E.
      destruct used1 as [|q' used1].
      * apply (not_quiet_after older stableStart lastCount between now);
          [exact Htracked | exact Hp | left; exact Echanged].
      * specialize (Hprompt (q' :: used1) used2 E ltac:(discriminate) Hmore m).
        rewrite <- app_assoc in Hprompt. cbn [observe]. exact Hprompt.
  - injection Hloop as <- <-. exists [], (p :: polls). conjuncts; try reflexivity.
    + intros _. simpl. lia.
    + intros older between _. split; [discriminate|].
      intros [|? ?] used2 E Hne; [congruence | discriminate].
Qed.

(** The loop ends while the page still answers. *)
Lemma poll_loop_returns polls : forall now lastCount stableStart c,
  timeout <= fst (List.last (observe pollInterval now polls) (now, c)) - startTime ->
  exists result,
    poll_loop timeout stabilityThreshold pollInterval startTime
      now lastCount stableStart polls = Some result.
Proof.
  induction polls as [|p polls IH]; intros now lastCount stableStart c Hlong;
    cbn [poll_loop];
    destruct (Z.ltb_spec (now - startTime) timeout) as [Hlt | Hge]; eauto.
  - simpl in Hlong. lia.
  - cbn [observe] in Hlong. rewrite last_cons in Hlong.
    destruct (negb (Poll.count p =? lastCount)); [eapply IH; exact Hlong|].
    destruct (stabilityThreshold <=? _); [eauto | eapply IH; exact Hlong].
Qed.

End StableCount.

Section StableCountClaim.

Lemma single_observation_not_quiet threshold m (o : Z * Z) :
  ~ ends_quiet threshold m [o].
Proof.
  intros (older & t_j & between & t_k & E & _).
  apply (f_equal (@length _)) in E.
  rewrite length_app in E. cbn [length] in E. rewrite length_app in E.
  cbn [length] in E. lia.
Qed.

(** C5, amended.  On a page that answers until the deadline, with a clock
    that does not go back, [waitForStableCount] resolves and never rejects.
    It resolves with the count last observed: from inside the loop at the
    first poll at which the observations end with a quiet period of at least
    [stabilityThreshold] milliseconds, and after the loop, when no poll
    ended such a period and the time since the call has reached [timeout],
    with the last count observed, in place of a timeout error. *)
Theorem waitForStableCount_resolves (page : Page.t) (options : WaitOptions.t) :
  clock_monotone (interval_of options) (Page.polls page) ->
  answers_until (timeout_of options) (interval_of options) page ->
  exists how n used rest,
    run_waitForStableCount page options = Some (how, n) /\
    waitForStableCount page options = Some (Js.Normal n) /\
    (forall e, waitForStableCount page options <> Some (Js.Throw e)) /\
    Page.polls page = used ++ rest /\
    n = snd (List.last (observations (interval_of options) page used) (0, 0)) /\
    (how = Stable ->
     ends_quiet (threshold_of options) n (observations (interval_of options) page used)) /\
    (how = Deadline ->
     timeout_of options
       <= fst (List.last (observations (interval_of options) page used) (0, 0))
          - Page.now page /\
     forall m,
       ~ ends_quiet (threshold_of options) m
           (observations (interval_of options) page used)) /\
    (forall used1 used2,
       used = used1 ++ used2 -> used2 <> [] ->
       forall m,
         ~ ends_quiet (threshold_of options) m
             (observations (interval_of options) page used1)).
Proof.
  intros Hclock Hlong. unfold answers_until, observations in Hlong.
  rewrite last_cons in Hlong.
  destruct (poll_loop_returns (timeout_of options) (threshold_of options)
              (interval_of options) (Page.now page) (Page.polls page)
              (Page.now page + Poll.extra (Page.first page))
              (Poll.count (Page.first page))
              (Page.now page + Poll.extra (Page.first page)) _ Hlong)
    as [[how n] Hrun].
  destruct (poll_loop_sound _ _ _ _ _ _ _ _ _ _ Hclock Hrun)
    as (used & rest & Hpolls & Hn & Hdead & Hspec).
  destruct (Hspec [] []) as [Hstable Hprompt].
  { unfold tracked. conjuncts.
    - intros o [].
    - intros [|? ?] o' E; discriminate E.
    - lia. }
  assert (Hrun' : run_waitForStableCount page options = Some (how, n))
    by exact Hrun.
  assert (Hwait : waitForStableCount page options = Some (Js.Normal n))
    by (unfold waitForStableCount; rewrite Hrun'; reflexivity).
  exists how, n, used, rest. unfold observations. rewrite last_cons.
  conjuncts; try assumption.
  - intros e. rewrite Hwait. discriminate.
  - intros Hhow. split; [exact (Hdead Hhow)|].
    intros m. destruct used as [|p used].
    + apply single_observation_not_quiet.
    + apply (Hprompt (p :: used) []);
        [symmetry; apply app_nil_r | discriminate | right; exact Hhow].
  - intros used1 used2 E Hne m. destruct used1 as [|p used1].
    + apply single_observation_not_quiet.
    + apply (Hprompt (p :: used1) used2 E); [discriminate | left; exact Hne].
Qed.

End StableCountClaim.

(** A page that settles: the call resolves from inside the loop. *)
Lemma waitForStableCount_resolves_witness :
  waitForStableCount Sample.settling_page Sample.quick_options = Some (Js.Normal 9) /\
  run_waitForStableCount Sample.settling_page Sample.quick_options = Some (Stable, 9).
Proof.
  destruct (waitForStableCount_resolves Sample.settling_page Sample.quick_options)
    as (how & n & used & rest & Hrun & Hwait & _).
  - intros p Hp. vm_compute in Hp.
    destruct Hp as [<- | [<- | [<- | [<- | []]]]]; vm_compute; intros E; discriminate E.
  - vm_compute. intros E. discriminate E.
  - rewrite Hwait, Hrun. vm_compute in Hrun. injection Hrun as <- <-.
    split; reflexivity.
Defined.

(** C5 as stated fails on a page whose count changes at every poll: the
    time since the call exceeds [timeout], no two successive observations
    agree, and the promise resolves, with the last count, where the claim has
    it reject with a timeout error. *)
Lemma waitForStableCount_counterexample :
  let page := Sample.restless_page in
  let options := Sample.quick_options in
  observations (interval_of options) page (Page.polls page) =
    [(1002, 1); (1057, 2); (1112, 3); (1167, 4)] /\
  timeout_of options < 1167 - Page.now page /\
  waitForStableCount page options = Some (Js.Normal 4) /\
  (forall e, waitForStableCount page options <> Some (Js.Throw e)).
Proof.
  intros page options. conjuncts; try reflexivity.
  intros e. discriminate.
Qed.

(** ** Examples *)

(** Scenario A of the specification: the group of "RUN-1". *)
Example scenario_A_group :
  exists m g, aggregate Sample.scenario_A = Js.Normal m /\
    m !! "RUN-1" = Some g /\
    RunGroup.passed g = 2%nat /\ RunGroup.failed g = 1%nat /\
    RunGroup.duration g = 450 /\
    RunGroup.wallClockTime g = Js.Int 2200 /\
    RunGroup.executionMode g = RunGroup.parallel /\
    RunGroup.browsers g = [chromium; firefox].
Proof. eexists _, _. conjuncts; [vm_compute; reflexivity | reflexivity | ..]; reflexivity. Qed.

(** A time stamp that does not parse shows as NaN in the wall-clock time
    and in the average run time, and hides the speed-up. *)
Example malformed_timestamp :
  let r := Sample.record "TC1" (Some "RUN-9") passed 100 "yesterday"
             (Some "sequential") (browser_is webkit) in
  exists m g, aggregate [r] = Js.Normal m /\
    m !! "RUN-9" = Some g /\
    RunGroup.wallClockTime g = Js.NaN /\
    ExecutionModeMetrics.avgRunTime
      (ExecutionMetrics.sequential (calculateExecutionModeMetrics m)) = Js.NaN /\
    speedup_cell (calculateExecutionModeMetrics m) = "-".
Proof.
  intros r. eexists _, _.
  conjuncts; [vm_compute; reflexivity | reflexivity | ..]; vm_compute; reflexivity.
Qed.

(** The percentages are rounded from doubles: 29 of 200 is 14.5 percent
    exactly, 14.499999999999998 in double precision, and shows as 14. *)
Example percent_29_of_200 : percent 29 200 = Js.Int 14.
Proof. vm_compute. reflexivity. Qed.

Example percent_1_of_8 : percent 1 8 = Js.Int 13.
Proof. vm_compute. reflexivity. Qed.

(** What the cell's guard keeps from the page. *)
Example quotient_by_zero :
  Js.toFixed1 (Js.div (Js.Int 2200) (Js.Int 0)) = "Infinity" /\
  Js.toFixed1 (Js.div (Js.Int 0) (Js.Int 0)) = "NaN".
Proof. split; vm_compute; reflexivity. Qed.

(** A sequential run four times as long as a parallel one. *)
Example speedup_4x :
  let metrics runTime :=
    {| ExecutionModeMetrics.mode := "";
       ExecutionModeMetrics.totalRuns := 1; ExecutionModeMetrics.totalTests := 10;
       ExecutionModeMetrics.avgDuration := Js.Int 900;
       ExecutionModeMetrics.avgRunTime := Js.Int runTime;
       ExecutionModeMetrics.passRate := Js.Int 100;
       ExecutionModeMetrics.passed := 10; ExecutionModeMetrics.failed := 0;
       ExecutionModeMetrics.skipped := 0 |} in
  speedup_cell {| ExecutionMetrics.parallel := metrics 2250;
                  ExecutionMetrics.sequential := metrics 9100 |} = "4.0x".
Proof. vm_compute. reflexivity. Qed.

(** The report of a history that parses, in the sample host. *)
Example report_of_empty_history :
  let w := {| Io.disk := {[ HISTORY_FILE := Io.File "[]" ]};
              Io.locked := ∅; Io.console := [] |} in
  fst (generateReport w) = Js.Normal tt /\
  Io.disk (snd (generateReport w)) !! REPORT_FILE = Some (Io.File "<html>-</html>").
Proof. intros w. split; vm_compute; reflexivity. Qed.

(** The default options: five seconds, a hundred milliseconds, fifty. *)
Example default_options :
  let options := {| WaitOptions.timeout := None;
                    WaitOptions.stabilityThreshold := None;
                    WaitOptions.pollInterval := None |} in
  timeout_of options = 5000 /\ threshold_of options = 100 /\ interval_of options = 50.
Proof. intros options. conjuncts; reflexivity. Qed.

(** * Properties of more of the code *)

(** ** What every group of the aggregation holds *)

Section Groups.

Context `{Host}.

(** A property of the first group of a key that every later record of the
    key keeps holds of every group the reducer returns. *)
Lemma groupRuns_each (P : RunGroup.t -> Prop) :
  (forall k r, P (accumulate (new_group k r) r)) ->
  (forall g r, P g -> P (accumulate g r)) ->
  forall history m, groupRuns history = Js.Normal m ->
  forall k g, m !! k = Some g -> P g.
Proof.
  intros Hnew Hkeep.
  induction history as [|r history IH] using rev_ind; intros m Hm k g Hg.
  - injection Hm as <-. rewrite lookup_empty in Hg. discriminate.
  - rewrite groupRuns_snoc in Hm.
    destruct (groupRuns history) as [m0|e]; [|discriminate].
    simpl in Hm. unfold group_step in Hm.
    destruct (m0 !! run_key r) as [g0|] eqn:Eg0.
    + injection Hm as <-.
      destruct (decide (run_key r = k)) as [<- | Hk].
      * rewrite lookup_insert_eq in Hg. injection Hg as <-.
        apply Hkeep. eapply IH; eauto.
      * rewrite lookup_insert_ne in Hg by exact Hk. eapply IH; eauto.
    + destruct (Js.inherited (run_key r)); [discriminate|]. injection Hm as <-.
      destruct (decide (run_key r = k)) as [<- | Hk].
      * rewrite lookup_insert_eq in Hg. injection Hg as <-. apply Hnew.
      * rewrite lookup_insert_ne in Hg by exact Hk. eapply IH; eauto.
Qed.

Lemma has_browser_spec b bs : has_browser b bs = true <-> In b bs.
Proof.
  unfold has_browser. rewrite existsb_exists. split.
  - intros (b' & Hin & Hb). apply bool_decide_eq_true in Hb. subst. exact Hin.
  - intros Hin. exists b. split; [exact Hin | apply bool_decide_eq_true; reflexivity].
Qed.

(** X1.  The groups of the aggregation are those of the keys of the history;
    each has at least one result and is classified parallel or sequential:
    no group keeps the mode [unknown] it was created with. *)
Theorem aggregate_groups history m :
  aggregate history = Js.Normal m ->
  (forall k, is_Some (m !! k) <-> exists r, In r history /\ run_key r = k) /\
  (forall k g, m !! k = Some g ->
     RunGroup.id g = k /\
     RunGroup.results g <> [] /\
     (RunGroup.executionMode g = RunGroup.parallel \/
      RunGroup.executionMode g = RunGroup.sequential)).
Proof.
  intros Hm. split.
  - intros k. apply aggregate_normal in Hm as (m0 & Hm0 & ->).
    apply groupRuns_normal in Hm0 as (_ & Hnone & _).
    rewrite lookup_fmap, fmap_is_Some, <- not_eq_None_Some, Hnone. split.
    + intros Hne. destruct (keyed k history) as [|r l] eqn:E; [congruence|].
      exists r. apply keyed_In. rewrite E. left. reflexivity.
    + intros (r & Hr) E. apply keyed_In in Hr. rewrite E in Hr. destruct Hr.
  - intros k g Hg.
    destruct (aggregate_lookup history m k g Hm Hg) as (g0 & -> & (Hid & _ & Hne & _)).
    destruct (finish_run_counts g0) as (-> & _).
    rewrite finish_run_results. conjuncts; [exact Hid | exact Hne |].
    destruct (RunGroup.results g0) as [|r rest] eqn:E; [congruence|].
    rewrite (finish_run_mode g0 r rest E). cbv zeta.
    destruct (_ || _); [left; reflexivity|].
    destruct (Js.includes _ _); [right | left]; reflexivity.
Qed.

(** X2.  A group carries the time stamp of the first record of its run, the sum
    of the durations of its records, and each browser its records name,
    once. *)
Theorem group_summary history m k g :
  aggregate history = Js.Normal m ->
  m !! k = Some g ->
  (exists r0 rest,
     RunGroup.results g = r0 :: rest /\ RunGroup.timestamp g = timestamp r0) /\
  RunGroup.duration g = sum_durations (RunGroup.results g) /\
  List.NoDup (RunGroup.browsers g) /\
  (forall b, In b (RunGroup.browsers g) <->
             exists r, In r (RunGroup.results g) /\ browser r = browser_is b).
Proof.
  intros Hm Hg.
  destruct (aggregate_lookup history m k g Hm Hg) as (g0 & -> & (_ & _ & _ & _ & _ & Hd)).
  apply aggregate_normal in Hm as (m0 & Hm0 & ->).
  rewrite lookup_fmap in Hg. destruct (m0 !! k) as [g1|] eqn:Eg1; [|discriminate].
  injection Hg as Hg.
  assert (Hsame : forall g', finish_run g' = finish_run g0 ->
            RunGroup.results g' = RunGroup.results g0 /\
            RunGroup.timestamp g' = RunGroup.timestamp g0 /\
            RunGroup.browsers g' = RunGroup.browsers g0).
  { intros g' E.
    pose proof (f_equal RunGroup.results E) as E1.
    pose proof (f_equal RunGroup.timestamp E) as E2.
    pose proof (f_equal RunGroup.browsers E) as E3.
    rewrite !finish_run_results in E1. unfold finish_run in E2, E3.
    destruct (_ <? _)%nat, (_ <? _)%nat; auto. }
  destruct (Hsame g1 Hg) as (E1 & E2 & E3).
  assert (HP : (exists r0 rest,
                  RunGroup.results g1 = r0 :: rest /\
                  RunGroup.timestamp g1 = timestamp r0) /\
               List.NoDup (RunGroup.browsers g1) /\
               (forall b, In b (RunGroup.browsers g1) <->
                  exists r, In r (RunGroup.results g1) /\ browser r = browser_is b)).
  { apply (groupRuns_each
             (fun g => (exists r0 rest,
                          RunGroup.results g = r0 :: rest /\
                          RunGroup.timestamp g = timestamp r0) /\
                       List.NoDup (RunGroup.browsers g) /\
                       (forall b, In b (RunGroup.browsers g) <->
                          exists r, In r (RunGroup.results g) /\ browser r = browser_is b)))
      with (history := history) (m := m0) (k := k); try assumption.
    - intros k' r. simpl. conjuncts.
      + exists r, []. split; reflexivity.
      + destruct (browser r); repeat constructor. intros [].
      + intros b. destruct (browser r) as [| |b'] eqn:Eb; simpl; split.
        * intros [].
        * intros (r' & [<- | []] & Hb). congruence.
        * intros [].
        * intros (r' & [<- | []] & Hb). congruence.
        * intros [<- | []]. exists r. split; [left; reflexivity | exact Eb].
        * intros (r' & [<- | []] & Hb). left. congruence.
    - intros g' r ((r0 & rest & Hres & Hts) & Hnd & Hbs). simpl. conjuncts.
      + exists r0, (rest ++ [r]). rewrite Hres. split; [reflexivity | exact Hts].
      + destruct (browser r) as [| |b]; try exact Hnd.
        destruct (has_browser b (RunGroup.browsers g')) eqn:Ehas; [exact Hnd|].
        apply (Permutation.Permutation_NoDup (Permutation.Permutation_cons_append _ _)).
        constructor; [|exact Hnd].
        intros Hin. apply has_browser_spec in Hin. congruence.
      + intros b.
        assert (Hold : In b (RunGroup.browsers g') ->
                  exists r', In r' (RunGroup.results g' ++ [r]) /\ browser r' = browser_is b).
        { intros Hin. apply Hbs in Hin as (r' & Hr' & Hb).
          exists r'. split; [apply in_or_app; left; exact Hr' | exact Hb]. }
        destruct (browser r) as [| |b'] eqn:Eb.
        * split; [exact Hold|]. intros (r' & Hr' & Hb).
          apply in_app_or in Hr' as [Hr' | [<- | []]]; [apply Hbs; eauto | congruence].
        * split; [exact Hold|]. intros (r' & Hr' & Hb).
          apply in_app_or in Hr' as [Hr' | [<- | []]]; [apply Hbs; eauto | congruence].
        * destruct (has_browser b' (RunGroup.browsers g')) eqn:Ehas.
          -- split; [exact Hold|]. intros (r' & Hr' & Hb).
             apply in_app_or in Hr' as [Hr' | [<- | []]]; [apply Hbs; eauto|].
             apply has_browser_spec. congruence.
          -- split.
             ++ intros Hin. apply in_app_or in Hin as [Hin | [<- | []]]; [auto|].
                exists r. split; [apply in_or_app; right; left; reflexivity | exact Eb].
             ++ intros (r' & Hr' & Hb). apply in_or_app.
                apply in_app_or in Hr' as [Hr' | [<- | []]];
                  [left; apply Hbs; eauto | right; left; congruence]. }
  destruct HP as (Hfirst & Hnd & Hbs).
  destruct (finish_run_counts g0) as (_ & _ & _ & Hdur).
  rewrite finish_run_results, Hdur.
  assert (Hts : RunGroup.timestamp (finish_run g0) = RunGroup.timestamp g0)
    by (unfold finish_run; destruct (_ <? _)%nat; reflexivity).
  assert (Hbr : RunGroup.browsers (finish_run g0) = RunGroup.browsers g0)
    by (unfold finish_run; destruct (_ <? _)%nat; reflexivity).
  rewrite Hts, Hbr, <- E1, <- E2, <- E3.
  conjuncts; try assumption. rewrite E1. exact Hd.
Qed.

End Groups.

(** ** The groups and the mode metrics account for every record *)

Section Coverage.

Context `{Host}.

Lemma all_results_app l1 l2 :
  all_results (l1 ++ l2) = all_results l1 ++ all_results l2.
Proof. unfold all_results. rewrite map_app, concat_app. reflexivity. Qed.

Lemma all_results_perm l1 l2 :
  Permutation l1 l2 -> Permutation (all_results l1) (all_results l2).
Proof.
  induction 1 as [|x l1 l2 _ IH|x y l|l1 l2 l3 _ IH1 _ IH2].
  - constructor.
  - rewrite !all_results_cons. apply Permutation_app_head. exact IH.
  - rewrite !all_results_cons, !app_assoc.
    apply Permutation_app_tail, Permutation_app_comm.
  - etransitivity; eassumption.
Qed.

Lemma filter_length_perm (f : TestExecutionRecord -> bool) l1 l2 :
  Permutation l1 l2 -> length (List.filter f l1) = length (List.filter f l2).
Proof.
  induction 1 as [|x l1 l2 _ IH|x y l|l1 l2 l3 _ IH1 _ IH2]; simpl.
  - reflexivity.
  - destruct (f x); simpl; congruence.
  - destruct (f x), (f y); reflexivity.
  - congruence.
Qed.

Lemma Object_values_insert_new (m : gmap string RunGroup.t) k g :
  m !! k = None -> Permutation (Object_values (<[k := g]> m)) (g :: Object_values m).
Proof.
  intros Hk. unfold Object_values. rewrite (map_to_list_insert m k g Hk). reflexivity.
Qed.

Lemma Object_values_insert_old (m : gmap string RunGroup.t) k g g' :
  m !! k = Some g ->
  exists others,
    Permutation (Object_values m) (g :: others) /\
    Permutation (Object_values (<[k := g']> m)) (g' :: others).
Proof.
  intros Hk. exists (Object_values (delete k m)). split.
  - unfold Object_values. rewrite <- (map_to_list_delete m k g Hk). reflexivity.
  - rewrite <- insert_delete_eq. apply Object_values_insert_new, lookup_delete_eq.
Qed.

Lemma Object_values_fmap (f : RunGroup.t -> RunGroup.t) (m : gmap string RunGroup.t) :
  Object_values (f <$> m) = map f (Object_values m).
Proof.
  unfold Object_values. rewrite map_to_list_fmap.
  induction (map_to_list m) as [|[k g] l IH]; simpl; [reflexivity|].
  f_equal. exact IH.
Qed.

Lemma all_results_finish_run l : all_results (map finish_run l) = all_results l.
Proof.
  induction l as [|g l IH]; [reflexivity|].
  cbn [map]. rewrite !all_results_cons, finish_run_results, IH. reflexivity.
Qed.

(** The results of the groups, put together, are the history: each record
    once. *)
Lemma groupRuns_results history : forall m,
  groupRuns history = Js.Normal m ->
  Permutation (all_results (Object_values m)) history.
Proof.
  induction history as [|r history IH] using rev_ind; intros m Hm.
  - injection Hm as <-. unfold Object_values. rewrite map_to_list_empty. constructor.
  - rewrite groupRuns_snoc in Hm.
    destruct (groupRuns history) as [m0|e]; [|discriminate].
    specialize (IH m0 eq_refl). simpl in Hm. unfold group_step in Hm.
    rewrite <- IH. clear IH.
    destruct (m0 !! run_key r) as [g|] eqn:Eg.
    + injection Hm as <-.
      destruct (Object_values_insert_old m0 (run_key r) g (accumulate g r) Eg)
        as (others & Hold & Hnew).
      rewrite (all_results_perm _ _ Hnew), (all_results_perm _ _ Hold).
      rewrite !all_results_cons. cbn [accumulate RunGroup.results].
      rewrite <- !app_assoc.
      apply Permutation_app_head.
      rewrite Permutation_app_comm. apply Permutation_app_head. reflexivity.
    + destruct (Js.inherited (run_key r)); [discriminate|]. injection Hm as <-.
      rewrite (all_results_perm _ _ (Object_values_insert_new m0 _ _ Eg)).
      rewrite all_results_cons. cbn [accumulate new_group RunGroup.results app].
      apply Permutation_cons_append.
Qed.

Lemma aggregate_results history m :
  aggregate history = Js.Normal m ->
  Permutation (all_results (Object_values m)) history.
Proof.
  intros Hm. apply aggregate_normal in Hm as (m0 & Hm0 & ->).
  rewrite Object_values_fmap, all_results_finish_run.
  apply groupRuns_results. exact Hm0.
Qed.

Lemma partition_step_perm runs : forall ps0 ss0 ps ss,
  fold_left partition_step runs (ps0, ss0) = (ps, ss) ->
  Permutation (ps ++ ss) (ps0 ++ ss0 ++ runs).
Proof.
  induction runs as [|run runs IH]; intros ps0 ss0 ps ss E; cbn [fold_left] in E.
  - injection E as <- <-. rewrite app_nil_r. reflexivity.
  - destruct (partition_step (ps0, ss0) run) as [ps1 ss1] eqn:Estep.
    rewrite (IH _ _ _ _ E). clear IH E.
    assert (Hmid : Permutation ((ps0 ++ [run]) ++ ss0 ++ runs) (ps0 ++ ss0 ++ run :: runs)).
    { rewrite <- app_assoc. apply Permutation_app_head.
      change ([run] ++ ss0 ++ runs) with (run :: ss0 ++ runs).
      apply Permutation_middle. }
    unfold partition_step in Estep.
    destruct (_ || _).
    + injection Estep as <- <-. exact Hmid.
    + destruct (Js.includes "sequential" _); injection Estep as <- <-.
      * rewrite <- !app_assoc. reflexivity.
      * exact Hmid.
Qed.

(** The runs of the two modes are all the groups, and their results are
    the history. *)
Lemma partition_covers history m ps ss :
  aggregate history = Js.Normal m ->
  partition_runs (Object_values m) = (ps, ss) ->
  (length ps + length ss = size m)%nat /\
  Permutation (all_results ps ++ all_results ss) history.
Proof.
  intros Hm Epart. apply partition_step_perm in Epart. simpl in Epart. split.
  - rewrite <- length_app, (Permutation_length Epart).
    unfold Object_values. rewrite length_fmap. apply length_map_to_list.
  - rewrite <- all_results_app, (all_results_perm _ _ Epart).
    apply aggregate_results. exact Hm.
Qed.

(** X3.  The two execution modes share out the runs and the records of the
    history: the runs of the two modes are all the groups, and their tests,
    passed, failed and skipped counts add up to those of the whole
    history. *)
Theorem mode_metrics_cover history m :
  aggregate history = Js.Normal m ->
  let par := ExecutionMetrics.parallel (calculateExecutionModeMetrics m) in
  let seq := ExecutionMetrics.sequential (calculateExecutionModeMetrics m) in
  (ExecutionModeMetrics.totalRuns par + ExecutionModeMetrics.totalRuns seq = size m)%nat /\
  (ExecutionModeMetrics.totalTests par + ExecutionModeMetrics.totalTests seq
   = length history)%nat /\
  (ExecutionModeMetrics.passed par + ExecutionModeMetrics.passed seq
   = count_passed history)%nat /\
  (ExecutionModeMetrics.failed par + ExecutionModeMetrics.failed seq
   = count_other history)%nat /\
  (ExecutionModeMetrics.skipped par + ExecutionModeMetrics.skipped seq
   = count_skipped history)%nat.
Proof.
  intros Hm par seq. subst par seq.
  unfold calculateExecutionModeMetrics, metrics_of_runs.
  destruct (partition_runs (Object_values m)) as [ps ss] eqn:Epart.
  cbn [ExecutionMetrics.parallel ExecutionMetrics.sequential].
  destruct (partition_covers history m ps ss Hm Epart) as [Hruns Hhist].
  destruct (calcMetrics_counts ps "Parallel") as (Hr1 & Ht1 & Hp1 & Hf1 & Hs1).
  destruct (calcMetrics_counts ss "Sequential") as (Hr2 & Ht2 & Hp2 & Hf2 & Hs2).
  cbv zeta in *. rewrite Hr1, Ht1, Hp1, Hf1, Hs1, Hr2, Ht2, Hp2, Hf2, Hs2.
  unfold count_passed, count_other, count_skipped.
  rewrite <- !(filter_length_perm _ _ _ Hhist), <- (Permutation_length Hhist).
  rewrite !List.filter_app, !length_app.
  conjuncts; try reflexivity. exact Hruns.
Qed.

(** The sum of a count over the groups is the count over the history. *)
Lemma sum_over_groups history m (f : TestExecutionRecord -> bool)
  (field : RunGroup.t -> nat) :
  aggregate history = Js.Normal m ->
  (forall k g, m !! k = Some g ->
     field g = length (List.filter f (RunGroup.results g))) ->
  list_sum (map field (Object_values m)) = length (List.filter f history).
Proof.
  intros Hm Hfield.
  rewrite <- (filter_length_perm f _ _ (aggregate_results history m Hm)).
  assert (Hall : forall g, In g (Object_values m) ->
            field g = length (List.filter f (RunGroup.results g))).
  { intros g Hin. unfold Object_values in Hin.
    apply list_elem_of_In, list_elem_of_fmap in Hin as ([k g'] & -> & Hin).
    apply elem_of_map_to_list in Hin. eapply Hfield. exact Hin. }
  induction (Object_values m) as [|g l IH]; [reflexivity|].
  rewrite all_results_cons, List.filter_app, length_app. cbn [map].
  change (list_sum (field g :: map field l))
    with (field g + list_sum (map field l))%nat.
  rewrite IH by (intros; apply Hall; right; assumption).
  rewrite Hall by (left; reflexivity). reflexivity.
Qed.

(** X4.  The counts on the run cards against those of the modes: the [passed]
    of the groups add up to the passed tests of the two modes, their
    [failed] to the failed and the skipped tests together. *)
Theorem run_counts_against_mode_counts history m :
  aggregate history = Js.Normal m ->
  let par := ExecutionMetrics.parallel (calculateExecutionModeMetrics m) in
  let seq := ExecutionMetrics.sequential (calculateExecutionModeMetrics m) in
  list_sum (map RunGroup.passed (Object_values m))
    = (ExecutionModeMetrics.passed par + ExecutionModeMetrics.passed seq)%nat /\
  list_sum (map RunGroup.failed (Object_values m))
    = (ExecutionModeMetrics.failed par + ExecutionModeMetrics.failed seq
       + (ExecutionModeMetrics.skipped par + ExecutionModeMetrics.skipped seq))%nat.
Proof.
  intros Hm par seq. subst par seq.
  unfold calculateExecutionModeMetrics, metrics_of_runs.
  destruct (partition_runs (Object_values m)) as [ps ss] eqn:Epart.
  cbn [ExecutionMetrics.parallel ExecutionMetrics.sequential].
  destruct (partition_covers history m ps ss Hm Epart) as [_ Hhist].
  destruct (calcMetrics_counts ps "Parallel") as (_ & _ & Hp1 & Hf1 & Hs1).
  destruct (calcMetrics_counts ss "Sequential") as (_ & _ & Hp2 & Hf2 & Hs2).
  cbv zeta in *. rewrite Hp1, Hf1, Hs1, Hp2, Hf2, Hs2.
  rewrite (sum_over_groups history m (fun r => is_passed (status r))),
    (sum_over_groups history m (fun r => negb (is_passed (status r)))); try exact Hm.
  - pose proof (count_split history) as H2. pose proof (count_split3 history) as H3.
    unfold count_passed, count_not_passed, count_other, count_skipped in *.
    rewrite <- !(filter_length_perm _ _ _ Hhist) in *.
    rewrite !List.filter_app, !length_app in *. lia.
  - intros k g Hg.
    destruct (aggregate_lookup history m k g Hm Hg)
      as (g0 & -> & (_ & _ & _ & _ & Hfail & _)).
    destruct (finish_run_counts g0) as (_ & _ & -> & _).
    rewrite finish_run_results. exact Hfail.
  - intros k g Hg.
    destruct (aggregate_lookup history m k g Hm Hg) as (g0 & -> & (_ & _ & _ & Hpass & _)).
    destruct (finish_run_counts g0) as (_ & -> & _).
    rewrite finish_run_results. exact Hpass.
Qed.

End Coverage.

(** ** The global figures *)

Section GlobalFigures.

Lemma filter_length_le (f g : TestExecutionRecord -> bool) l :
  (forall r, f r = true -> g r = true) ->
  (length (List.filter f l) <= length (List.filter g l))%nat.
Proof.
  intros Hfg. induction l as [|r l IH]; simpl; [lia|].
  destruct (f r) eqn:Ef.
  - rewrite (Hfg r Ef). simpl. lia.
  - destruct (g r); simpl; lia.
Qed.

(** X5.  The figures of the overview are taken over the last hundred records of
    the history, in the order of the file: [total] is their number, every
    one of them is passed or failed, the skipped ones are among the failed,
    and the totals of the browser table add up to [total].  For an empty
    history the pass rate and the average duration read "0". *)
Theorem global_stats_window history :
  let stats := global_stats history in
  let recentHistory := slice_last 100 history in
  (exists older, history = older ++ recentHistory) /\
  GlobalStats.total stats = Nat.min 100 (length history) /\
  (GlobalStats.passed stats + GlobalStats.failed stats = GlobalStats.total stats)%nat /\
  (GlobalStats.skipped stats <= GlobalStats.failed stats)%nat /\
  list_sum (map BrowserStats.total (calculateBrowserStats recentHistory))
    = GlobalStats.total stats /\
  (history = [] ->
   GlobalStats.passRate stats = "0" /\ GlobalStats.avgDuration stats = "0").
Proof.
  intros stats recentHistory. subst stats. unfold global_stats. fold recentHistory.
  cbn [GlobalStats.total GlobalStats.passed GlobalStats.failed GlobalStats.skipped
       GlobalStats.passRate GlobalStats.avgDuration].
  conjuncts.
  - exists (take (length history - 100) history). symmetry. apply take_drop.
  - subst recentHistory. unfold slice_last. rewrite length_drop. lia.
  - apply (count_split recentHistory).
  - apply filter_length_le. intros r. unfold is_skipped, is_passed.
    destruct (status r); simpl; congruence.
  - apply browser_totals_cover.
  - intros ->. split; vm_compute; reflexivity.
Qed.

End GlobalFigures.

(** ** The order of [Object.values] *)

Section Enumeration.

Context `{Host}.














End Enumeration.

(** ** The runs in display order *)

Section DisplayOrder.

Context `{Host}.










End DisplayOrder.

(** ** The run time chart *)

Section Chart.

Context `{Host}.





End Chart.

(** ** The mode metrics and the classification of the runs *)

Section Classified.

Context `{Host}.

Lemma partition_classified runs : forall ps0 ss0,
  Forall mode_follows_tag runs ->
  fold_left partition_step runs (ps0, ss0)
  = (ps0 ++ List.filter (classified RunGroup.parallel) runs,
     ss0 ++ List.filter (classified RunGroup.sequential) runs).
Proof.
  induction runs as [|run runs IH]; intros ps0 ss0 Hall.
  - cbn [fold_left List.filter]. rewrite !app_nil_r. reflexivity.
  - inversion Hall as [|? ? Hrun Hruns]; subst.
    cbn [fold_left List.filter]. unfold mode_follows_tag in Hrun. cbv zeta in Hrun.
    assert (Hp : classified RunGroup.parallel run
                 = match RunGroup.executionMode run with
                   | RunGroup.parallel => true | _ => false end).
    { unfold classified. destruct (RunGroup.executionMode run); reflexivity. }
    assert (Hs : classified RunGroup.sequential run
                 = match RunGroup.executionMode run with
                   | RunGroup.sequential => true | _ => false end).
    { unfold classified. destruct (RunGroup.executionMode run); reflexivity. }
    rewrite Hp, Hs, Hrun. unfold partition_step at 2.
    destruct (_ || _).
    + rewrite (IH _ _ Hruns), <- app_assoc. reflexivity.
    + destruct (Js.includes "sequential" _).
      * rewrite (IH _ _ Hruns), <- app_assoc. reflexivity.
      * rewrite (IH _ _ Hruns), <- app_assoc. reflexivity.
Qed.

Lemma aggregate_mode_follows_tag history m :
  aggregate history = Js.Normal m ->
  Forall mode_follows_tag (Object_values m).
Proof.
  intros Hm. apply List.Forall_forall. intros g Hg.
  unfold Object_values in Hg.
  apply list_elem_of_In, list_elem_of_fmap in Hg as ([k g'] & -> & Hin).
  apply elem_of_map_to_list in Hin. simpl.
  destruct (aggregate_lookup history m k g' Hm Hin) as (g0 & -> & (_ & _ & Hne & _)).
  unfold mode_follows_tag. rewrite first_mode_finish_run.
  destruct (RunGroup.results g0) as [|r rest] eqn:E; [congruence|].
  rewrite (finish_run_mode g0 r rest E). unfold first_mode. rewrite E. reflexivity.
Qed.

(** X7.  [calculateExecutionModeMetrics] sorts the runs of an aggregated
    history exactly as [generateReport] has classified them: its parallel
    metrics are those of the runs classified parallel, in order, and its
    sequential metrics those of the runs classified sequential. *)
Theorem mode_metrics_follow_classification history m :
  aggregate history = Js.Normal m ->
  calculateExecutionModeMetrics m
  = {| ExecutionMetrics.parallel :=
         calcMetrics (List.filter (classified RunGroup.parallel) (Object_values m))
           "Parallel";
       ExecutionMetrics.sequential :=
         calcMetrics (List.filter (classified RunGroup.sequential) (Object_values m))
           "Sequential" |}.
Proof.
  intros Hm. unfold calculateExecutionModeMetrics, metrics_of_runs, partition_runs.
  rewrite (partition_classified _ [] [] (aggregate_mode_follows_tag _ _ Hm)).
  reflexivity.
Qed.

End Classified.
(** ** The run id of the reporter *)

Section RunId.

Context `{Host}.

Lemma map_string_substring f n s :
  map_string f (String.substring 0 n s) = String.substring 0 n (map_string f s).
Proof.
  revert s. induction n as [|n IH]; intros [|c s]; simpl; try reflexivity.
  rewrite IH. reflexivity.
Qed.

Lemma substring_idempotent n s :
  String.substring 0 n (String.substring 0 n s) = String.substring 0 n s.
Proof.
  revert s. induction n as [|n IH]; intros [|c s]; simpl; try reflexivity.
  rewrite IH. reflexivity.
Qed.

Lemma make_runId_second iso :
  make_runId (String.substring 0 19 iso) = make_runId iso.
Proof.
  unfold make_runId. rewrite map_string_substring, substring_idempotent. reflexivity.
Qed.

Lemma make_runId_key iso r :
  runId r = Some (make_runId iso) ->
  run_key r = make_runId iso /\ Js.inherited (run_key r) = false.
Proof.
  intros E. unfold run_key. rewrite E. split; reflexivity.
Qed.

Lemma keyed_all k history :
  Forall (fun r => run_key r = k) history -> keyed k history = history.
Proof.
  unfold keyed. induction 1 as [|r l Hr _ IH]; simpl; [reflexivity|].
  rewrite Hr, String.eqb_refl, IH. reflexivity.
Qed.

Lemma keyed_none k k' history :
  k' <> k -> Forall (fun r => run_key r = k) history -> keyed k' history = [].
Proof.
  intros Hne. unfold keyed. induction 1 as [|r l Hr _ IH]; simpl; [reflexivity|].
  rewrite Hr. destruct (String.eqb_spec k k'); [congruence | exact IH].
Qed.

(** X8.  The run id keeps the time of construction to the second: the
    records written by reporters constructed within the same second are
    aggregated into a single run, filed under the id of that second, which
    holds them all, in order. *)
Theorem reporter_runs_of_one_second second history :
  history <> [] ->
  Forall (fun r => exists iso,
            runId r = Some (make_runId iso) /\ String.substring 0 19 iso = second)
         history ->
  exists g,
    aggregate history = Js.Normal {[ make_runId second := g ]} /\
    RunGroup.id g = make_runId second /\
    RunGroup.results g = history.
Proof.
  intros Hne Hall.
  assert (Hkeys : Forall (fun r => run_key r = make_runId second) history).
  { eapply Forall_impl; [|exact Hall]. intros r (iso & E & <-).
    rewrite make_runId_second. apply (make_runId_key _ _ E). }
  destruct (aggregate_returns history) as [m Hm].
  { intros r Hr. rewrite List.Forall_forall in Hkeys. rewrite (Hkeys r Hr). reflexivity. }
  destruct (aggregate_normal _ _ Hm) as (m0 & Hm0 & ->).
  destruct (groupRuns_normal _ _ Hm0) as (_ & Hnone & Hsome).
  destruct (m0 !! make_runId second) as [g0|] eqn:Eg.
  - exists (finish_run g0).
    destruct (Hsome _ _ Eg) as (Hid & Hres & _).
    rewrite finish_run_results, Hres, keyed_all by exact Hkeys.
    destruct (finish_run_counts g0) as (Hid' & _).
    split; [|split; [congruence | reflexivity]].
    rewrite Hm. f_equal. apply map_eq. intros k.
    rewrite lookup_fmap.
    destruct (decide (k = make_runId second)) as [->|Hk].
    + rewrite Eg, lookup_singleton_eq. reflexivity.
    + rewrite lookup_singleton_ne by congruence.
      destruct (Hnone k) as (_ & Hk0). rewrite Hk0; [reflexivity|].
      apply (keyed_none (make_runId second)); [exact Hk | exact Hkeys].
  - apply Hnone in Eg. rewrite keyed_all in Eg by exact Hkeys. contradiction.
Qed.

End RunId.
(** ** Titles *)

Section Titles.

Lemma append_assoc s1 s2 s3 : (s1 +:+ s2) +:+ s3 = s1 +:+ s2 +:+ s3.
Proof.
  induction s1 as [|c s1 IH]; [reflexivity|].
  change (String c ((s1 +:+ s2) +:+ s3) = String c (s1 +:+ s2 +:+ s3)).
  rewrite IH. reflexivity.
Qed.

Lemma append_empty_r s : s +:+ "" = s.
Proof.
  induction s as [|c s IH]; [reflexivity|].
  change (String c (s +:+ "") = String c s). rewrite IH. reflexivity.
Qed.

Lemma code_inj c n : (code c =? n)%N = true -> c = ascii_of_N n.
Proof.
  intros E. apply N.eqb_eq in E. rewrite <- E. unfold code.
  symmetry. apply ascii_N_embedding.
Qed.

Lemma trimStart_white w s : In w white_space -> trimStart (w +:+ s) = trimStart s.
Proof.
  intros Hw. vm_compute in Hw.
  repeat (destruct Hw as [<- | Hw]; [reflexivity|]). destruct Hw.
Qed.

Lemma trimStart_blank b s : blank b -> trimStart (b +:+ s) = trimStart s.
Proof.
  induction 1 as [|w b Hw _ IH]; [reflexivity|].
  rewrite append_assoc, trimStart_white by exact Hw. exact IH.
Qed.

Lemma space1_white c : space1 c = true -> In (String c "") white_space.
Proof.
  destruct c as [[] [] [] [] [] [] [] []]; vm_compute; intros E; try discriminate E;
    tauto.
Qed.

Lemma space2_white c1 c2 :
  space2 c1 c2 = true -> In (String c1 (String c2 "")) white_space.
Proof.
  unfold space2. intros E. apply andb_prop in E as (E1 & E2).
  apply code_inj in E1, E2. subst. vm_compute. tauto.
Qed.

Lemma space3_white c1 c2 c3 :
  space3 c1 c2 c3 = true -> In (String c1 (String c2 (String c3 ""))) white_space.
Proof.
  unfold space3. intros E.
  repeat match type of E with
         | (_ || _ = true) => apply orb_prop in E as [E|E]
         end;
    apply andb_prop in E as (E12 & E3); apply andb_prop in E12 as (E1 & E2);
    apply code_inj in E1, E2; subst c1 c2;
    destruct c3 as [[] [] [] [] [] [] [] []]; vm_compute in E3; try discriminate E3;
    vm_compute; tauto.
Qed.

Lemma trimStart_black s : starts_black s -> trimStart s = s.
Proof.
  intros Hs.
  assert (H1 : forall c s', s = String c s' -> space1 c = false).
  { intros c s' ->. destruct (space1 c) eqn:E; [|reflexivity].
    apply space1_white in E. apply Hs in E. simpl in E.
    rewrite Ascii.eqb_refl in E. discriminate E. }
  assert (H2 : forall c1 c2 s', s = String c1 (String c2 s') -> space2 c1 c2 = false).
  { intros c1 c2 s' ->. destruct (space2 c1 c2) eqn:E; [|reflexivity].
    apply space2_white in E. apply Hs in E. simpl in E.
    rewrite !Ascii.eqb_refl in E. discriminate E. }
  assert (H3 : forall c1 c2 c3 s', s = String c1 (String c2 (String c3 s')) ->
                 space3 c1 c2 c3 = false).
  { intros c1 c2 c3 s' ->. destruct (space3 c1 c2 c3) eqn:E; [|reflexivity].
    apply space3_white in E. apply Hs in E. simpl in E.
    rewrite !Ascii.eqb_refl in E. discriminate E. }
  destruct s as [|c1 [|c2 [|c3 s3]]]; simpl; try reflexivity.
  - rewrite (H1 _ _ eq_refl). reflexivity.
  - rewrite (H1 _ _ eq_refl), (H2 _ _ _ eq_refl). reflexivity.
  - rewrite (H1 _ _ eq_refl), (H2 _ _ _ eq_refl), (H3 _ _ _ _ eq_refl). reflexivity.
Qed.

(** What [trimStart] removes is white space, and what it leaves does not
    begin with white space. *)
Lemma trimStart_split : forall n s, (String.length s <= n)%nat ->
  exists b, blank b /\ s = b +:+ trimStart s.
Proof.
  induction n as [|n IH]; intros s Hn.
  { destruct s; [|simpl in Hn; lia]. exists "". split; [constructor | reflexivity]. }
  destruct s as [|c1 s1]; [exists ""; split; [constructor | reflexivity]|].
  simpl in Hn. cbn [trimStart].
  destruct (space1 c1) eqn:E1.
  { destruct (IH s1) as (b & Hb & Es); [lia|].
    exists (String c1 "" +:+ b). split.
    - constructor; [apply space1_white; exact E1 | exact Hb].
    - rewrite Es at 1. reflexivity. }
  destruct s1 as [|c2 s2]; [exists ""; split; [constructor | reflexivity]|].
  simpl in Hn.
  destruct (space2 c1 c2) eqn:E2.
  { destruct (IH s2) as (b & Hb & Es); [lia|].
    exists (String c1 (String c2 "") +:+ b). split.
    - constructor; [apply space2_white; exact E2 | exact Hb].
    - rewrite Es at 1. reflexivity. }
  destruct s2 as [|c3 s3]; [exists ""; split; [constructor | reflexivity]|].
  simpl in Hn.
  destruct (space3 c1 c2 c3) eqn:E3.
  { destruct (IH s3) as (b & Hb & Es); [lia|].
    exists (String c1 (String c2 (String c3 "")) +:+ b). split.
    - constructor; [apply space3_white; exact E3 | exact Hb].
    - rewrite Es at 1. reflexivity. }
  exists "". split; [constructor | reflexivity].
Qed.

End Titles.

Section TitleFields.

Lemma all_digits_cons c ds :
  all_digits (String c ds) = is_digit c && all_digits ds.
Proof.
  cbn [all_digits]. f_equal.
  destruct c as [[] [] [] [] [] [] [] []]; vm_compute; reflexivity.
Qed.

Lemma take_digits_app ds c rest :
  all_digits ds = true -> is_digit c = false ->
  take_digits (ds +:+ String c rest) = (ds, String c rest).
Proof.
  intros Hds Hc. induction ds as [|d ds IH].
  - change (take_digits (String c rest) = ("", String c rest)).
    cbn [take_digits]. rewrite Hc. reflexivity.
  - rewrite all_digits_cons in Hds. apply andb_prop in Hds as (Hd & Hds).
    change (take_digits (String d (ds +:+ String c rest)) = (String d ds, String c rest)).
    cbn [take_digits]. rewrite Hd, (IH Hds). reflexivity.
Qed.

Lemma take_digits_all ds :
  all_digits ds = true -> take_digits ds = (ds, "").
Proof.
  induction ds as [|d ds IH]; intros Hds; [reflexivity|].
  rewrite all_digits_cons in Hds. apply andb_prop in Hds as (Hd & Hds).
  cbn [take_digits]. rewrite Hd, (IH Hds). reflexivity.
Qed.

Lemma take_digits_split s : forall ds rest,
  take_digits s = (ds, rest) -> s = ds +:+ rest /\ all_digits ds = true.
Proof.
  induction s as [|c s IH]; intros ds rest E; cbn [take_digits] in E.
  - injection E as <- <-. split; reflexivity.
  - destruct (is_digit c) eqn:Ec.
    + destruct (take_digits s) as [ds' rest'] eqn:Es. injection E as <- <-.
      destruct (IH _ _ eq_refl) as (-> & Hds). split; [reflexivity|].
      rewrite all_digits_cons, Ec, Hds. reflexivity.
    + injection E as <- <-. split; reflexivity.
Qed.

Lemma digit_is_black c s :
  is_digit c = true ->
  trimStart (String c s) = String c s /\
  match String c s with
  | String "-" s' => (true, s')
  | String "+" s' => (false, s')
  | _ => (false, String c s)
  end = (false, String c s).
Proof.
  destruct c as [[] [] [] [] [] [] [] []]; intros E; try discriminate E;
    (split; [|reflexivity]);
    destruct s as [|c2 [|c3 s3]]; reflexivity.
Qed.

Lemma parseInt10_digits ds :
  ds <> "" -> all_digits ds = true -> parseInt10 ds = Some (decimal 0 ds).
Proof.
  intros Hne Hds. destruct ds as [|c ds]; [congruence|].
  pose proof Hds as Hc. rewrite all_digits_cons in Hc. apply andb_prop in Hc as (Hc & _).
  destruct (digit_is_black c ds Hc) as (Ht & Hsign).
  unfold parseInt10. rewrite Ht, Hsign, (take_digits_all _ Hds). reflexivity.
Qed.

Lemma category_of_id ds :
  ds <> "" -> all_digits ds = true ->
  getTestCategory ("TC" +:+ ds) = category_of_number (decimal 0 ds).
Proof.
  intros Hne Hds. unfold getTestCategory.
  change (remove_first "TC" ("TC" +:+ ds)) with ds.
  rewrite (parseInt10_digits _ Hne Hds). unfold category_of_number.
  repeat match goal with
         | |- context [?a <=? ?b] => destruct (Z.leb_spec a b)
         end; cbn [andb]; repeat case_decide; try reflexivity; lia.
Qed.

Lemma has_line_terminator_false s :
  has_line_terminator s = false <-> one_line s.
Proof.
  unfold has_line_terminator, one_line. rewrite !orb_false_iff, !includes_false. split.
  - intros (((H1 & H2) & H3) & H4) t Ht. vm_compute in Ht.
    destruct Ht as [<- | [<- | [<- | [<- | []]]]]; assumption.
  - intros Hall. repeat split; apply Hall; vm_compute; tauto.
Qed.

Lemma trimStart_stopped : forall n s, (String.length s <= n)%nat -> stopped (trimStart s).
Proof.
  induction n as [|n IH]; intros s Hn.
  { destruct s; [exact I | simpl in Hn; lia]. }
  destruct s as [|c1 s1]; [exact I|].
  simpl in Hn. cbn [trimStart].
  destruct (space1 c1) eqn:E1; [apply IH; lia|].
  destruct s1 as [|c2 s2]; [split; [exact E1 | exact I]|].
  simpl in Hn.
  destruct (space2 c1 c2) eqn:E2; [apply IH; lia|].
  destruct s2 as [|c3 s3]; [repeat split; assumption|].
  simpl in Hn.
  destruct (space3 c1 c2 c3) eqn:E3; [apply IH; lia|].
  repeat split; assumption.
Qed.

Lemma stopped_black s : stopped s -> starts_black s.
Proof.
  intros Hs w Hw. vm_compute in Hw.
  destruct s as [|c1 s1]; [repeat (destruct Hw as [<- | Hw]; [reflexivity|]); destruct Hw|].
  destruct Hs as (H1 & Hs).
  repeat (destruct Hw as [<- | Hw];
    [ cbn [Js.startsWith]; match goal with
      | |- context [Ascii.eqb ?a c1] =>
          destruct (Ascii.eqb_spec a c1) as [<-|]; [|reflexivity]
      end; try (vm_compute in H1; discriminate H1);
      (destruct s1 as [|c2 s2]; [reflexivity|]); destruct Hs as (H2 & Hs);
      cbn [Js.startsWith andb]; match goal with
      | |- context [Ascii.eqb ?a c2] =>
          destruct (Ascii.eqb_spec a c2) as [<-|]; [|reflexivity]
      end; try (vm_compute in H2; discriminate H2);
      (destruct s2 as [|c3 s3]; [reflexivity|]);
      cbn [Js.startsWith andb]; match goal with
      | |- context [Ascii.eqb ?a c3] =>
          destruct (Ascii.eqb_spec a c3) as [<-|]; [|reflexivity]
      end; vm_compute in Hs; discriminate Hs
    |]).
  destruct Hw.
Qed.

End TitleFields.

Section TitleTheorems.

Lemma match_title_numbered ds gap name :
  ds <> "" -> all_digits ds = true -> blank gap -> starts_black name -> one_line name ->
  match_title ("TC" +:+ ds +:+ ":" +:+ gap +:+ name) = Some ("TC" +:+ ds, name).
Proof.
  intros Hne Hds Hgap Hname Hline. unfold match_title.
  change (Js.startsWith "TC" ("TC" +:+ ds +:+ ":" +:+ gap +:+ name)) with true.
  change (drop_string 2 ("TC" +:+ ds +:+ ":" +:+ gap +:+ name))
    with (ds +:+ String ":" (gap +:+ name)).
  cbv iota. rewrite (take_digits_app ds ":" (gap +:+ name) Hds eq_refl).
  destruct ds as [|d ds]; [congruence|]. cbn [String.eqb].
  rewrite (trimStart_blank gap name Hgap), (trimStart_black name Hname).
  rewrite (proj2 (has_line_terminator_false name) Hline). reflexivity.
Qed.

Lemma match_title_sound title testId testName :
  match_title title = Some (testId, testName) ->
  exists ds gap,
    title = testId +:+ ":" +:+ gap +:+ testName /\
    testId = "TC" +:+ ds /\ ds <> "" /\ all_digits ds = true /\
    blank gap /\ starts_black testName /\ one_line testName.
Proof.
  unfold match_title. intros E.
  destruct (Js.startsWith "TC" title) eqn:Etc; [|discriminate E].
  apply startsWith_spec in Etc as (t & ->).
  change (drop_string 2 ("TC" +:+ t)) with t in E.
  destruct (take_digits t) as [ds rest] eqn:Et.
  apply take_digits_split in Et as (-> & Hds).
  destruct (String.eqb_spec ds "") as [|Hne]; [discriminate E|].
  destruct rest as [|c rest']; [discriminate E|].
  destruct (Ascii.eqb_spec c ":") as [->|Hc].
  - destruct (has_line_terminator (trimStart rest')) eqn:Eline; [discriminate E|].
    injection E as <- <-.
    destruct (trimStart_split _ rest' (le_n _)) as (gap & Hgap & Erest).
    exists ds, gap. conjuncts; try assumption; try reflexivity.
    + rewrite <- Erest. rewrite !append_assoc. reflexivity.
    + apply stopped_black, (trimStart_stopped _ _ (le_n _)).
    + apply has_line_terminator_false. exact Eline.
  - exfalso. revert E Hc. clear.
    destruct c as [[] [] [] [] [] [] [] []]; intros E Hc;
      try discriminate E; apply Hc; reflexivity.
Qed.

(** X9.  For a title made of [TC], digits, a colon, white space and a name
    that is on one line and does not begin with white space, [onTestEnd]
    takes [TC] with the digits as the test id, the name as the test name,
    and the category of the number that the digits denote. *)
Theorem numbered_title_fields ds gap name :
  ds <> "" -> all_digits ds = true -> blank gap -> starts_black name -> one_line name ->
  title_fields ("TC" +:+ ds +:+ ":" +:+ gap +:+ name)
  = ("TC" +:+ ds, name, category_of_number (decimal 0 ds)).
Proof.
  intros Hne Hds Hgap Hname Hline. unfold title_fields.
  rewrite (match_title_numbered ds gap name Hne Hds Hgap Hname Hline).
  rewrite (category_of_id ds Hne Hds). reflexivity.
Qed.

(** X10.  Conversely, the fields that [onTestEnd] takes from a title are
    either the fallback (the id [TC-?], the whole title as the name, the
    category [Other]) or a decomposition of the title of that form. *)
Theorem title_fields_decompose title testId testName category :
  title_fields title = (testId, testName, category) ->
  (testId = "TC-?" /\ testName = title /\ category = Other) \/
  (exists ds gap,
     title = testId +:+ ":" +:+ gap +:+ testName /\
     testId = "TC" +:+ ds /\ ds <> "" /\ all_digits ds = true /\
     blank gap /\ starts_black testName /\ one_line testName /\
     category = category_of_number (decimal 0 ds)).
Proof.
  unfold title_fields. intros E.
  destruct (match_title title) as [[id name]|] eqn:Em.
  - injection E as <- <- <-. right.
    destruct (match_title_sound _ _ _ Em) as (ds & gap & Et & Eid & Hne & Hds & Hrest).
    exists ds, gap. conjuncts; try tauto.
    rewrite Eid. apply category_of_id; assumption.
  - injection E as <- <- <-. left. conjuncts; reflexivity.
Qed.

End TitleTheorems.

(** ** Step titles *)

Section StepTitles.

Lemma bar_free_inv c s : bar_free (String c s) -> c <> "|"%char /\ bar_free s.
Proof.
  intros Hfree. split.
  - intros ->. apply Hfree. exists "", s. reflexivity.
  - intros (pre & post & ->). apply Hfree. exists (String c pre), post. reflexivity.
Qed.

Lemma bar_free_cons c s : c <> "|"%char -> bar_free s -> bar_free (String c s).
Proof.
  intros Hc Hs (pre & post & E). destruct pre as [|p pre].
  - injection E as E _. exact (Hc E).
  - injection E as _ E. apply Hs. exists pre, post. exact E.
Qed.

Lemma split_on_bar_free s : bar_free s -> split_on "|" s = [s].
Proof.
  induction s as [|c s IH]; intros Hfree; [reflexivity|].
  apply bar_free_inv in Hfree as (Hc & Hs). cbn [split_on].
  destruct (Ascii.eqb_spec c "|"); [contradiction|]. rewrite (IH Hs). reflexivity.
Qed.

Lemma split_on_app s rest :
  bar_free s -> split_on "|" (s +:+ String "|" rest) = s :: split_on "|" rest.
Proof.
  induction s as [|c s IH]; intros Hfree; [reflexivity|].
  apply bar_free_inv in Hfree as (Hc & Hs).
  change (split_on "|" (String c (s +:+ String "|" rest)) = String c s :: split_on "|" rest).
  cbn [split_on]. destruct (Ascii.eqb_spec c "|"); [contradiction|].
  rewrite (IH Hs). reflexivity.
Qed.

Lemma includes_bar s rest : Js.includes "|" (s +:+ String "|" rest) = true.
Proof. apply includes_spec. exists s, rest. reflexivity. Qed.

(** X11.  A step title [Action:a|Expected:e|Actual:x] gives the trimmed
    [a], [e] and [x], the name being the whole trimmed first part when [a]
    is blank.  Without an action part the name is the trimmed first part,
    label included.  A title without a bar is the name as it is, untrimmed,
    with nothing expected and nothing actual. *)
Theorem step_fields_labelled a e x :
  bar_free a -> bar_free e -> bar_free x ->
  step_fields ("Action:" +:+ a +:+ "|Expected:" +:+ e +:+ "|Actual:" +:+ x)
  = (if String.eqb (trim a) "" then trim ("Action:" +:+ a) else trim a,
     Some (trim e), Some (trim x)) /\
  step_fields ("Expected:" +:+ e +:+ "|Actual:" +:+ x)
  = (trim ("Expected:" +:+ e), Some (trim e), Some (trim x)) /\
  step_fields a = (a, None, None).
Proof.
  intros Ha He Hx.
  assert (Hla : bar_free ("Action:" +:+ a)).
  { repeat (apply bar_free_cons; [discriminate|]). exact Ha. }
  assert (Hle : bar_free ("Expected:" +:+ e)).
  { repeat (apply bar_free_cons; [discriminate|]). exact He. }
  assert (Hlx : bar_free ("Actual:" +:+ x)).
  { repeat (apply bar_free_cons; [discriminate|]). exact Hx. }
  conjuncts.
  - unfold step_fields.
    change ("Action:" +:+ a +:+ "|Expected:" +:+ e +:+ "|Actual:" +:+ x)
      with (("Action:" +:+ a) +:+ String "|" (("Expected:" +:+ e) +:+ String "|" ("Actual:" +:+ x))).
    rewrite includes_bar, !split_on_app, split_on_bar_free by assumption.
    reflexivity.
  - unfold step_fields.
    change ("Expected:" +:+ e +:+ "|Actual:" +:+ x)
      with (("Expected:" +:+ e) +:+ String "|" ("Actual:" +:+ x)).
    rewrite includes_bar, split_on_app, split_on_bar_free by assumption.
    reflexivity.
  - unfold step_fields. rewrite (proj2 (includes_false "|" a) Ha). reflexivity.
Qed.

End StepTitles.

(** ** The reporter's history, append after append *)

Section Store.

Context `{Host}.

Ltac run_store :=
  unfold mbind, Io_bind, Io.bind, Io.try_catch, Io.existsSync, Io.readFileSync,
    Io.writeFileSync, Io.print, Io.ret, Io.throw, Io.lift, parse, push in *.

Lemma appendToHistory_stored historyFile record w old :
  stored_history historyFile w old ->
  historyFile ∉ Io.locked w ->
  appendToHistory historyFile record w
  = (Js.Normal tt, written historyFile (JSON_stringify (old ++ [record])) w).
Proof.
  intros Hold Hfree. unfold appendToHistory, written. run_store.
  destruct Hold as [(E & ->) | (data & E & Hparse)]; rewrite E.
  - rewrite bool_decide_eq_false_2 by (intros [? ?]; discriminate). simpl.
    rewrite bool_decide_eq_false_2 by exact Hfree. reflexivity.
  - rewrite bool_decide_eq_true_2 by eauto. simpl. rewrite E, Hparse. simpl.
    rewrite bool_decide_eq_false_2 by exact Hfree. reflexivity.
Qed.

Lemma written_twice path data1 data2 w :
  written path data2 (written path data1 w) = written path data2 w.
Proof. unfold written. simpl. rewrite insert_insert_eq. reflexivity. Qed.

Lemma append_each_stored historyFile records : forall w old,
  stored_history historyFile w old ->
  historyFile ∉ Io.locked w ->
  records <> [] ->
  (forall earlier later,
     records = earlier ++ later -> earlier <> [] -> later <> [] ->
     reads_back (old ++ earlier)) ->
  append_each historyFile records w
  = (Js.Normal tt, written historyFile (JSON_stringify (old ++ records)) w).
Proof.
  induction records as [|r rest IH]; intros w old Hold Hfree Hne Hback; [congruence|].
  cbn [append_each]. unfold mbind, Io_bind, Io.bind.
  rewrite (appendToHistory_stored _ r _ _ Hold Hfree).
  destruct rest as [|r' rest]; [reflexivity|].
  rewrite (IH _ (old ++ [r])).
  - rewrite written_twice, <- app_assoc. reflexivity.
  - right. eexists. split; [apply lookup_insert_eq|].
    apply (Hback [r] (r' :: rest)); [reflexivity | discriminate | discriminate].
  - exact Hfree.
  - discriminate.
  - intros earlier later E He Hl. rewrite <- app_assoc.
    apply (Hback (r :: earlier) later); [rewrite E; reflexivity | discriminate | exact Hl].
Qed.

Lemma appendToHistory_locked historyFile record w old :
  stored_history historyFile w old ->
  historyFile ∈ Io.locked w ->
  appendToHistory historyFile record w
  = (Js.Normal tt, printed w [(Io.error, "Error writing to history file")]).
Proof.
  intros Hold Hlocked. unfold appendToHistory, printed. run_store.
  destruct Hold as [(E & ->) | (data & E & Hparse)]; rewrite E.
  - rewrite bool_decide_eq_false_2 by (intros [? ?]; discriminate). simpl.
    rewrite bool_decide_eq_true_2 by exact Hlocked. reflexivity.
  - rewrite bool_decide_eq_true_2 by eauto. simpl. rewrite E, Hparse. simpl.
    rewrite bool_decide_eq_true_2 by exact Hlocked. reflexivity.
Qed.

Lemma append_each_locked historyFile records : forall w old,
  stored_history historyFile w old ->
  historyFile ∈ Io.locked w ->
  append_each historyFile records w
  = (Js.Normal tt,
     printed w (repeat (Io.error, "Error writing to history file") (length records))).
Proof.
  induction records as [|r rest IH]; intros w old Hold Hlocked.
  - unfold printed. cbn [append_each length repeat]. rewrite app_nil_r.
    destruct w; reflexivity.
  - cbn [append_each]. unfold mbind, Io_bind, Io.bind.
    rewrite (appendToHistory_locked _ r _ _ Hold Hlocked).
    rewrite (IH _ old); [| exact Hold | exact Hlocked].
    unfold printed. cbn [Io.disk Io.locked Io.console length repeat].
    rewrite <- app_assoc. reflexivity.
Qed.

(** X12.  Called at the end of each test in turn on a history file that
    is missing or parses, [appendToHistory] completes normally.  Where the
    file can be written and its intermediate contents are read back, it
    is left holding the history found followed by the new records, in
    order, and nothing is printed.  Where it cannot be written, the disk
    stays as it was and an error is printed for each record. *)
Theorem reporter_history_accumulates historyFile records w old :
  stored_history historyFile w old ->
  (historyFile ∉ Io.locked w ->
   records <> [] ->
   (forall earlier later,
      records = earlier ++ later -> earlier <> [] -> later <> [] ->
      reads_back (old ++ earlier)) ->
   append_each historyFile records w
   = (Js.Normal tt, written historyFile (JSON_stringify (old ++ records)) w)) /\
  (historyFile ∈ Io.locked w ->
   append_each historyFile records w
   = (Js.Normal tt,
      printed w (repeat (Io.error, "Error writing to history file") (length records)))).
Proof.
  intros Hold. split.
  - intros Hfree Hne Hback. apply (append_each_stored _ _ _ _ Hold Hfree Hne Hback).
  - intros Hlocked. apply (append_each_locked _ _ _ _ Hold Hlocked).
Qed.

(** X13.  Let the history file be missing or parse to a history, let the
    history file and the report file both be writable, let there be at
    least one new record, let [JSON.parse] read back each content that the
    appends write, and let no record, found or new, be filed under a name
    that object literals inherit from [Object.prototype].  Then the
    aggregation of the history found followed by the new records completes,
    and [generateReport], run after the appends, renders the dashboard of
    that history, writes it to the report file, and logs its success. *)
Theorem report_after_reporter records w old :
  stored_history HISTORY_FILE w old ->
  HISTORY_FILE ∉ Io.locked w ->
  REPORT_FILE ∉ Io.locked w ->
  records <> [] ->
  (forall earlier, earlier <> [] -> earlier `prefix_of` records -> reads_back (old ++ earlier)) ->
  plain_keys (old ++ records) ->
  exists runs,
    aggregate (old ++ records) = Js.Normal runs /\
    (append_each HISTORY_FILE records ;; generateReport) w
    = (Js.Normal tt,
       printed
         (written REPORT_FILE (render (dashboard_of (old ++ records) runs))
            (written HISTORY_FILE (JSON_stringify (old ++ records)) w))
         [(Io.log, "✅ Infinity Dashboard 4.0 Generated Successfully!")]).
Proof.
  intros Hold Hfree Hout Hne Hback Hplain.
  destruct (aggregate_returns _ Hplain) as [runs Hruns].
  exists runs. split; [exact Hruns|].
  unfold mbind at 1. unfold Io_bind, Io.bind.
  rewrite (append_each_stored _ _ _ _ Hold Hfree Hne).
  2:{ intros earlier later E He _. apply Hback; [exact He|]. exists later. exact E. }
  assert (Hread : reads_back (old ++ records)).
  { apply Hback; [exact Hne | reflexivity]. }
  unfold generateReport, write_report, written, printed, dashboard_of. run_store.
  cbn [Io.disk Io.locked Io.console].
  unfold reads_back in Hread.
  rewrite lookup_insert_eq. rewrite bool_decide_eq_true_2 by eauto. simpl.
  rewrite lookup_insert_eq, Hread. simpl. rewrite Hruns.
  rewrite bool_decide_eq_false_2 by exact Hout. reflexivity.
Qed.

End Store.

(** ** Waiting for a condition *)

Section Condition.

Context {A : Type} (predicate : A -> outcome bool) (stringify : A -> string).
Context (timeout pollInterval startTime : Z).

Lemma in_time_cons now (a : Attempt.t A) used :
  in_time timeout pollInterval startTime now (a :: used) ->
  now - startTime < timeout /\
  in_time timeout pollInterval startTime
    (now + Attempt.took a + pollInterval + Attempt.late a) used.
Proof.
  intros Htime. split.
  - apply (Htime [] (a :: used)); [reflexivity | discriminate].
  - intros before after E Hafter.
    apply (Htime (a :: before) after); [rewrite E; reflexivity | exact Hafter].
Qed.

Lemma condition_loop_refused used : forall now lastValue lastError rest,
  Forall (refused predicate) used ->
  in_time timeout pollInterval startTime now used ->
  condition_loop predicate stringify timeout pollInterval startTime
    now lastValue lastError (used ++ rest)
  = condition_loop predicate stringify timeout pollInterval startTime
      (clock_after pollInterval now used)
      (last_value lastValue used) (last_error predicate lastError used) rest.
Proof.
  induction used as [|a used IH]; intros now lastValue lastError rest Hall Htime;
    [reflexivity|].
  apply in_time_cons in Htime as (Hnow & Htime).
  inversion Hall as [|? ? Ha Hused]; subst.
  cbn [app condition_loop].
  destruct (Z.ltb_spec (now - startTime) timeout) as [_|]; [|lia].
  unfold clock_after, last_value, last_error, thrown. cbn [fold_left].
  destruct (Attempt.result a) as [value|message] eqn:Ea.
  - destruct (predicate value) as [[|]|message] eqn:Ep.
    + exfalso. apply (Ha value). split; assumption.
    + apply IH; assumption.
    + apply IH; assumption.
  - apply IH; assumption.
Qed.

Lemma condition_loop_settles failing : forall now lastValue lastError a value rest,
  Forall (refused predicate) failing ->
  accepted predicate a value ->
  condition_loop predicate stringify timeout pollInterval startTime
    now lastValue lastError (failing ++ a :: rest) = Some (Resolved value) \/
  exists message,
    condition_loop predicate stringify timeout pollInterval startTime
      now lastValue lastError (failing ++ a :: rest) = Some (Rejected message).
Proof.
  induction failing as [|f failing IH];
    intros now lastValue lastError a value rest Hall (Ea & Ep).
  - cbn [app condition_loop].
    destruct (_ <? _); [|right; eauto].
    rewrite Ea, Ep. left. reflexivity.
  - inversion Hall as [|? ? Hf Hfailing]; subst.
    cbn [app condition_loop].
    destruct (_ <? _); [|right; eauto].
    destruct (Attempt.result f) as [v|message] eqn:Ef.
    + destruct (predicate v) as [[|]|message] eqn:Epv.
      * exfalso. apply (Hf v). split; assumption.
      * apply IH; [assumption | split; assumption].
      * apply IH; [assumption | split; assumption].
    + apply IH; [assumption | split; assumption].
Qed.

End Condition.

(** X14.  [waitForCondition], when the first value that the predicate
    accepts is [value], settles: it resolves with [value] or is rejected,
    never anything else.  It resolves when the loop condition holds at the
    beginning of every turn up to that one.  When the time is up at the
    beginning of an earlier turn, it is rejected, and the message quotes the
    last error thrown until then, if any, even where a value was returned
    since; only otherwise the last value. *)
Theorem waitForCondition_settles {A : Type} (startTime : Z)
  (failing : list (Attempt.t A)) (a : Attempt.t A) (value : A)
  (rest : list (Attempt.t A)) (predicate : A -> outcome bool)
  (stringify : A -> string) (options : WaitOptions.t) :
  Forall (refused predicate) failing ->
  accepted predicate a value ->
  let timeout := timeout_of options in
  let pollInterval := interval_of options in
  let settles :=
    waitForCondition startTime (failing ++ a :: rest) predicate stringify options in
  (settles = Some (Resolved value) \/ exists message, settles = Some (Rejected message)) /\
  (in_time timeout pollInterval startTime startTime (failing ++ [a]) ->
   settles = Some (Resolved value)) /\
  (forall used later,
     failing = used ++ later ->
     in_time timeout pollInterval startTime startTime used ->
     timeout <= clock_after pollInterval startTime used - startTime ->
     settles
     = Some (Rejected (not_met stringify timeout
                         (last_value None used) (last_error predicate None used)))).
Proof.
  intros Hall Ha timeout pollInterval settles. subst settles.
  unfold waitForCondition. fold (timeout_of options). fold (interval_of options).
  fold timeout. fold pollInterval. conjuncts.
  - apply condition_loop_settles; assumption.
  - intros Htime.
    rewrite condition_loop_refused; [|exact Hall|].
    + cbn [condition_loop].
      destruct (Z.ltb_spec (clock_after pollInterval startTime failing - startTime) timeout)
        as [_|Hlate].
      * destruct Ha as (Ea & Ep). rewrite Ea, Ep. reflexivity.
      * exfalso. assert (Hin := Htime failing [a] eq_refl ltac:(discriminate)). lia.
    + intros before after E Hafter.
      apply (Htime before (after ++ [a])).
      * rewrite E, <- app_assoc. reflexivity.
      * destruct after; discriminate.
  - intros used later -> Htime Hlate.
    apply Forall_app in Hall as (Hused & _).
    rewrite <- app_assoc.
    rewrite condition_loop_refused; [|exact Hused | exact Htime].
    destruct (later ++ a :: rest) as [|x xs]; cbn [condition_loop];
      destruct (Z.ltb_spec (clock_after pollInterval startTime used - startTime) timeout);
      try lia; reflexivity.
Qed.

(** ** Retrying an action *)

Section RetryProperties.

Context {A : Type} (action : nat -> outcome A) (maxRetries delay : Z).

Lemma retry_loop_spec : forall fuel c lastError,
  (fuel + c = Z.to_nat maxRetries)%nat ->
  all_throw action c ->
  default "undefined" lastError = last_message action c ->
  exists run,
    retry_loop action maxRetries delay fuel (Z.of_nat c + 1) lastError c
      (repeat delay (Nat.min c (Z.to_nat maxRetries - 1))) = Some run /\
    Retry.sleeps run = repeat delay (Retry.calls run - 1) /\
    all_throw action (Retry.calls run - 1) /\
    match Retry.result run with
    | Resolved value =>
        (0 < Retry.calls run <= Z.to_nat maxRetries)%nat /\
        action (Retry.calls run - 1)%nat = Returned value
    | Rejected message =>
        Retry.calls run = Z.to_nat maxRetries /\ all_throw action (Z.to_nat maxRetries) /\
        message = "Action failed after " +:+ pretty maxRetries +:+
                  " attempts. Last error: " +:+ last_message action (Z.to_nat maxRetries)
    end.
Proof.
  induction fuel as [|fuel IH]; intros c lastError Hn Hthrow Hlast.
  - simpl in Hn. subst c.
    exists {| Retry.result :=
                Rejected ("Action failed after " +:+ pretty maxRetries +:+
                          " attempts. Last error: " +:+ default "undefined" lastError);
              Retry.calls := Z.to_nat maxRetries; Retry.sleeps := repeat delay (Nat.min (Z.to_nat maxRetries) (Z.to_nat maxRetries - 1)) |}.
    split.
    + destruct (Z.leb_spec (Z.of_nat (Z.to_nat maxRetries) + 1) maxRetries) as [Hle|Hgt]; [|].
      * exfalso. lia.
      * cbn [retry_loop].
        destruct (Z.leb_spec (Z.of_nat (Z.to_nat maxRetries) + 1) maxRetries); [lia | reflexivity].
    + cbn [Retry.result Retry.calls Retry.sleeps]. conjuncts.
      * f_equal. lia.
      * intros k Hk. apply Hthrow. lia.
      * reflexivity.
      * exact Hthrow.
      * rewrite Hlast. reflexivity.
  - cbn [retry_loop].
    destruct (Z.leb_spec (Z.of_nat c + 1) maxRetries) as [Hle|Hgt]; [|lia].
    destruct (action c) as [value|message] eqn:Ec.
    + eexists. split; [reflexivity|].
      cbn [Retry.result Retry.calls Retry.sleeps]. conjuncts.
      * f_equal. lia.
      * intros k Hk. apply Hthrow. lia.
      * lia.
      * lia.
      * replace (S c - 1)%nat with c by lia. exact Ec.
    + assert (Hsleeps :
        (if Z.of_nat c + 1 <? maxRetries
         then repeat delay (Nat.min c (Z.to_nat maxRetries - 1)) ++ [delay]
         else repeat delay (Nat.min c (Z.to_nat maxRetries - 1)))
        = repeat delay (Nat.min (S c) (Z.to_nat maxRetries - 1))).
      { destruct (Z.ltb_spec (Z.of_nat c + 1) maxRetries) as [Hlt|Hge].
        - replace (Nat.min c (Z.to_nat maxRetries - 1)) with c by (lia).
          replace (Nat.min (S c) (Z.to_nat maxRetries - 1)) with (S c) by (lia).
          rewrite <- repeat_cons. reflexivity.
        - f_equal. lia. }
      rewrite Hsleeps.
      replace (Z.of_nat c + 1 + 1) with (Z.of_nat (S c) + 1) by lia.
      apply IH.
      * lia.
      * intros k Hk. destruct (decide (k = c)) as [->|]; [eauto|]. apply Hthrow. lia.
      * cbn [last_message default]. rewrite Ec. reflexivity.
Qed.

End RetryProperties.

(** X15.  [withRetry] settles after at most [maxRetries] calls of the
    action (none where [maxRetries] is not positive).  It resolves with
    what the first returning call returns, all the calls before having
    thrown; or it is rejected after exactly [maxRetries] throwing calls,
    with the message of the last, or [undefined] where no call was made.
    It sleeps [delay] between two calls, and not after the last. *)
Theorem withRetry_settles {A : Type} (action : nat -> outcome A)
  (maxRetries delay : option Z) :
  let limit := default 3 maxRetries in
  let n := Z.to_nat limit in
  exists run,
    withRetry action maxRetries delay = Some run /\
    Retry.sleeps run = repeat (default 1000 delay) (Retry.calls run - 1) /\
    all_throw action (Retry.calls run - 1) /\
    match Retry.result run with
    | Resolved value =>
        (0 < Retry.calls run <= n)%nat /\
        action (Retry.calls run - 1)%nat = Returned value
    | Rejected message =>
        Retry.calls run = n /\ all_throw action n /\
        message = "Action failed after " +:+ pretty limit +:+
                  " attempts. Last error: " +:+ last_message action n
    end.
Proof.
  intros limit n. unfold withRetry.
  apply (retry_loop_spec action limit (default 1000 delay) n 0 None).
  - unfold n. lia.
  - intros k Hk. lia.
  - reflexivity.
Qed.

(** ** The properties above, on the sample histories *)



(** The groups of a history with legacy records. *)
Lemma aggregate_groups_witness :
  exists m, aggregate Sample.window_legacy = Js.Normal m /\
    is_Some (m !! "LEGACY-RUN") /\
    (forall k g, m !! k = Some g ->
       RunGroup.id g = k /\ RunGroup.results g <> [] /\
       (RunGroup.executionMode g = RunGroup.parallel \/
        RunGroup.executionMode g = RunGroup.sequential)).
Proof.
  destruct (aggregate_returns Sample.window_legacy) as [m Hm].
  { apply plain_keys_forallb. reflexivity. }
  exists m. split; [exact Hm|].
  destruct (aggregate_groups Sample.window_legacy m Hm) as (Hkeys & Heach).
  split; [|exact Heach].
  apply Hkeys. exists (Sample.legacy "TC1" passed 40).
  split; [left; reflexivity | reflexivity].
Defined.

(** The legacy group of that history: two records, 101 ms, no browser. *)
Lemma group_summary_witness :
  exists m g, aggregate Sample.window_legacy = Js.Normal m /\
    m !! "LEGACY-RUN" = Some g /\
    RunGroup.timestamp g = "2023-11-02T10:00:00.000Z" /\
    RunGroup.duration g = 101 /\
    RunGroup.browsers g = [].
Proof.
  destruct (aggregate_places Sample.window_legacy (Sample.legacy "TC1" passed 40))
    as (m & g & Hm & Hg & _).
  - apply plain_keys_forallb. reflexivity.
  - left. reflexivity.
  - exists m, g. split; [exact Hm|]. split; [exact Hg|].
    destruct (group_summary Sample.window_legacy m _ g Hm Hg)
      as ((r0 & rest & Hres & Ht) & Hd & _ & Hb).
    destruct (aggregate_lookup _ _ _ _ Hm Hg) as (g0 & E & (_ & Hres0 & _)).
    assert (Hall : RunGroup.results g = keyed "LEGACY-RUN" Sample.window_legacy).
    { rewrite E, finish_run_results. exact Hres0. }
    rewrite Hd, Ht. rewrite Hall in Hres, Hb |- *.
    vm_compute in Hres. injection Hres as <- _.
    conjuncts; [reflexivity | reflexivity |].
    destruct (RunGroup.browsers g) as [|b bs]; [reflexivity|].
    destruct (proj1 (Hb b)) as (r & Hr & Hbr); [left; reflexivity|].
    vm_compute in Hr. destruct Hr as [<- | [<- | []]]; discriminate Hbr.
Defined.

(** The four records of that history, in the metrics of the two modes. *)
Lemma mode_metrics_cover_witness :
  exists m, aggregate Sample.window_legacy = Js.Normal m /\
    let par := ExecutionMetrics.parallel (calculateExecutionModeMetrics m) in
    let seq := ExecutionMetrics.sequential (calculateExecutionModeMetrics m) in
    (ExecutionModeMetrics.totalTests par + ExecutionModeMetrics.totalTests seq = 4)%nat /\
    (ExecutionModeMetrics.passed par + ExecutionModeMetrics.passed seq = 2)%nat /\
    (ExecutionModeMetrics.failed par + ExecutionModeMetrics.failed seq = 1)%nat /\
    (ExecutionModeMetrics.skipped par + ExecutionModeMetrics.skipped seq = 1)%nat.
Proof.
  destruct (aggregate_returns Sample.window_legacy) as [m Hm].
  { apply plain_keys_forallb. reflexivity. }
  exists m. split; [exact Hm|].
  destruct (mode_metrics_cover Sample.window_legacy m Hm) as (_ & Ht & Hp & Hf & Hs).
  cbv zeta. rewrite Ht, Hp, Hf, Hs. conjuncts; reflexivity.
Defined.

(** The skipped record of that history counts as failed in its run. *)
Lemma run_counts_against_mode_counts_witness :
  exists m, aggregate Sample.window_legacy = Js.Normal m /\
    list_sum (map RunGroup.passed (Object_values m)) = 2%nat /\
    list_sum (map RunGroup.failed (Object_values m)) = 2%nat.
Proof.
  set (m := match aggregate Sample.window_legacy with
            | Js.Normal m => m
            | Js.Throw _ => ∅
            end).
  assert (Hm : aggregate Sample.window_legacy = Js.Normal m) by (vm_compute; reflexivity).
  exists m. split; [exact Hm|].
  destruct (run_counts_against_mode_counts Sample.window_legacy m Hm) as (Hp & Hf).
  rewrite Hp, Hf. split; vm_compute; reflexivity.
Defined.


(** ** The properties above, on the reporter session *)

(** The runs of the legacy sample are all counted as parallel. *)
Lemma mode_metrics_follow_classification_witness :
  exists m, aggregate Sample.window_legacy = Js.Normal m /\
    ExecutionModeMetrics.totalRuns
      (ExecutionMetrics.parallel (calculateExecutionModeMetrics m)) = 3%nat /\
    ExecutionMetrics.sequential (calculateExecutionModeMetrics m)
    = calcMetrics [] "Sequential".
Proof.
  set (m := match aggregate Sample.window_legacy with
            | Js.Normal m => m
            | Js.Throw _ => ∅
            end).
  assert (Hm : aggregate Sample.window_legacy = Js.Normal m) by (vm_compute; reflexivity).
  exists m. split; [exact Hm|].
  rewrite (mode_metrics_follow_classification Sample.window_legacy m Hm).
  split; vm_compute; reflexivity.
Defined.

(** Two reporters of the same second: one run. *)
Lemma reporter_runs_of_one_second_witness :
  exists g,
    aggregate [Session.first_test; Session.second_test]
    = Js.Normal {[ "RUN-2024-01-19T08-22-46" := g ]} /\
    RunGroup.results g = [Session.first_test; Session.second_test].
Proof.
  destruct (reporter_runs_of_one_second "2024-01-19T08:22:46"
              [Session.first_test; Session.second_test])
    as (g & Hm & _ & Hres).
  - discriminate.
  - repeat constructor; eexists; split; reflexivity.
  - exists g. split; [exact Hm | exact Hres].
Defined.

(** A title of the README. *)
Lemma numbered_title_fields_witness :
  title_fields "TC7:  Sort by name" = ("TC7", "Sort by name", Sorting_Tests).
Proof.
  apply (numbered_title_fields "7" "  " "Sort by name").
  - discriminate.
  - reflexivity.
  - apply (blank_more " " " "); [vm_compute; tauto|].
    apply (blank_more " " ""); [vm_compute; tauto | constructor].
  - apply stopped_black. vm_compute. tauto.
  - apply has_line_terminator_false. reflexivity.
Defined.

(** A title without a number. *)
Lemma title_fields_decompose_witness :
  ("TC-?" = "TC-?" /\ "Login works" = "Login works" /\ Other = Other) \/
  (exists ds gap,
     "Login works" = "TC-?" +:+ ":" +:+ gap +:+ "Login works" /\
     "TC-?" = "TC" +:+ ds /\ ds <> "" /\ all_digits ds = true /\
     blank gap /\ starts_black "Login works" /\ one_line "Login works" /\
     Other = category_of_number (decimal 0 ds)).
Proof.
  apply (title_fields_decompose "Login works" "TC-?" "Login works" Other).
  reflexivity.
Defined.

(** A step title of three parts. *)
Lemma step_fields_labelled_witness :
  step_fields "Action: Open page |Expected: table shown|Actual:table shown "
  = ("Open page", Some "table shown", Some "table shown").
Proof.
  apply (step_fields_labelled " Open page " " table shown" "table shown ");
    apply includes_false; reflexivity.
Defined.

(** Two appends to a history that is not there yet. *)
Lemma reporter_history_accumulates_witness :
  @append_each Session.host HISTORY_FILE [Session.first_test; Session.second_test]
    Session.fresh
  = (Js.Normal tt, written HISTORY_FILE "[TC1,TC2]" Session.fresh).
Proof.
  destruct (@reporter_history_accumulates Session.host HISTORY_FILE
              [Session.first_test; Session.second_test] Session.fresh [])
    as (Hfree & _).
  - left. split; reflexivity.
  - apply Hfree.
    + apply not_elem_of_empty.
    + discriminate.
    + intros earlier later E Hearlier Hlater.
      destruct earlier as [|e1 [|e2 [|e3 earlier]]]; try congruence.
      * injection E as <- _. reflexivity.
      * injection E as _ _ <-. congruence.
      * discriminate E.
Defined.

(** The same two appends, and the report made of them. *)
Lemma report_after_reporter_witness :
  exists runs,
    @aggregate Session.host [Session.first_test; Session.second_test] = Js.Normal runs /\
    (@append_each Session.host HISTORY_FILE [Session.first_test; Session.second_test] ;;
     @generateReport Session.host) Session.fresh
    = (Js.Normal tt,
       printed
         (written REPORT_FILE
            (Sample.render
               (dashboard_of [Session.first_test; Session.second_test] runs))
            (written HISTORY_FILE "[TC1,TC2]" Session.fresh))
         [(Io.log, "✅ Infinity Dashboard 4.0 Generated Successfully!")]).
Proof.
  apply (@report_after_reporter Session.host
           [Session.first_test; Session.second_test] Session.fresh []).
  - left. split; reflexivity.
  - apply not_elem_of_empty.
  - apply not_elem_of_empty.
  - discriminate.
  - intros earlier Hearlier (later & E).
    destruct earlier as [|e1 [|e2 [|e3 earlier]]]; try congruence.
    + injection E as <- _. reflexivity.
    + injection E as <- <- _. reflexivity.
    + discriminate E.
  - apply plain_keys_forallb. reflexivity.
Defined.

(** Out of time before the good value: the rejection quotes the error of
    the first attempt, not the value of the second. *)
Lemma waitForCondition_settles_witness :
  waitForCondition 0 (Session.flaky ++ Session.good :: []) Session.more_than_5
    pretty Session.hasty
  = Some (Rejected "Condition not met within 100ms. Last error: boom").
Proof.
  destruct (waitForCondition_settles 0 Session.flaky Session.good 7 []
              Session.more_than_5 pretty Session.hasty)
    as (_ & _ & Hlate).
  - repeat constructor; intros value (E & P); try discriminate E.
    injection E as <-. discriminate P.
  - split; reflexivity.
  - apply (Hlate Session.flaky []).
    + reflexivity.
    + intros before after E Hafter.
      destruct before as [|b1 [|b2 [|b3 before]]].
      * vm_compute. reflexivity.
      * injection E as <- _. vm_compute. reflexivity.
      * injection E as _ _ <-. congruence.
      * discriminate E.
    + vm_compute. discriminate.
Defined.

